(** * GitHub community-health collector: a shallow embedding of [index.js]

    The script crawls repositories, attaches attributes to each record with a
    sequence of collectors, and checkpoints the record list in [repos.json].
    This file embeds the record store, the existence probe, the collectors,
    the throttling hooks and the batch orchestrator as Rocq functions, and
    proves properties of them.

    Part I holds the definitions, Part II the lemmas and theorems. *)

From Stdlib Require Import ZArith Lia Permutation Ascii.
From stdpp Require Import gmap strings list fin_maps.

Local Open Scope Z_scope.

(** * Part I: the program *)

(** ** JavaScript values and built-ins *)

Module JS.

(** A JS number as far as the script computes with them: integers and NaN. *)
Inductive number :=
| NaN
| Num (z : Z).

(** The values a repository record holds. *)
Inductive value :=
| VUndefined
| VNull
| VBool (b : bool)
| VNumber (n : number)
| VString (s : string)
| VArray (items : list string)          (* topics, environments *)
| VObject (fields : gmap string Z).     (* languages: bytes per language *)

#[global] Instance number_eq_dec : EqDecision number.
Proof. solve_decision. Defined.

#[global] Instance value_eq_dec : EqDecision value.
Proof. solve_decision. Defined.

(** ToBoolean *)
Definition truthy (v : value) : bool :=
  match v with
  | VUndefined | VNull => false
  | VBool b => b
  | VNumber NaN => false
  | VNumber (Num z) => negb (z =? 0)
  | VString s => negb (bool_decide (s = EmptyString))
  | VArray _ | VObject _ => true
  end.

(** [a + b] on numbers *)
Definition add (a b : number) : number :=
  match a, b with
  | Num x, Num y => Num (x + y)
  | _, _ => NaN
  end.

(** The double-quote character, as a string. *)
Definition dquote : string := String (ascii_of_nat 34) EmptyString.

(** [`${x}`] for a property that holds a string or is undefined. *)
Definition tmpl (x : option string) : string :=
  match x with
  | Some s => s
  | None => "undefined"
  end.

(** [v.length] *)
Definition length_of (v : value) : value :=
  match v with
  | VArray items => VNumber (Num (Z.of_nat (length items)))
  | VString s => VNumber (Num (Z.of_nat (String.length s)))
  | VObject fields =>
      match fields !! "length" with
      | Some z => VNumber (Num z)
      | None => VUndefined
      end
  | _ => VUndefined
  end.

(** [Array.prototype.findIndex]: the index of the first element satisfying
    [p], or -1. *)
Fixpoint findIndex_from {A} (p : A → bool) (l : list A) (i : Z) : Z :=
  match l with
  | [] => -1
  | x :: l' => if p x then i else findIndex_from p l' (i + 1)
  end.

Definition findIndex {A} (p : A → bool) (l : list A) : Z :=
  findIndex_from p l 0.

(** [Array.prototype.filter] with the three-argument callback
    [(element, index, array)]. *)
Fixpoint filter_from {A} (p : A → Z → list A → bool)
         (whole l : list A) (i : Z) : list A :=
  match l with
  | [] => []
  | x :: l' =>
      if p x i whole then x :: filter_from p whole l' (i + 1)
      else filter_from p whole l' (i + 1)
  end.

Definition array_filter {A} (p : A → Z → list A → bool) (l : list A) : list A :=
  filter_from p l l 0.

(** [Array.prototype.every] *)
Definition every {A} (p : A → bool) (l : list A) : bool := forallb p l.

(** [String.prototype.trim], on the ASCII white space. *)
Fixpoint trimStart (s : string) : string :=
  match s with
  | String a s' => if Ascii.is_space a then trimStart s' else s
  | EmptyString => EmptyString
  end.

Definition trim (s : string) : string :=
  String.rev (trimStart (String.rev (trimStart s))).

Fixpoint decimal_digits (s : string) (acc : Z) : option Z :=
  match s with
  | EmptyString => Some acc
  | String a s' =>
      match Ascii.is_nat a with
      | Some d => decimal_digits s' (10 * acc + Z.of_nat d)
      | None => None
      end
  end.

Definition unsigned_decimal (s : string) : option Z :=
  match s with
  | EmptyString => None
  | _ => decimal_digits s 0
  end.

(** Unary plus on a string, for the literals [number] can hold: white space
    is trimmed, the empty string is 0, an optionally signed run of decimal
    digits is its value, and everything else is NaN.  (JS also reads
    fractions, exponents, radix prefixes and Infinity; no result below
    depends on how such a text converts.) *)
Definition ToNumber (s : string) : number :=
  match trim s with
  | EmptyString => Num 0
  | String a t as u =>
      if bool_decide (a = "-"%char) then
        from_option (fun z => Num (- z)) NaN (unsigned_decimal t)
      else if bool_decide (a = "+"%char) then
        from_option Num NaN (unsigned_decimal t)
      else from_option Num NaN (unsigned_decimal u)
  end.

(** Unary plus on a value that is a string or null. *)
Definition ToNumber_nullable (x : option string) : number :=
  match x with
  | Some s => ToNumber s
  | None => Num 0
  end.

Fixpoint drop_chars (n : nat) (s : string) : string :=
  match n, s with
  | S k, String _ s' => drop_chars k s'
  | _, _ => s
  end.

(** [s.split(sep)] for a non-empty separator.  [skip] counts the characters
    of a separator occurrence still to be passed over, [cur] is the piece
    being read, reversed. *)
Fixpoint split_go (sep s : string) (skip : nat) (cur : string) : list string :=
  match s with
  | EmptyString => [String.rev cur]
  | String a s' =>
      match skip with
      | S k => split_go sep s' k cur
      | O =>
          if String.prefix sep s
          then String.rev cur :: split_go sep s' (Nat.pred (String.length sep)) EmptyString
          else split_go sep s' O (String a cur)
      end
  end.

Definition split (sep s : string) : list string := split_go sep s O EmptyString.

(** [s.replace(pat, by)] for a non-empty string pattern: the first
    occurrence only. *)
Fixpoint replace (pat by_ s : string) : string :=
  match s with
  | EmptyString => EmptyString
  | String a s' =>
      if String.prefix pat s then by_ +:+ drop_chars (String.length pat) s
      else String a (replace pat by_ s')
  end.

End JS.

Import JS.

(** ** Repository records *)

(** A record is a JS object.  Its identity fields [owner], [repo] and
    [default_branch] hold a string or are undefined ([None]); every other
    property lives in the attribute map, where a key's absence is what
    [hasOwnProperty] tests. *)
Record RepositoryRecord := mkRepo {
  owner : option string;
  repo : option string;
  default_branch : option string;
  attrs : gmap string value
}.

#[global] Instance RepositoryRecord_eq_dec : EqDecision RepositoryRecord.
Proof. solve_decision. Defined.

Definition identity (r : RepositoryRecord) : option string * option string :=
  (owner r, repo r).

Definition hasOwnProperty (r : RepositoryRecord) (k : string) : bool :=
  bool_decide (is_Some (attrs r !! k)).

(** [r.k]: reading a missing property gives undefined. *)
Definition get (r : RepositoryRecord) (k : string) : value :=
  default VUndefined (attrs r !! k).

(** [r.k = v] *)
Definition set (k : string) (v : value) (r : RepositoryRecord) : RepositoryRecord :=
  mkRepo (owner r) (repo r) (default_branch r) (<[k := v]> (attrs r)).

(** [r.owner === repo.owner && r.repo === repo.repo] *)
Definition same_identity (r1 r2 : RepositoryRecord) : bool :=
  bool_decide (owner r1 = owner r2) && bool_decide (repo r1 = repo r2).

(** ** Record store: merge without duplicates *)

Definition removeDuplicateRepos (listOfRepos : list RepositoryRecord)
  : list RepositoryRecord :=
  array_filter
    (fun repo i list => i =? findIndex (fun r => same_identity r repo) list)
    listOfRepos.

(** The spec's wording of the merge: go through the records in order and keep
    a record unless its identity was seen before. *)
Fixpoint keep_first_per_identity
         (seen : list (option string * option string))
         (l : list RepositoryRecord) : list RepositoryRecord :=
  match l with
  | [] => []
  | r :: l' =>
      if bool_decide (identity r ∈ seen) then keep_first_per_identity seen l'
      else r :: keep_first_per_identity (identity r :: seen) l'
  end.

(** The first record of [l] with the identity of [r], if any. *)
Definition first_with_identity (r : RepositoryRecord) (l : list RepositoryRecord)
  : option RepositoryRecord :=
  List.find (same_identity r) l.

(** [JSON.parse(JSON.stringify(v))]: a property whose value is undefined is
    left out, NaN is written as null. *)
Definition json_value (v : value) : option value :=
  match v with
  | VUndefined => None
  | VNumber NaN => Some VNull
  | _ => Some v
  end.

Definition json_record (r : RepositoryRecord) : RepositoryRecord :=
  mkRepo (owner r) (repo r) (default_branch r) (omap json_value (attrs r)).

Definition to_json (l : list RepositoryRecord) : list RepositoryRecord :=
  json_record <$> l.

(** ** The outside world: pages, API answers, files *)

(** An element matched by a cheerio selector. *)
Record element := mkElement {
  inner_html : string;
  inner_text : string
}.

(** A loaded page, [cheerio.load(body)]: the elements each selector matches. *)
Definition document := string → list element.

(** [$(sel).html()]: the inner HTML of the first match, or null. *)
Definition html (matched : list element) : option string :=
  inner_html <$> head matched.

(** [$(sel).text()]: the texts of all matches, concatenated. *)
Definition text (matched : list element) : string :=
  foldr (fun e acc => inner_text e +:+ acc) EmptyString matched.

(** What [node-fetch] resolves to. *)
Record response := mkResponse {
  status : Z;
  url : string;                     (* where the redirects landed *)
  content_length : option string;   (* headers.get('content-length') *)
  body : document
}.

(** An error thrown by an octokit call; [err_status] is [e?.status]. *)
Record api_error := mkApiError { err_status : option Z }.

Inductive api_result (A : Type) :=
| ApiOk (data : A)
| ApiFail (e : api_error).
Arguments ApiOk {A} data.
Arguments ApiFail {A} e.

(** [data.files] of the community profile. *)
Record community_files := mkFiles {
  code_of_conduct : bool;           (* truthiness of each entry *)
  code_of_conduct_file : bool;
  contributing : bool;
  issue_template : bool;
  pull_request_template : bool;
  readme : option string            (* [readme.html_url] when there is a readme *)
}.

(** A repository as the search API returns it. *)
Record api_repo := mkApiRepo {
  api_owner_login : option string;  (* [repo.owner?.login] *)
  api_name : option string;
  api_default_branch : option string;
  api_license : option value;       (* [license.spdx_id] when there is a license *)
  api_fields : gmap string value    (* the remaining fields, by name *)
}.

Inductive request :=
| Fetch (method url : string)
| SearchRepositories (q sort : string)
| GetCommunityProfileMetrics (owner repo : option string)
| ListLanguages (owner repo : option string)
| ListDeployments (owner repo : option string)
| GetAllEnvironments (owner repo : option string).

(** The network answers a request depending on the request and on the moment
    it is made (the number of events so far).  [net_fetch] answers [None]
    when the connection fails. *)
Record network := mkNetwork {
  net_fetch : nat → string → string → option response;
  net_search : nat → string → string → api_result (list api_repo);
  net_community : nat → option string → option string → api_result community_files;
  net_languages : nat → option string → option string → api_result (gmap string Z);
  net_deployments : nat → option string → option string → api_result nat;
  net_environments : nat → option string → option string → api_result (list string)
}.

(** A cell of the ARFF data section. *)
Inductive cell :=
| Cell (v : value)
| SecondsSince (timestamp : value)   (* [now.diff(moment(t), 'seconds')] *)
| Ratio (part total : Z).            (* a quotient of byte counts *)

Inductive file :=
| JsonFile (records : list RepositoryRecord)
| ArffFile (rows : list (list (string * cell))).

Inductive event :=
| Requested (r : request)
  (* the log line at the start of a collector, with the list it was given *)
| CollectorStarted (message : string) (listOfRepos : list RepositoryRecord)
| Wrote (filename : string) (content : file).

(** The state a computation runs in.  The clock counts the requests made so
    far: it is the moment the network sees. *)
Record world := mkWorld {
  clock : nat;
  files : gmap string file;
  repos_var : option (list RepositoryRecord) (* [let repos = null] *)
}.

Definition tick (w : world) : world :=
  mkWorld (S (clock w)) (files w) (repos_var w).

Definition store (filename : string) (content : file) (w : world) : world :=
  mkWorld (clock w) (<[filename := content]> (files w)) (repos_var w).

Definition assign_repos (v : option (list RepositoryRecord)) (w : world) : world :=
  mkWorld (clock w) (files w) v.

(** ** Control: results, exceptions, process exit *)

(** What [throw response.status] or a failed fetch rejects a probe with. *)
Inductive rejection :=
| StatusRejection (status : Z)
| FetchRejection.

Inductive error :=
| UnexpectedStatus (status : Z) (method url : string)
| FetchError
| ApiError (e : api_error)
| AggregateError (errors : list rejection)
| TypeError.

Inductive outcome (A : Type) :=
| Returned (a : A)
| Thrown (e : error)
| Exited.                            (* [process.exit(0)] *)
Arguments Returned {A} a.
Arguments Thrown {A} e.
Arguments Exited {A}.

(** A computation: from a state to an outcome, the state it leaves, and the
    events it produced, oldest first. *)
Definition M (A : Type) : Type := world → outcome A * world * list event.

Definition ret {A} (a : A) : M A := fun w => (Returned a, w, []).

Definition throw {A} (e : error) : M A := fun w => (Thrown e, w, []).

Definition bind {A B} (m : M A) (k : A → M B) : M B :=
  fun w =>
    match m w with
    | (Returned a, w', evs) => let '(o, w'', evs') := k a w' in (o, w'', evs ++ evs')
    | (Thrown e, w', evs) => (Thrown e, w', evs)
    | (Exited, w', evs) => (Exited, w', evs)
    end.

Notation "'let*' x ':=' m 'in' k" := (bind m (fun x => k))
  (at level 10, x name, m at level 100, k at level 200, only parsing).

(** [try { m } catch (e) { h e }] *)
Definition try_catch {A} (m : M A) (h : error → M A) : M A :=
  fun w =>
    match m w with
    | (Thrown e, w', evs) => let '(o, w'', evs') := h e w' in (o, w'', evs ++ evs')
    | res => res
    end.

(** [try { m } finally { fin }]; a process exit inside [m] skips [fin]. *)
Definition try_finally {A} (m : M A) (fin : M unit) : M A :=
  fun w =>
    match m w with
    | (Exited, w', evs) => (Exited, w', evs)
    | (o, w', evs) =>
        match fin w' with
        | (Returned _, w'', evs') => (o, w'', evs ++ evs')
        | (Thrown e, w'', evs') => (Thrown e, w'', evs ++ evs')
        | (Exited, w'', evs') => (Exited, w'', evs ++ evs')
        end
    end.

Definition write_file (filename : string) (content : file) : M unit :=
  fun w => (Returned tt, store filename content w, [Wrote filename content]).

(** A collector is given an array of records and updates them in place: it
    yields the records as it left them, also when it stops with an error. *)
Definition collector : Type :=
  list RepositoryRecord → world
  → list RepositoryRecord * outcome unit * world * list event.

(** [for (const repo of listOfRepos) { body }] *)
Fixpoint for_of (body : RepositoryRecord → M RepositoryRecord)
         (listOfRepos : list RepositoryRecord) (w : world)
  : list RepositoryRecord * outcome unit * world * list event :=
  match listOfRepos with
  | [] => ([], Returned tt, w, [])
  | r :: rest =>
      match body r w with
      | (Returned r', w', evs) =>
          let '(rest', o, w'', evs') := for_of body rest w' in
          (r' :: rest', o, w'', evs ++ evs')
      | (Thrown e, w', evs) => (r :: rest, Thrown e, w', evs)
      | (Exited, w', evs) => (r :: rest, Exited, w', evs)
      end
  end.

(** The shape every collector has: a log line, then the loop. *)
Definition collect (message : string)
           (body : RepositoryRecord → M RepositoryRecord) : collector :=
  fun listOfRepos w =>
    let '(out, o, w', evs) := for_of body listOfRepos w in
    (out, o, w', CollectorStarted message listOfRepos :: evs).

(** Collectors awaited one after the other. *)
Fixpoint in_sequence (cs : list collector) : collector :=
  match cs with
  | [] => fun l w => (l, Returned tt, w, [])
  | c :: cs' =>
      fun l w =>
        match c l w with
        | (l', Returned _, w', evs) =>
            let '(l'', o, w'', evs') := in_sequence cs' l' w' in
            (l'', o, w'', evs ++ evs')
        | res => res
        end
  end.

(** The requests among some events. *)
Definition requests (evs : list event) : list request :=
  omap (fun e => match e with Requested r => Some r | _ => None end) evs.

(** ** Existence probe *)

Inductive settled :=
| Fulfilled (v : bool)
| Rejected (reason : rejection).

(** [Promise.any], run on promises that settle in the order [order] (a list
    of input positions).  While pending it holds the [errors] array, filled
    by position, and the count of promises still to settle. *)
Inductive any_state :=
| AnyPending (errors : list (option rejection)) (remaining : nat)
| AnyFulfilled (v : bool)
| AnyRejected (errors : list rejection).

Definition any_settle (ps : list settled) (st : any_state) (i : nat) : any_state :=
  match st with
  | AnyPending errors remaining =>
      match ps !! i with
      | Some (Fulfilled v) => AnyFulfilled v
      | Some (Rejected e) =>
          let errors' := <[i := Some e]> errors in
          match Nat.pred remaining with
          | O => AnyRejected (omap id errors')
          | S _ as remaining' => AnyPending errors' remaining'
          end
      | None => st
      end
  | _ => st
  end.

Definition promise_any (ps : list settled) (order : list nat) : any_state :=
  match ps with
  | [] => AnyRejected []
  | _ => foldl (any_settle ps) (AnyPending (replicate (length ps) None) (length ps)) order
  end.

(** The same with the promises settling in input order. *)
Fixpoint promise_any_in_order (ps : list settled) (errors : list rejection)
  : bool + list rejection :=
  match ps with
  | [] => inr (rev errors)
  | Fulfilled v :: _ => inl v
  | Rejected e :: ps' => promise_any_in_order ps' (e :: errors)
  end.

(** How one HEAD check ended: with a response status, or with the fetch
    rejected (after its retry). *)
Inductive head_outcome :=
| HeadStatus (status : Z)
| HeadFailed.

#[global] Instance head_outcome_eq_dec : EqDecision head_outcome.
Proof. solve_decision. Defined.

(** The [.then] of a candidate: found wins, anything else is thrown. *)
Definition candidate (h : head_outcome) : settled :=
  match h with
  | HeadStatus s => if s =? 200 then Fulfilled true else Rejected (StatusRejection s)
  | HeadFailed => Rejected FetchRejection
  end.

(** [e === 404] *)
Definition is_404 (e : rejection) : bool :=
  match e with
  | StatusRejection s => s =? 404
  | FetchRejection => false
  end.

Inductive probe_result :=
| ProbePending
| ProbeResolved (b : bool)
| ProbeFailed (aggregateError : list rejection).

(** The [.catch] after [Promise.any]. *)
Definition on_aggregate_error (errors : list rejection) : probe_result :=
  if every is_404 errors then ProbeResolved false else ProbeFailed errors.

(** [doesAnyFileExist] given how each HEAD check ends and the order in which
    they complete. *)
Definition doesAnyFileExist_settled (heads : list head_outcome) (order : list nat)
  : probe_result :=
  match promise_any (candidate <$> heads) order with
  | AnyPending _ _ => ProbePending
  | AnyFulfilled v => ProbeResolved v
  | AnyRejected errors => on_aggregate_error errors
  end.

(** ** HTTP and API calls *)

Section Collectors.

Variable net : network.

(** One [fetch(url, { method })]. *)
Definition fetch (url method : string) : M (option response) :=
  fun w =>
    (Returned (net_fetch net (clock w) method url), tick w,
     [Requested (Fetch method url)]).

(** [fetch(...).catch(() => fetch(...))]: a failed connection is retried
    once. *)
Definition fetchWithRetryAndLogging (url method : string) : M response :=
  let* first := fetch url method in
  match first with
  | Some response => ret response
  | None =>
      let* second := fetch url method in
      match second with
      | Some response => ret response
      | None => throw FetchError
      end
  end.

(** An octokit call: the request is logged, a failure is thrown. *)
Definition octokit {A} (req : request) (answer : nat → api_result A) : M A :=
  fun w =>
    match answer (clock w) with
    | ApiOk data => (Returned data, tick w, [Requested req])
    | ApiFail e => (Thrown (ApiError e), tick w, [Requested req])
    end.

(** The HEAD check of one candidate, as a settled promise. *)
Definition head_check (url : string) : M head_outcome :=
  fun w =>
    match fetchWithRetryAndLogging url "HEAD" w with
    | (Returned response, w', evs) => (Returned (HeadStatus (status response)), w', evs)
    | (_, w', evs) => (Returned HeadFailed, w', evs)
    end.

Fixpoint head_checks (urls : list string) : M (list head_outcome) :=
  match urls with
  | [] => ret []
  | url :: urls' =>
      let* h := head_check url in
      let* hs := head_checks urls' in
      ret (h :: hs)
  end.

Definition doesAnyFileExist (urls : list string) : M bool :=
  let* heads := head_checks urls in
  match promise_any_in_order (candidate <$> heads) [] with
  | inl found => ret found
  | inr errors =>
      if every is_404 errors then ret false else throw (AggregateError errors)
  end.

(** ** Discovery *)

Definition trimmed_fields : list (string * string) :=
  [ ("description", "description"); ("created_at", "created_at");
    ("updated_at", "updated_at"); ("pushed_at", "pushed_at");
    ("size", "size"); ("stargazers_count", "stargazers_count");
    ("watchers_count", "watchers_count"); ("primary_language", "language");
    ("has_issues", "has_issues"); ("has_projects", "has_projects");
    ("has_downloads", "has_downloads"); ("has_wiki", "has_wiki");
    ("has_pages", "has_pages"); ("forks_count", "forks_count");
    ("open_issues_count", "open_issues_count"); ("topics", "topics") ].

Definition license_of (r : api_repo) : value :=
  match api_license r with
  | Some spdx_id =>
      if bool_decide (spdx_id = VString "NOASSERTION") then VString "Non-standard"
      else spdx_id
  | None => VString "None"
  end.

(** The callback of [octokit.paginate]: the record kept for a search hit. *)
Definition trim_repo (r : api_repo) : RepositoryRecord :=
  mkRepo (api_owner_login r) (api_name r) (api_default_branch r)
    (<["license" := license_of r]>
       (list_to_map
          ((fun kf => (kf.1, default VUndefined (api_fields r !! kf.2)))
             <$> trimmed_fields))).

Definition getListOfRepos (query sort : string) : M (list RepositoryRecord) :=
  let* data := octokit (SearchRepositories query sort)
                       (fun t => net_search net t query sort) in
  ret (trim_repo <$> data).

(** ** Attribute collectors *)

Definition landing_page (repo_ : RepositoryRecord) : string :=
  "https://www.github.com/" +:+ tmpl (owner repo_) +:+ "/" +:+ tmpl (repo repo_).

(** The selector of the contributor count on the sidebar. *)
Definition contributors_count (repo_ : RepositoryRecord) : string :=
  "a[href=" +:+ dquote +:+ "/" +:+ tmpl (owner repo_) +:+ "/" +:+ tmpl (repo repo_)
    +:+ "/graphs/contributors" +:+ dquote +:+ "] > span".

Definition getContributorCounts_body (repo_ : RepositoryRecord) : M RepositoryRecord :=
  if hasOwnProperty repo_ "contributor_count" then ret repo_ (* Already calculated *) else
    let url := landing_page repo_ in
    let* response := fetchWithRetryAndLogging url "GET" in
    if negb (status response =? 200)
    then throw (UnexpectedStatus (status response) "GET" url)
    else
      match html (body response (contributors_count repo_)) with
      | Some span => ret (set "contributor_count" (VNumber (ToNumber (trim span))) repo_)
      | None =>
          (* [null.trim()] throws; only 1 contributor, not on the sidebar *)
          ret (set "contributor_count" (VNumber (Num 1)) repo_)
      end.

Definition getContributorCounts : collector :=
  collect "Getting contributor counts" getContributorCounts_body.

Definition getReadmeLengths_body (repo_ : RepositoryRecord) : M RepositoryRecord :=
  if hasOwnProperty repo_ "readme_size" then ret repo_ (* Already calculated *) else
    try_catch
      (match get repo_ "rawReadmeUrl" with
       | VString rawReadmeUrl =>
           let* response := fetchWithRetryAndLogging rawReadmeUrl "HEAD" in
           if negb (status response =? 200)
           then throw (UnexpectedStatus (status response) "HEAD" rawReadmeUrl)
           else ret (set "readme_size"
                         (VNumber (ToNumber_nullable (content_length response))) repo_)
       | _ => throw FetchError   (* not a URL: the fetch rejects *)
       end)
      (fun _ => ret (set "readme_size" (VNumber (Num 0)) repo_)).

Definition getReadmeLengths : collector :=
  collect "Getting readme lengths" getReadmeLengths_body.

Definition getCommunityProfileMetrics_body (repo_ : RepositoryRecord) : M RepositoryRecord :=
  if hasOwnProperty repo_ "has_code_of_conduct" then ret repo_ (* Already calculated *) else
    let* data := octokit (GetCommunityProfileMetrics (owner repo_) (repo repo_))
                         (fun t => net_community net t (owner repo_) (repo repo_)) in
    let repo1 :=
      set "has_pull_request_template" (VBool (pull_request_template data))
        (set "has_issue_template" (VBool (issue_template data))
           (set "has_contributing" (VBool (contributing data))
              (set "has_code_of_conduct"
                   (VBool (code_of_conduct data || code_of_conduct_file data)) repo_))) in
    match readme data with
    | Some providedReadmeHtmlUrl =>
        ret (set "rawReadmeUrl"
                 (VString ("https://raw.githubusercontent.com/" +:+ tmpl (owner repo_)
                             +:+ "/" +:+ tmpl (repo repo_)
                             +:+ tmpl (split "blob" providedReadmeHtmlUrl !! 1%nat)))
                 repo1)
    | None => ret (set "readme_size" (VNumber (Num 0)) repo1)
    end.

Definition getCommunityProfileMetrics : collector :=
  collect "Getting community profile metrics" getCommunityProfileMetrics_body.

Definition getLanguages_body (repo_ : RepositoryRecord) : M RepositoryRecord :=
  if hasOwnProperty repo_ "languages" then ret repo_ (* Already calculated *) else
    let* data := octokit (ListLanguages (owner repo_) (repo repo_))
                         (fun t => net_languages net t (owner repo_) (repo repo_)) in
    ret (set "languages" (VObject data) repo_).

Definition getLanguages : collector :=
  collect "Getting languages" getLanguages_body.

Definition getDeployments_body (repo_ : RepositoryRecord) : M RepositoryRecord :=
  if hasOwnProperty repo_ "has_deployments" then ret repo_ (* Already calculated *) else
    if truthy (get repo_ "environments")
       && bool_decide (length_of (get repo_ "environments") = VNumber (Num 0))
    then (* Cannot have deployments without any environments *)
      ret (set "has_deployments" (VBool false) repo_)
    else
      try_catch
        (let* data_length := octokit (ListDeployments (owner repo_) (repo repo_))
                               (fun t => net_deployments net t (owner repo_) (repo repo_)) in
         ret (set "has_deployments" (VBool (0 <? Z.of_nat data_length)) repo_))
        (fun e =>
           match e with
           | ApiError {| err_status := Some 502 |} =>
               ret (set "has_deployments" (VBool true) repo_)
           | _ => ret repo_     (* Otherwise, undefined is okay. *)
           end).

Definition getDeployments : collector :=
  collect "Getting deployments" getDeployments_body.

Definition getEnvironments_body (repo_ : RepositoryRecord) : M RepositoryRecord :=
  if hasOwnProperty repo_ "environments" then ret repo_ (* Already calculated *) else
    try_catch
      (let* names := octokit (GetAllEnvironments (owner repo_) (repo repo_))
                       (fun t => net_environments net t (owner repo_) (repo repo_)) in
       ret (set "environments" (VArray names) repo_))
      (fun _ => ret (set "environments" (VArray []) repo_)).

Definition getEnvironments : collector :=
  collect "Getting environments" getEnvironments_body.

Definition getReleases_body (repo_ : RepositoryRecord) : M RepositoryRecord :=
  if hasOwnProperty repo_ "has_releases" then ret repo_ (* Already calculated *) else
    let releasesUrl :=
      "https://github.com/" +:+ tmpl (owner repo_) +:+ "/" +:+ tmpl (repo repo_)
        +:+ "/releases" in
    let* response := fetchWithRetryAndLogging (releasesUrl +:+ "/latest") "HEAD" in
    if negb (status response =? 200)
    then throw (UnexpectedStatus (status response) "HEAD" (releasesUrl +:+ "/latest"))
    else ret (set "has_releases"
                  (VBool (negb (bool_decide (url response = releasesUrl)))) repo_).

Definition getReleases : collector :=
  collect "Getting releases" getReleases_body.

Definition getWorkflows_body (repo_ : RepositoryRecord) : M RepositoryRecord :=
  if hasOwnProperty repo_ "workflows_count" then ret repo_ (* Already calculated *) else
    let url :=
      "https://github.com/" +:+ tmpl (owner repo_) +:+ "/" +:+ tmpl (repo repo_)
        +:+ "/tree/" +:+ tmpl (default_branch repo_) +:+ "/.github/workflows" in
    let* response := fetchWithRetryAndLogging url "GET" in
    if status response =? 404
    then ret (set "workflows_count" (VNumber (Num 0)) repo_)
    else if negb (status response =? 200)
    then throw (UnexpectedStatus (status response) "GET" url)
    else
      let rows := Z.of_nat (length (body response ("div[role=" +:+ dquote +:+ "row" +:+ dquote +:+ "]"))) in
      if negb (rows =? 0)
      then ret (set "workflows_count" (VNumber (Num (rows - 2))) repo_)
      else ret (set "workflows_count" (VNumber (Num 0)) repo_).

Definition getWorkflows : collector :=
  collect "Getting workflow counts" getWorkflows_body.

Definition getIssueLabelsCount_body (repo_ : RepositoryRecord) : M RepositoryRecord :=
  if hasOwnProperty repo_ "labels_count" then ret repo_ (* Already calculated *) else
    let url :=
      "https://github.com/" +:+ tmpl (owner repo_) +:+ "/" +:+ tmpl (repo repo_)
        +:+ "/labels" in
    let* response := fetchWithRetryAndLogging url "GET" in
    if negb (status response =? 200)
    then throw (UnexpectedStatus (status response) "GET" url)
    else ret (set "labels_count"
                  (VNumber (ToNumber (text (body response ".js-labels-count")))) repo_).

Definition getIssueLabelsCount : collector :=
  collect "Getting issue label counts" getIssueLabelsCount_body.

Definition getMilestones_body (repo_ : RepositoryRecord) : M RepositoryRecord :=
  if hasOwnProperty repo_ "milestones_count" then ret repo_ (* Already calculated *) else
    let url :=
      "https://github.com/" +:+ tmpl (owner repo_) +:+ "/" +:+ tmpl (repo repo_)
        +:+ "/milestones" in
    let* response := fetchWithRetryAndLogging url "GET" in
    if status response =? 404
    then ret (set "milestones_count" (VNumber (Num 0)) repo_)
    else if negb (status response =? 200)
    then throw (UnexpectedStatus (status response) "GET" url)
    else
      let link state :=
        "a.btn-link[href=" +:+ dquote +:+ "/" +:+ tmpl (owner repo_) +:+ "/"
          +:+ tmpl (repo repo_) +:+ "/milestones?state=" +:+ state +:+ dquote +:+ "]" in
      let openMilestonesCount :=
        ToNumber (trim (replace "Open" EmptyString (text (body response (link "open"))))) in
      let closedMilestonesCount :=
        ToNumber (trim (replace "Closed" EmptyString (text (body response (link "closed"))))) in
      ret (set "milestones_count"
               (VNumber (add openMilestonesCount closedMilestonesCount)) repo_).

Definition getMilestones : collector :=
  collect "Getting milestone counts" getMilestones_body.

Definition raw (repo_ : RepositoryRecord) (path : string) : string :=
  "https://raw.githubusercontent.com/" +:+ tmpl (owner repo_) +:+ "/"
    +:+ tmpl (repo repo_) +:+ "/" +:+ tmpl (default_branch repo_) +:+ path.

Definition org_default (repo_ : RepositoryRecord) (branch file_ : string) : string :=
  "https://raw.githubusercontent.com/" +:+ tmpl (owner repo_) +:+ "/.github/"
    +:+ branch +:+ "/" +:+ file_.

Definition getSecurityFiles_body (repo_ : RepositoryRecord) : M RepositoryRecord :=
  if hasOwnProperty repo_ "has_security_file" then ret repo_ (* Already calculated *) else
    let directories := ["/"; "/docs/"; "/.github/"] in
    let branches := ["master"; "main"] in
    let urls :=
      ((fun directory => raw repo_ (directory +:+ "SECURITY.md")) <$> directories)
        ++ ((fun branch => org_default repo_ branch "SECURITY.md") <$> branches) in
    let* found := doesAnyFileExist urls in
    ret (set "has_security_file" (VBool found) repo_).

Definition getSecurityFiles : collector :=
  collect "Getting security files" getSecurityFiles_body.

Definition getSupportFiles_body (repo_ : RepositoryRecord) : M RepositoryRecord :=
  if hasOwnProperty repo_ "has_support_file" then ret repo_ (* Already calculated *) else
    let directories := ["/"; "/docs/"; "/.github/"] in
    let branches := ["master"; "main"] in
    let urls :=
      ((fun directory => raw repo_ (directory +:+ "SUPPORT.md")) <$> directories)
        ++ ((fun branch => org_default repo_ branch "SUPPORT.md") <$> branches) in
    let* found := doesAnyFileExist urls in
    ret (set "has_support_file" (VBool found) repo_).

Definition getSupportFiles : collector :=
  collect "Getting support files" getSupportFiles_body.

Definition getFundingFiles_body (repo_ : RepositoryRecord) : M RepositoryRecord :=
  if hasOwnProperty repo_ "has_funding_file" then ret repo_ (* Already calculated *) else
    let url := raw repo_ "/.github/FUNDING.yml" in
    let* found := doesAnyFileExist [url] in
    ret (set "has_funding_file" (VBool found) repo_).

Definition getFundingFiles : collector :=
  collect "Getting funding files" getFundingFiles_body.

Definition getCodeowners_body (repo_ : RepositoryRecord) : M RepositoryRecord :=
  if hasOwnProperty repo_ "has_codeowners" then ret repo_ (* Already calculated *) else
    let directories := ["/"; "/docs/"; "/.github/"] in
    let urls := (fun directory => raw repo_ (directory +:+ "CODEOWNERS")) <$> directories in
    let* found := doesAnyFileExist urls in
    ret (set "has_codeowners" (VBool found) repo_).

Definition getCodeowners : collector :=
  collect "Getting code owners" getCodeowners_body.

Definition getChangelog_body (repo_ : RepositoryRecord) : M RepositoryRecord :=
  if hasOwnProperty repo_ "has_changelog" then ret repo_ (* Already calculated *) else
    let locations := ["CHANGELOG.md"] in
    let urls := (fun location => raw repo_ ("/" +:+ location)) <$> locations in
    let* found := doesAnyFileExist urls in
    ret (set "has_changelog" (VBool found) repo_).

Definition getChangelog : collector :=
  collect "Getting Changelog usage" getChangelog_body.

Definition getCodespaces_body (repo_ : RepositoryRecord) : M RepositoryRecord :=
  if hasOwnProperty repo_ "has_codespaces" then ret repo_ (* Already calculated *) else
    let locations := [".devcontainer.json"; ".devcontainer/devcontainer.json"] in
    let urls := (fun location => raw repo_ ("/" +:+ location)) <$> locations in
    let* found := doesAnyFileExist urls in
    ret (set "has_codespaces" (VBool found) repo_).

Definition getCodespaces : collector :=
  collect "Getting Codespaces usage" getCodespaces_body.

Definition getDiscussions_body (repo_ : RepositoryRecord) : M RepositoryRecord :=
  if hasOwnProperty repo_ "has_discussions" then ret repo_ (* Already calculated *) else
    let url :=
      "https://github.com/" +:+ tmpl (owner repo_) +:+ "/" +:+ tmpl (repo repo_)
        +:+ "/discussions" in
    let* found := doesAnyFileExist [url] in
    ret (set "has_discussions" (VBool found) repo_).

Definition getDiscussions : collector :=
  collect "Getting Discussions usage" getDiscussions_body.

Definition getDependabot_body (repo_ : RepositoryRecord) : M RepositoryRecord :=
  if hasOwnProperty repo_ "uses_dependabot" then ret repo_ (* Already calculated *) else
    let locations := [".dependabot/config.yml"; ".github/dependabot.yml"] in
    let urls := (fun location => raw repo_ ("/" +:+ location)) <$> locations in
    let* found := doesAnyFileExist urls in
    ret (set "uses_dependabot" (VBool found) repo_).

Definition getDependabot : collector :=
  collect "Getting Dependabot usage" getDependabot_body.

(** The collectors of [getDetails], in the order they are awaited. *)
Definition getDetails_sequence : list collector :=
  [ getWorkflows; getCommunityProfileMetrics; getReadmeLengths; getLanguages;
    getSupportFiles; getEnvironments; getFundingFiles; getDeployments;
    getReleases; getIssueLabelsCount; getMilestones; getSecurityFiles;
    getCodeowners; getChangelog; getCodespaces; getDiscussions; getDependabot ].

Definition getDetails : collector := in_sequence getDetails_sequence.

(** Every collector of the script, with the key its loop tests first. *)
Definition collectors : list (string * collector) :=
  [ ("contributor_count", getContributorCounts);
    ("readme_size", getReadmeLengths);
    ("has_code_of_conduct", getCommunityProfileMetrics);
    ("languages", getLanguages);
    ("has_deployments", getDeployments);
    ("environments", getEnvironments);
    ("has_releases", getReleases);
    ("workflows_count", getWorkflows);
    ("labels_count", getIssueLabelsCount);
    ("milestones_count", getMilestones);
    ("has_security_file", getSecurityFiles);
    ("has_support_file", getSupportFiles);
    ("has_funding_file", getFundingFiles);
    ("has_codeowners", getCodeowners);
    ("has_changelog", getChangelog);
    ("has_codespaces", getCodespaces);
    ("has_discussions", getDiscussions);
    ("uses_dependabot", getDependabot) ].

End Collectors.

(** ** Dataset emitter and checkpoint *)

Definition coerceBooleanToYN (boolean : value) : value :=
  match boolean with
  | VBool true => VString "y"
  | VBool false => VString "n"
  | _ => VNull
  end.

(** [v?.length] *)
Definition optional_length (v : value) : value :=
  match v with
  | VUndefined | VNull => VUndefined
  | _ => length_of v
  end.

(** [Object.keys(v).length]; it throws on undefined and null. *)
Definition keys_count (v : value) : option Z :=
  match v with
  | VUndefined | VNull => None
  | VObject fields => Some (Z.of_nat (size fields))
  | VArray items => Some (Z.of_nat (length items))
  | VString s => Some (Z.of_nat (String.length s))
  | VBool _ | VNumber _ => Some 0
  end.

(** The property names every object inherits from [Object.prototype]: a
    property read finds them, as functions (or, for [__proto__], as the
    prototype itself), unless the object has a property of its own by that
    name. *)
Definition object_prototype : list string :=
  [ "constructor"; "__defineGetter__"; "__defineSetter__"; "hasOwnProperty";
    "__lookupGetter__"; "__lookupSetter__"; "isPrototypeOf";
    "propertyIsEnumerable"; "toString"; "valueOf"; "__proto__";
    "toLocaleString" ].

(** What a property read on the languages finds. *)
Inductive property_read :=
| OwnBytes (bytes : Z)     (* an entry of the object *)
| Inherited                (* a member of [Object.prototype]: truthy, not a number *)
| NotFound.                (* undefined *)

(** The property key a primary language is read with: the API gives a string
    or null, and a missing one is undefined. *)
Definition property_key (primary_language : value) : option string :=
  match primary_language with
  | VString name => Some name
  | VNull => Some "null"
  | VUndefined => Some "undefined"
  | _ => None
  end.

(** [languages[primary_language]], for languages that are an object, as the
    API gives them and the checkpoint keeps them. *)
Definition language_bytes (languages primary_language : value) : property_read :=
  match languages, property_key primary_language with
  | VObject fields, Some name =>
      match fields !! name with
      | Some bytes => OwnBytes bytes
      | None =>
          if bool_decide (name ∈ object_prototype) then Inherited else NotFound
      end
  | _, _ => NotFound
  end.

Definition total_bytes (languages : value) : Z :=
  match languages with
  | VObject fields => map_fold (fun _ b a => a + b) 0 fields
  | _ => 0
  end.

(** The row of one record in [data], or [None] where building it throws. *)
Definition arff_data_row (repo_ : RepositoryRecord) : option (list (string * cell)) :=
  let yn key := (key, Cell (coerceBooleanToYN (get repo_ key))) in
  let plain key := (key, Cell (get repo_ key)) in
  match keys_count (get repo_ "languages") with
  | None => None
  | Some languages_count =>
      Some
        ([ ("seconds_since_created", SecondsSince (get repo_ "created_at"));
           ("seconds_since_updated", SecondsSince (get repo_ "updated_at"));
           ("seconds_since_pushed", SecondsSince (get repo_ "pushed_at"));
           plain "size"; plain "stargazers_count"; plain "watchers_count";
           plain "primary_language";
           yn "has_issues"; yn "has_projects"; yn "has_downloads"; yn "has_wiki";
           yn "has_pages";
           plain "forks_count"; plain "open_issues_count"; plain "license";
           ("topics_count", Cell (optional_length (get repo_ "topics")));
           plain "workflows_count"; plain "readme_size";
           yn "has_code_of_conduct"; yn "has_contributing"; yn "has_support_file";
           yn "has_funding_file"; yn "has_security_file"; yn "has_codeowners";
           yn "has_changelog"; yn "has_codespaces"; yn "has_discussions";
           yn "uses_dependabot"; yn "has_issue_template";
           yn "has_pull_request_template";
           ("languages_count", Cell (VNumber (Num languages_count))) ]
         ++ match language_bytes (get repo_ "languages") (get repo_ "primary_language") with
            | OwnBytes bytes =>
                if bytes =? 0 then []
                else [ ("primary_language_ratio",
                        Ratio bytes (total_bytes (get repo_ "languages"))) ]
            | Inherited =>
                (* truthy; a function divided by a number is NaN *)
                [ ("primary_language_ratio", Cell (VNumber NaN)) ]
            | NotFound => []
            end
         ++ [ yn "has_deployments";
              ("environments_count", Cell (optional_length (get repo_ "environments")));
              yn "has_releases"; plain "labels_count"; plain "milestones_count";
              ("default_branch",
               Cell (if bool_decide (default_branch repo_ = Some "master")
                        || bool_decide (default_branch repo_ = Some "main")
                     then VString (tmpl (default_branch repo_))
                     else VString "other"));
              plain "contributor_count" ])
  end.

Fixpoint arff_data (listOfRepos : list RepositoryRecord)
  : option (list (list (string * cell))) :=
  match listOfRepos with
  | [] => Some []
  | repo_ :: rest =>
      match arff_data_row repo_, arff_data rest with
      | Some row, Some rows => Some (row :: rows)
      | _, _ => None
      end
  end.

Definition writeToArffFile (listOfRepos : list RepositoryRecord) (filename : string)
  : M unit :=
  match arff_data listOfRepos with
  | Some rows => write_file filename (ArffFile rows)
  | None => throw TypeError
  end.

Definition writeRawDataToJsonFile (listOfRepos : list RepositoryRecord)
           (filename : string) : M unit :=
  write_file filename (JsonFile (to_json listOfRepos)).

(** [shutdown]: save the records if there are any, then leave the process. *)
Definition shutdown : M unit :=
  fun w =>
    match repos_var w with
    | Some repos =>
        (Exited, store "repos.json" (JsonFile (to_json repos)) w,
         [Wrote "repos.json" (JsonFile (to_json repos))])
    | None => (Exited, w, [])
    end.

(** ** Batch orchestrator *)

(** The [try { JSON.parse(readFile('repos.json')) } catch { }] at the start of
    a batch: no readable checkpoint leaves the saved list empty. *)
Definition load_saved : M (list RepositoryRecord) :=
  fun w =>
    match files w !! "repos.json" with
    | Some (JsonFile savedRepos) => (Returned savedRepos, w, [])
    | _ => (Returned [], w, [])
    end.

(** Truthiness of an argument that is a string or was not passed. *)
Definition given (arg : option string) : bool :=
  match arg with
  | Some s => truthy (VString s)
  | None => false
  end.

(** [repos = v] *)
Definition set_repos (v : list RepositoryRecord) : M unit :=
  fun w => (Returned tt, assign_repos (Some v) w, []).

(** A use of the variable [repos] where null would throw. *)
Definition with_repos {A} (k : list RepositoryRecord → M A) : M A :=
  fun w =>
    match repos_var w with
    | Some repos => k repos w
    | None => (Thrown TypeError, w, [])
    end.

(** A collector applied to the records the variable [repos] refers to; the
    records are shared, so what the collector did to them is visible through
    [repos] whatever its outcome. *)
Definition on_repos (c : collector) : M unit :=
  with_repos (fun repos w =>
    let '(repos', o, w', evs) := c repos w in (o, assign_repos (Some repos') w', evs)).

(** [repos = repos.filter(repo => repo.contributor_count)] *)
Definition drop_invalid : M unit :=
  with_repos (fun repos =>
    set_repos (List.filter (fun repo_ => truthy (get repo_ "contributor_count")) repos)).

Section Orchestrator.

Variable net : network.

(** The [try] block of [doBatch]. *)
Definition collect_and_emit : M unit :=
  let* _ := on_repos (getContributorCounts net) in
  let* _ := drop_invalid in
  let* _ := on_repos (getDetails net) in
  let* _ := with_repos (fun repos => writeToArffFile repos "github.arff") in
  with_repos (fun repos =>
    if 10000 <? Z.of_nat (length repos) then shutdown else ret tt).

(** The [finally] block of [doBatch]. *)
Definition save_checkpoint : M unit :=
  fun w =>
    match repos_var w with
    | Some repos => writeRawDataToJsonFile repos "repos.json" w
    | None => (Returned tt, w, [])
    end.

Definition doBatch (query sort : option string) : M unit :=
  let* savedRepos := load_saved in
  let* newRepos :=
    (if given query && given sort
     then getListOfRepos net "stars:>10" "updated"
     else ret []) in
  let* _ := set_repos (removeDuplicateRepos (savedRepos ++ newRepos)) in
  try_finally collect_and_emit save_checkpoint.

End Orchestrator.

(** ** Throttling hooks of the API client *)

Module Throttle.

Inductive log_line :=
| WarnQuotaExhausted
| LogRetrying
| WarnAbuseDetected.

(** What a hook does: the lines it logs, the time it sleeps itself, and
    whether it returns a truthy value (asking for a retry). *)
Record hook := mkHook {
  logged : list log_line;
  slept_ms : Z;
  wantRetry : bool
}.

(** [retryCount] is [options.request.retryCount]. *)
Definition onRateLimit (retryAfter retryCount : Z) : hook :=
  let slept := if retryAfter <? 10 then 1000 else 0 in
  if retryCount <=? 2
  then mkHook [WarnQuotaExhausted; LogRetrying] slept true
  else mkHook [WarnQuotaExhausted] slept false.

Definition onAbuseLimit (retryAfter retryCount : Z) : hook :=
  mkHook [WarnAbuseDetected] 0 false.

(** How the server answers one attempt. *)
Inductive signal (A : Type) :=
| Answer (a : A)
| RateLimit (retryAfter : Z)
| AbuseLimit (retryAfter : Z).
Arguments Answer {A} a.
Arguments RateLimit {A} retryAfter.
Arguments AbuseLimit {A} retryAfter.

Record run (A : Type) := mkRun {
  result : option A;       (* [None]: the error surfaced *)
  attempts : nat;          (* requests sent *)
  delays_ms : list Z;      (* the wait before each retry, oldest first *)
  log : list log_line
}.
Arguments mkRun {A} result attempts delays_ms log.
Arguments result {A} r.
Arguments attempts {A} r.
Arguments delays_ms {A} r.
Arguments log {A} r.

(** The retry protocol of the throttling plugin that calls the hooks: a
    request starts with a retry count of 0; when an attempt is limited the
    matching hook is called with the wait the server indicated and the
    current count; on a truthy return the count is incremented and the
    request is sent again after that wait, otherwise the error surfaces.
    [server k] answers the attempt made after [k] retries. *)
Fixpoint send {A} (fuel : nat) (server : nat → signal A) (retryCount : nat)
  : option (run A) :=
  match fuel with
  | O => None
  | S fuel' =>
      let limited (h : hook) (retryAfter : Z) :=
        if wantRetry h then
          match send fuel' server (S retryCount) with
          | Some r =>
              Some (mkRun (result r) (S (attempts r))
                          ((slept_ms h + 1000 * retryAfter) :: delays_ms r)
                          (logged h ++ log r))
          | None => None
          end
        else Some (mkRun None 1%nat [] (logged h)) in
      match server retryCount with
      | Answer a => Some (mkRun (Some a) 1%nat [] [])
      | RateLimit retryAfter =>
          limited (onRateLimit retryAfter (Z.of_nat retryCount)) retryAfter
      | AbuseLimit retryAfter =>
          limited (onAbuseLimit retryAfter (Z.of_nat retryCount)) retryAfter
      end
  end.

Definition request {A} (fuel : nat) (server : nat → signal A) : option (run A) :=
  send fuel server 0%nat.

End Throttle.

(** ** The main loop *)

Section Main.

Variable net : network.

(** [cleanUpBatch]: the error is logged and a wait is made (waits are not
    part of the state), then a batch is run without arguments. *)
Definition cleanUpBatch : M unit := doBatch net None None.

(** [p.catch(e => cleanUpBatch(e))] *)
Definition or_cleanUpBatch (p : M unit) : M unit :=
  try_catch p (fun _ => cleanUpBatch).

(** The body of the loop of [main].  [Promise.all] of the batch and the wait
    ends as the batch does; the [catch] block is [cleanUpBatch] followed by
    nine [.catch]. *)
Definition round : M unit :=
  try_catch (doBatch net (Some "stars:>10") (Some "updated"))
            (fun _ => Nat.iter 9 or_cleanUpBatch cleanUpBatch).

(** [for (let i = 0; i < n; i++) { round }] *)
Fixpoint rounds (n : nat) : M unit :=
  match n with
  | O => ret tt
  | S n' => let* _ := round in rounds n'
  end.

Definition main : M unit :=
  let* _ := Nat.iter 9 or_cleanUpBatch (doBatch net None None) in
  rounds 100.

End Main.

(** ** Vocabulary of the properties *)

(** The reason a candidate that was not found rejects with. *)
Definition reason (h : head_outcome) : rejection :=
  match h with
  | HeadStatus s => StatusRejection s
  | HeadFailed => FetchRejection
  end.

(** [frame keys r r']: [r'] is [r] up to the attributes named in [keys]. *)
Definition frame (keys : list string) (r r' : RepositoryRecord) : Prop :=
  owner r' = owner r ∧ repo r' = repo r ∧ default_branch r' = default_branch r
  ∧ ∀ k, k ∉ keys → attrs r' !! k = attrs r !! k.

(** [only_requests w w' evs]: going from [w] to [w'] with the events [evs]
    made requests and did nothing else. *)
Definition only_requests (w w' : world) (evs : list event) : Prop :=
  files w' = files w ∧ repos_var w' = repos_var w
  ∧ ∃ reqs, evs = Requested <$> reqs.

(** [quiet m Q]: [m] only makes requests, does not leave the process, and
    what it returns satisfies [Q]. *)
Definition quiet {A} (m : M A) (Q : A → Prop) : Prop :=
  ∀ w, match m w with
       | (o, w', evs) =>
           only_requests w w' evs
           ∧ match o with
             | Returned a => Q a
             | Thrown _ => True
             | Exited => False
             end
       end.

(** What a well-behaved collector does: it keeps every record up to the
    attributes in [keys], it makes requests and logs the start of collectors
    with the records as they are then, and it does not leave the process. *)
Definition event_ok (keys : list string) (l : list RepositoryRecord) (e : event)
  : Prop :=
  match e with
  | Requested _ => True
  | CollectorStarted _ l0 => Forall2 (frame keys) l l0
  | Wrote _ _ => False
  end.

Definition collector_ok (keys : list string) (c : collector) : Prop :=
  ∀ l w, match c l w with
         | (l', o, w', evs) =>
             Forall2 (frame keys) l l'
             ∧ files w' = files w ∧ repos_var w' = repos_var w
             ∧ o ≠ Exited
             ∧ Forall (event_ok keys l) evs
         end.

(** The attributes [getDetails] may write. *)
Definition detail_keys : list string :=
  [ "workflows_count"; "has_code_of_conduct"; "has_contributing";
    "has_issue_template"; "has_pull_request_template"; "rawReadmeUrl";
    "readme_size"; "languages"; "has_support_file"; "environments";
    "has_funding_file"; "has_deployments"; "has_releases"; "labels_count";
    "milestones_count"; "has_security_file"; "has_codeowners"; "has_changelog";
    "has_codespaces"; "has_discussions"; "uses_dependabot" ].

(** A record that passes [repo => repo.contributor_count]. *)
Definition has_count (r : RepositoryRecord) : Prop :=
  truthy (get r "contributor_count") = true.

(** A row of the dataset whose contributor count is truthy. *)
Definition row_has_count (row : list (string * cell)) : Prop :=
  ∃ v, ("contributor_count", Cell v) ∈ row ∧ truthy v = true.

(** What every event of a batch that got past the filter looks like: lists
    handed to the collectors after the contributor counts, dataset rows and
    checkpoints hold only records that have a count. *)
Definition batch_event_ok (e : event) : Prop :=
  match e with
  | Requested _ => True
  | CollectorStarted message l =>
      message ≠ "Getting contributor counts" → Forall has_count l
  | Wrote _ (ArffFile rows) => Forall row_has_count rows
  | Wrote _ (JsonFile records) => Forall has_count records
  end.

(** Counting events: the discovery requests, and the checkpoints written. *)
Definition is_search (e : event) : bool :=
  match e with
  | Requested (SearchRepositories _ _) => true
  | _ => false
  end.

Definition is_checkpoint (e : event) : bool :=
  match e with
  | Wrote name (JsonFile _) => bool_decide (name = "repos.json")
  | _ => false
  end.

Definition count (p : event → bool) (evs : list event) : nat :=
  length (List.filter p evs).

(** [searchless m]: [m] makes no discovery request. *)
Definition searchless {A} (m : M A) : Prop :=
  ∀ w, count is_search (m w).2 = 0%nat.

(** [searches_within n m]: [m] makes exactly [n] discovery requests when it
    returns, and at most [n] otherwise. *)
Definition searches_within (n : nat) (m : M unit) : Prop :=
  ∀ w, match m w with
       | (Returned _, _, evs) => count is_search evs = n
       | (_, _, evs) => (count is_search evs ≤ n)%nat
       end.

(** [saves a b m]: [m] writes the checkpoint at least [a] times when it
    returns, at least [b] times when it throws, and at least once when it
    leaves the process. *)
Definition saves (a b : nat) (m : M unit) : Prop :=
  ∀ w, match m w with
       | (Returned _, _, evs) => (a ≤ count is_checkpoint evs)%nat
       | (Thrown _, _, evs) => (b ≤ count is_checkpoint evs)%nat
       | (Exited, _, evs) => (1 ≤ count is_checkpoint evs)%nat
       end.

(** The languages of a record are an object; or they are, or are still to
    be collected. *)
Definition languages_collected (r : RepositoryRecord) : Prop :=
  ∃ fields, attrs r !! "languages" = Some (VObject fields).

Definition languages_collectable (r : RepositoryRecord) : Prop :=
  attrs r !! "languages" = None ∨ languages_collected r.

(** The outcomes of the HEAD checks of [urls], the first request being made
    at moment [t]: for each candidate the status of the answer, or of the
    answer to the one retry when the connection failed, or a failure when
    the retry failed too. *)
Fixpoint head_outcomes (net : network) (t : nat) (urls : list string)
  : list head_outcome :=
  match urls with
  | [] => []
  | url_ :: urls' =>
      match net_fetch net t "HEAD" url_ with
      | Some response => HeadStatus (status response) :: head_outcomes net (S t) urls'
      | None =>
          match net_fetch net (S t) "HEAD" url_ with
          | Some response =>
              HeadStatus (status response) :: head_outcomes net (S (S t)) urls'
          | None => HeadFailed :: head_outcomes net (S (S t)) urls'
          end
      end
  end.


(** ** Example inputs *)

(** A page whose only content is the contributor count on the sidebar. *)
Definition page (sidebar : option string) : document :=
  fun selector =>
    match sidebar with
    | Some count =>
        if String.prefix "a[href=" selector then [mkElement count count] else []
    | None => []
    end.

(** A network where the search finds the repositories [o/a] and [o/b]; the
    landing page of [o/a] shows 5 contributors, that of [o/b] an empty count;
    [labels_status] is the status of the labels page of [o/a]; every other
    page is missing; the API calls succeed. *)
Definition example_net (labels_status : Z) : network :=
  mkNetwork
    (fun _ method url_ =>
       if bool_decide (url_ = "https://www.github.com/o/a")
       then Some (mkResponse 200 url_ None (page (Some "5")))
       else if bool_decide (url_ = "https://www.github.com/o/b")
       then Some (mkResponse 200 url_ None (page (Some EmptyString)))
       else if bool_decide (url_ = "https://github.com/o/a/releases/latest")
       then Some (mkResponse 200 "https://github.com/o/a/releases" None (page None))
       else if bool_decide (url_ = "https://github.com/o/a/labels")
       then Some (mkResponse labels_status url_ None (page None))
       else Some (mkResponse 404 url_ None (page None)))
    (fun _ _ _ =>
       ApiOk [ mkApiRepo (Some "o") (Some "a") (Some "main") None ∅;
               mkApiRepo (Some "o") (Some "b") (Some "main") None ∅ ])
    (fun _ _ _ =>
       ApiOk (mkFiles false false true false false
                      (Some "https://github.com/o/a/blob/main/README.md")))
    (fun _ _ _ => ApiOk {[ "JavaScript" := 10 ]})
    (fun _ _ _ => ApiOk 0%nat)
    (fun _ _ _ => ApiFail (mkApiError (Some 500))).

(** A network where every page is answered with status 200 and an empty
    document, the search finds nothing and the other API calls fail. *)
Definition bare_net : network :=
  mkNetwork
    (fun _ _ url_ => Some (mkResponse 200 url_ None (page None)))
    (fun _ _ _ => ApiOk [])
    (fun _ _ _ => ApiFail (mkApiError None))
    (fun _ _ _ => ApiFail (mkApiError None))
    (fun _ _ _ => ApiFail (mkApiError None))
    (fun _ _ _ => ApiFail (mkApiError None)).

(** The state of a cold start: no request made, no file, [repos] null. *)
Definition cold_start : world := mkWorld 0 ∅ None.

Definition example_repo (attributes : gmap string value) : RepositoryRecord :=
  mkRepo (Some "o") (Some "a") (Some "main") attributes.

(** Whether a collector logged its start with [message]. *)
Definition started (message : string) (evs : list event) : bool :=
  existsb (fun e => match e with
                    | CollectorStarted m _ => bool_decide (m = message)
                    | _ => false
                    end) evs.

(** A network where every page is answered with the status [statuses] gives
    for its URL, and the API calls fail. *)
Definition status_net (statuses : string → Z) : network :=
  mkNetwork
    (fun _ _ url_ => Some (mkResponse (statuses url_) url_ None (page None)))
    (fun _ _ _ => ApiFail (mkApiError None))
    (fun _ _ _ => ApiFail (mkApiError None))
    (fun _ _ _ => ApiFail (mkApiError None))
    (fun _ _ _ => ApiFail (mkApiError None))
    (fun _ _ _ => ApiFail (mkApiError None)).

(** The candidates A, B and C answering 404, 200 and 500. *)
Definition abc_statuses (url_ : string) : Z :=
  if bool_decide (url_ = "B") then 200
  else if bool_decide (url_ = "C") then 500
  else 404.

(** A network where the community profile of every repository has no file
    at all, and nothing else can be reached. *)
Definition readmeless_net : network :=
  mkNetwork
    (fun _ _ _ => None)
    (fun _ _ _ => ApiFail (mkApiError None))
    (fun _ _ _ => ApiOk (mkFiles false false false false false None))
    (fun _ _ _ => ApiFail (mkApiError None))
    (fun _ _ _ => ApiFail (mkApiError None))
    (fun _ _ _ => ApiFail (mkApiError None)).

(** A network where nothing can be reached, and a state in which [repos]
    holds a record from an earlier batch while no checkpoint file exists. *)
Definition offline_net : network :=
  mkNetwork
    (fun _ _ _ => None)
    (fun _ _ _ => ApiFail (mkApiError (Some 503)))
    (fun _ _ _ => ApiFail (mkApiError None))
    (fun _ _ _ => ApiFail (mkApiError None))
    (fun _ _ _ => ApiFail (mkApiError None))
    (fun _ _ _ => ApiFail (mkApiError None)).

Definition unsaved : world := mkWorld 0 ∅ (Some [example_repo ∅]).

(** * Part II: properties *)

(** ** Record store *)

Section RecordStore.

Implicit Types (r s : RepositoryRecord) (l saved discovered : list RepositoryRecord).

Lemma same_identity_spec r1 r2 :
  same_identity r1 r2 = true ↔ identity r1 = identity r2.
Proof.
  unfold same_identity, identity.
  rewrite andb_true_iff, !bool_decide_eq_true. split.
  - intros [-> ->]. reflexivity.
  - intros [= -> ->]. done.
Qed.

Lemma same_identity_false r1 r2 :
  same_identity r1 r2 = false ↔ identity r1 ≠ identity r2.
Proof.
  rewrite <- same_identity_spec. destruct (same_identity r1 r2); naive_solver.
Qed.

Lemma same_identity_refl r : same_identity r r = true.
Proof. by apply same_identity_spec. Qed.

Lemma findIndex_from_shift {A} (p : A → bool) (xs : list A) i :
  findIndex_from p xs i = -1 ∨ i ≤ findIndex_from p xs i.
Proof.
  revert i. induction xs as [|x xs IH]; intros i; simpl.
  - by left.
  - destruct (p x); [right; lia|]. destruct (IH (i + 1)) as [->|]; [by left|right; lia].
Qed.

(** Looking for a match that sits right after [pre]: the index found is the
    length of [pre] exactly when nothing in [pre] matches. *)
Lemma findIndex_from_app {A} (p : A → bool) (pre suf : list A) x i :
  p x = true →
  (findIndex_from p (pre ++ x :: suf) i = i + Z.of_nat (length pre)
   ↔ Forall (fun y => p y = false) pre).
Proof.
  intros Hx. revert i. induction pre as [|y pre IH]; intros i; simpl.
  - rewrite Hx. split; [constructor|lia].
  - destruct (p y) eqn:Hy.
    + split; [lia|]. intros HF. apply Forall_cons_1 in HF as [HF _]. congruence.
    + rewrite Forall_cons. specialize (IH (i + 1)).
      split.
      * intros H. split; [done|]. apply IH. lia.
      * intros [_ H]. apply IH in H. lia.
Qed.

(** The set of identities seen so far only matters up to membership. *)
Lemma keep_first_seen_ext l seen1 seen2 :
  (∀ x, x ∈ seen1 ↔ x ∈ seen2) →
  keep_first_per_identity seen1 l = keep_first_per_identity seen2 l.
Proof.
  revert seen1 seen2. induction l as [|a l IHl]; intros seen1 seen2 Heq; [done|].
  simpl. rewrite (bool_decide_ext _ _ (Heq (identity a))).
  destruct (bool_decide (identity a ∈ seen2)); [by apply IHl|].
  f_equal. apply IHl. intros x. rewrite !elem_of_cons. by rewrite Heq.
Qed.

Lemma filter_from_dedup (pre suf : list RepositoryRecord) :
  filter_from
    (fun repo i list => i =? findIndex (fun r => same_identity r repo) list)
    (pre ++ suf) suf (Z.of_nat (length pre))
  = keep_first_per_identity (identity <$> pre) suf.
Proof.
  revert pre. induction suf as [|r suf IH]; intros pre; [done|].
  cbn [filter_from keep_first_per_identity].
  assert (Hnext : filter_from
    (fun repo i list => i =? findIndex (fun r0 => same_identity r0 repo) list)
    (pre ++ r :: suf) suf (Z.of_nat (length pre) + 1)
    = keep_first_per_identity (identity <$> (pre ++ [r])) suf).
  { specialize (IH (pre ++ [r])).
    rewrite <- app_assoc in IH. simpl in IH.
    rewrite length_app in IH. simpl in IH.
    replace (Z.of_nat (length pre) + 1) with (Z.of_nat (length pre + 1)) by lia.
    exact IH. }
  pose proof (findIndex_from_app (fun r0 => same_identity r0 r) pre suf r 0
                (same_identity_refl r)) as Hfi.
  fold (findIndex (fun r0 => same_identity r0 r) (pre ++ r :: suf)) in Hfi.
  destruct (bool_decide (identity r ∈ identity <$> pre)) eqn:Hseen.
  - apply bool_decide_eq_true in Hseen.
    assert ((Z.of_nat (length pre)
             =? findIndex (fun r0 => same_identity r0 r) (pre ++ r :: suf)) = false) as ->.
    { apply Z.eqb_neq. intros Heq.
      assert (Forall (fun y => same_identity y r = false) pre) as HF
        by (apply Hfi; lia).
      apply list_elem_of_fmap in Hseen as (y & Hy & Hin).
      rewrite Forall_forall in HF. specialize (HF y Hin).
      apply same_identity_false in HF. congruence. }
    rewrite Hnext.
    (* the seen set only matters up to membership *)
    apply keep_first_seen_ext. intros x. rewrite fmap_app. simpl.
    rewrite elem_of_app, list_elem_of_singleton. split; [|by left].
    intros [?| ->]; [done|].
    match goal with H : identity r ∈ _ |- _ => exact H end.
  - apply bool_decide_eq_false in Hseen.
    assert ((Z.of_nat (length pre)
             =? findIndex (fun r0 => same_identity r0 r) (pre ++ r :: suf)) = true) as ->.
    { apply Z.eqb_eq. symmetry.
      transitivity (0 + Z.of_nat (length pre)); [|lia]. apply Hfi.
      rewrite Forall_forall. intros y Hin. apply same_identity_false.
      intros Heq. apply Hseen. rewrite <- Heq. by apply list_elem_of_fmap_2. }
    f_equal. rewrite Hnext.
    apply keep_first_seen_ext. intros x. rewrite fmap_app. simpl.
    rewrite elem_of_app, list_elem_of_singleton, elem_of_cons. tauto.
Qed.

Lemma removeDuplicateRepos_keep_first l :
  removeDuplicateRepos l = keep_first_per_identity [] l.
Proof. exact (filter_from_dedup [] l). Qed.

Lemma keep_first_subset seen l r :
  r ∈ keep_first_per_identity seen l → r ∈ l ∧ identity r ∉ seen.
Proof.
  revert seen. induction l as [|a l IH]; intros seen; simpl.
  - by rewrite elem_of_nil.
  - case_bool_decide as Hseen.
    + intros [? ?]%IH. split; [by right|done].
    + rewrite elem_of_cons. intros [->|[? Hn]%IH]; [split; [by left|done]|].
      split; [by right|]. intros ?. apply Hn. by right.
Qed.

Lemma keep_first_NoDup seen l :
  NoDup (identity <$> keep_first_per_identity seen l).
Proof.
  revert seen. induction l as [|a l IH]; intros seen; simpl; [constructor|].
  case_bool_decide; [apply IH|].
  rewrite fmap_cons. constructor; [|apply IH].
  intros (r & Hr & [_ Hn]%keep_first_subset)%list_elem_of_fmap.
  apply Hn. rewrite Hr. by left.
Qed.

Lemma keep_first_covers seen l r :
  r ∈ l → identity r ∉ seen →
  ∃ r', r' ∈ keep_first_per_identity seen l ∧ identity r' = identity r.
Proof.
  revert seen. induction l as [|a l IH]; intros seen; simpl.
  - by rewrite elem_of_nil.
  - rewrite elem_of_cons. intros Hin Hn. case_bool_decide as Hseen.
    + destruct Hin as [->|Hin]; [done|]. by apply IH.
    + destruct (decide (identity r = identity a)) as [Heq|Hne].
      * exists a. split; [by left|done].
      * destruct Hin as [->|Hin]; [done|].
        destruct (IH (identity a :: seen) Hin) as (r' & ? & ?).
        { rewrite not_elem_of_cons. done. }
        exists r'. split; [by right|done].
Qed.

Lemma first_with_identity_keep_first seen l s :
  identity s ∉ seen →
  first_with_identity s (keep_first_per_identity seen l) = first_with_identity s l.
Proof.
  unfold first_with_identity.
  revert seen. induction l as [|a l IH]; intros seen Hn; simpl; [done|].
  case_bool_decide as Hseen.
  - assert (same_identity s a = false) as ->.
    { apply same_identity_false. congruence. }
    by apply IH.
  - simpl. destruct (same_identity s a) eqn:Hsa; [done|].
    apply IH. apply same_identity_false in Hsa. rewrite not_elem_of_cons. done.
Qed.

Lemma first_with_identity_self seen l r :
  r ∈ keep_first_per_identity seen l → first_with_identity r l = Some r.
Proof.
  unfold first_with_identity.
  revert seen. induction l as [|a l IH]; intros seen; simpl.
  - by rewrite elem_of_nil.
  - case_bool_decide as Hseen.
    + intros Hin. pose proof (keep_first_subset _ _ _ Hin) as [_ Hn].
      assert (same_identity r a = false) as ->.
      { apply same_identity_false. congruence. }
      by eapply IH.
    + rewrite elem_of_cons. intros [->|Hin].
      * by rewrite same_identity_refl.
      * pose proof (keep_first_subset _ _ _ Hin) as [_ Hn].
        assert (same_identity r a = false) as ->.
        { apply same_identity_false. intros Heq. apply Hn. rewrite Heq. by left. }
        by eapply IH.
Qed.

Lemma first_with_identity_is_Some l s :
  s ∈ l → is_Some (first_with_identity s l).
Proof.
  unfold first_with_identity. intros Hin.
  destruct (List.find (same_identity s) l) eqn:Hf; [by eexists|].
  apply list_elem_of_In in Hin.
  pose proof (find_none _ _ Hf _ Hin) as Hs. by rewrite same_identity_refl in Hs.
Qed.

Lemma find_app_first {A} (p : A → bool) (l1 l2 : list A) :
  List.find p (l1 ++ l2)
  = match List.find p l1 with
    | Some x => Some x
    | None => List.find p l2
    end.
Proof. induction l1 as [|a l1 IH]; simpl; [done|]. by destruct (p a). Qed.

Lemma keep_first_app seen l1 l2 :
  keep_first_per_identity seen (l1 ++ l2)
  = keep_first_per_identity seen l1
      ++ keep_first_per_identity ((identity <$> l1) ++ seen) l2.
Proof.
  revert seen. induction l1 as [|a l1 IH]; intros seen; simpl; [done|].
  case_bool_decide as Hseen.
  - rewrite IH. f_equal. apply keep_first_seen_ext. intros x.
    rewrite !elem_of_app, !elem_of_cons, elem_of_app. split; [tauto|].
    intros [->|[?|?]]; tauto.
  - simpl. f_equal. rewrite IH. f_equal. apply keep_first_seen_ext. intros x.
    rewrite !elem_of_app, !elem_of_cons, elem_of_app. tauto.
Qed.

(** What the merge of the saved and the discovered records is: the saved
    records deduplicated, then the discovered ones whose identity is new. *)
Lemma removeDuplicateRepos_app saved discovered :
  removeDuplicateRepos (saved ++ discovered)
  = removeDuplicateRepos saved
      ++ keep_first_per_identity (identity <$> saved) discovered.
Proof.
  rewrite !removeDuplicateRepos_keep_first, keep_first_app.
  by rewrite app_nil_r.
Qed.

Lemma keep_first_id seen l :
  NoDup (identity <$> l) → (∀ r, r ∈ l → identity r ∉ seen) →
  keep_first_per_identity seen l = l.
Proof.
  revert seen. induction l as [|a l IH]; intros seen Hnd Hfresh; simpl; [done|].
  rewrite fmap_cons in Hnd. apply NoDup_cons in Hnd as [Ha Hnd].
  rewrite bool_decide_eq_false_2 by (apply Hfresh; by left).
  f_equal. apply IH; [done|]. intros r Hr. rewrite not_elem_of_cons. split.
  - intros Heq. apply Ha. rewrite <- Heq. by apply list_elem_of_fmap_2.
  - apply Hfresh. by right.
Qed.

End RecordStore.

(** ** Existence probe *)

Section Probe.

Implicit Types (ps : list settled) (order : list nat) (heads : list head_outcome).

Lemma foldl_any_fulfilled ps order v :
  foldl (any_settle ps) (AnyFulfilled v) order = AnyFulfilled v.
Proof. induction order as [|i order IH]; simpl; auto. Qed.

Lemma foldl_any_rejected ps order errors :
  foldl (any_settle ps) (AnyRejected errors) order = AnyRejected errors.
Proof. induction order as [|i order IH]; simpl; auto. Qed.

(** As long as a fulfilled promise is still to settle, the first one to do
    so decides. *)
Lemma foldl_any_first_success ps order errors remaining :
  (∃ i v, i ∈ order ∧ ps !! i = Some (Fulfilled v)) →
  (∀ i, i ∈ order → is_Some (ps !! i)) →
  (∀ i v, ps !! i = Some (Fulfilled v) → v = true) →
  (length order ≤ remaining)%nat →
  foldl (any_settle ps) (AnyPending errors remaining) order = AnyFulfilled true.
Proof.
  revert errors remaining.
  induction order as [|j order IH]; intros errors remaining Hex Hin Htrue Hlen.
  - destruct Hex as (i & v & Hi & _). by apply elem_of_nil in Hi.
  - simpl. destruct (Hin j) as [p Hp]; [by left|]. rewrite Hp.
    destruct p as [v|e].
    + rewrite (Htrue _ _ Hp). apply foldl_any_fulfilled.
    + assert (Hex' : ∃ i v, i ∈ order ∧ ps !! i = Some (Fulfilled v)).
      { destruct Hex as (i & v & Hi & Hv). exists i, v. split; [|done].
        apply elem_of_cons in Hi as [->|Hi]; [congruence|done]. }
      assert (order ≠ []) as Hne.
      { destruct Hex' as (i & v & Hi & _). intros ->. by apply elem_of_nil in Hi. }
      simpl in Hlen. destruct order as [|k order']; [done|]. simpl in Hlen.
      destruct remaining as [|[|remaining']]; [lia|lia|].
      cbn [Nat.pred]. apply IH; try done.
      * intros i Hi. apply Hin. by right.
      * simpl. lia.
Qed.

(** When every promise rejects, the last rejection to arrive hands over the
    reasons in input order. *)
Lemma foldl_any_all_rejected (es : list rejection) order errors :
  order ≠ [] →
  NoDup order →
  length errors = length es →
  (∀ i, i ∈ order ↔ errors !! i = Some None) →
  (∀ i e, errors !! i = Some (Some e) → es !! i = Some e) →
  foldl (any_settle (Rejected <$> es)) (AnyPending errors (length order)) order
  = AnyRejected es.
Proof.
  revert errors.
  induction order as [|j order IH]; intros errors Hne Hnd Hlen Hpending Hdone; [done|].
  apply NoDup_cons in Hnd as [Hj Hnd].
  assert (errors !! j = Some None) as Hjn by (apply Hpending; by left).
  assert (j < length es)%nat as Hjlt.
  { rewrite <- Hlen. by eapply lookup_lt_Some. }
  destruct (lookup_lt_is_Some_2 es j Hjlt) as [e He].
  simpl. rewrite list_lookup_fmap, He. simpl.
  assert (Hdone' : ∀ i e', <[j:=Some e]> errors !! i = Some (Some e') → es !! i = Some e').
  { intros i e'. destruct (decide (i = j)) as [->|Hij].
    - rewrite list_lookup_insert_eq by (by rewrite Hlen). congruence.
    - rewrite list_lookup_insert_ne by done. apply Hdone. }
  assert (Hpending' : ∀ i, i ∈ order ↔ <[j:=Some e]> errors !! i = Some None).
  { intros i. destruct (decide (i = j)) as [->|Hij].
    - rewrite list_lookup_insert_eq by (by rewrite Hlen). split; [done|congruence].
    - rewrite list_lookup_insert_ne by done. rewrite <- Hpending.
      rewrite elem_of_cons. split; [by right|by intros [?|?]]. }
  destruct order as [|k order'].
  - simpl. f_equal.
    assert (<[j:=Some e]> errors = Some <$> es) as ->.
    { apply list_eq. intros i. rewrite list_lookup_fmap.
      destruct (decide (i < length es)%nat) as [Hi|Hi].
      - destruct (lookup_lt_is_Some_2 (<[j:=Some e]> errors) i) as [[e'|] Hx].
        + by rewrite length_insert, Hlen.
        + rewrite Hx. by rewrite (Hdone' _ _ Hx).
        + apply Hpending' in Hx. by apply elem_of_nil in Hx.
      - rewrite !lookup_ge_None_2; [done|lia|rewrite length_insert; lia]. }
    clear. induction es as [|a es IHes]; [done|]. simpl. f_equal. exact IHes.
  - cbn [length Nat.pred]. apply IH; try done.
    by rewrite length_insert.
Qed.

Lemma replicate_lookup_None {A} (n i : nat) :
  replicate n (@None A) !! i = Some None ↔ (i < n)%nat.
Proof. rewrite lookup_replicate. tauto. Qed.

Lemma order_complete order n :
  order ≡ₚ seq 0 n →
  NoDup order ∧ length order = n ∧ (∀ i, i ∈ order ↔ (i < n)%nat).
Proof.
  intros Hp. split; [|split].
  - rewrite Hp. apply NoDup_seq.
  - by rewrite Hp, length_seq.
  - intros i. rewrite Hp, elem_of_seq. lia.
Qed.

Lemma promise_any_nonempty ps order :
  ps ≠ [] →
  promise_any ps order
  = foldl (any_settle ps) (AnyPending (replicate (length ps) None) (length ps)) order.
Proof. by destruct ps. Qed.

(** [Promise.any] whatever the order of completion. *)
Lemma promise_any_all_rejected (es : list rejection) order :
  order ≡ₚ seq 0 (length es) →
  promise_any (Rejected <$> es) order = AnyRejected es.
Proof.
  intros (Hnd & Hlen & Hin)%order_complete.
  destruct (decide (es = [])) as [->|Hne]; [done|].
  rewrite promise_any_nonempty by (by destruct es).
  rewrite length_fmap. rewrite <- Hlen at 2.
  apply foldl_any_all_rejected; try done.
  - intros ->. by destruct es.
  - by rewrite length_replicate.
  - intros i. rewrite Hin. symmetry. apply replicate_lookup_None.
  - intros i e' Hx. apply lookup_replicate in Hx as [? _]. done.
Qed.

Lemma promise_any_success ps order :
  order ≡ₚ seq 0 (length ps) →
  (∃ i v, ps !! i = Some (Fulfilled v)) →
  (∀ i v, ps !! i = Some (Fulfilled v) → v = true) →
  promise_any ps order = AnyFulfilled true.
Proof.
  intros (Hnd & Hlen & Hin)%order_complete (i & v & Hi) Htrue. unfold promise_any.
  destruct ps as [|p ps']; [done|].
  apply foldl_any_first_success; try done.
  - exists i, v. split; [|done]. apply Hin. by eapply lookup_lt_Some.
  - intros j Hj. apply lookup_lt_is_Some_2. by apply Hin.
  - by rewrite Hlen.
Qed.

Lemma candidates_none_found heads :
  HeadStatus 200 ∉ heads → candidate <$> heads = Rejected <$> (reason <$> heads).
Proof.
  induction heads as [|h heads IH]; [done|].
  rewrite not_elem_of_cons. intros [Hh Hrest]. rewrite !fmap_cons, IH by done.
  f_equal. destruct h as [s|]; [|done]. simpl.
  destruct (Z.eqb_spec s 200) as [->|]; done.
Qed.

Lemma candidates_found heads :
  HeadStatus 200 ∈ heads → ∃ i v, (candidate <$> heads) !! i = Some (Fulfilled v).
Proof.
  intros (i & Hi)%list_elem_of_lookup. exists i, true.
  by rewrite list_lookup_fmap, Hi.
Qed.

Lemma candidates_fulfilled_true heads i v :
  (candidate <$> heads) !! i = Some (Fulfilled v) → v = true.
Proof.
  rewrite list_lookup_fmap. destruct (heads !! i) as [[s|]|]; simpl; try done.
  destruct (s =? 200); congruence.
Qed.

Lemma every_is_404 heads :
  every is_404 (reason <$> heads) = true ↔ Forall (fun h => h = HeadStatus 404) heads.
Proof.
  unfold every. rewrite forallb_forall, Forall_forall. split.
  - intros H h Hh.
    assert (is_404 (reason h) = true) as Hr.
    { apply H, list_elem_of_In. by apply list_elem_of_fmap_2. }
    destruct h as [s|]; simpl in Hr; [|done].
    f_equal. by apply Z.eqb_eq.
  - intros H e (h & -> & Hh)%list_elem_of_In%list_elem_of_fmap.
    by rewrite (H h Hh).
Qed.

Lemma probe_found heads order :
  order ≡ₚ seq 0 (length heads) →
  HeadStatus 200 ∈ heads →
  doesAnyFileExist_settled heads order = ProbeResolved true.
Proof.
  intros Hp Hin. unfold doesAnyFileExist_settled.
  rewrite promise_any_success; [done| |by apply candidates_found|].
  - by rewrite length_fmap.
  - apply candidates_fulfilled_true.
Qed.

Lemma probe_none_found heads order :
  order ≡ₚ seq 0 (length heads) →
  HeadStatus 200 ∉ heads →
  doesAnyFileExist_settled heads order = on_aggregate_error (reason <$> heads).
Proof.
  intros Hp Hin. unfold doesAnyFileExist_settled.
  rewrite candidates_none_found by done.
  rewrite promise_any_all_rejected; [done|]. by rewrite length_fmap.
Qed.

End Probe.

Lemma promise_any_in_order_spec heads acc :
  promise_any_in_order (candidate <$> heads) acc
  = if decide (HeadStatus 200 ∈ heads) then inl true
    else inr (rev acc ++ (reason <$> heads)).
Proof.
  revert acc. induction heads as [|h heads IH]; intros acc.
  - destruct (decide (HeadStatus 200 ∈ [])) as [Hin%elem_of_nil|_]; [done|].
    simpl. by rewrite app_nil_r.
  - rewrite fmap_cons.
    assert (h ≠ HeadStatus 200 →
            promise_any_in_order (Rejected (reason h) :: (candidate <$> heads)) acc
            = if decide (HeadStatus 200 ∈ h :: heads) then inl true
              else inr (rev acc ++ (reason <$> h :: heads))) as Hrejected.
    { intros Hh. cbn [promise_any_in_order]. rewrite IH.
      destruct (decide (HeadStatus 200 ∈ heads)) as [Hin|Hin];
        destruct (decide (HeadStatus 200 ∈ h :: heads)) as [Hin'|Hin']; try done.
      - destruct Hin'. by apply list_elem_of_further.
      - apply elem_of_cons in Hin' as [Heq|Hin']; [congruence|done].
      - rewrite fmap_cons. cbn [rev]. by rewrite <- app_assoc. }
    destruct h as [s|]; [|by apply Hrejected].
    cbn [candidate]. destruct (Z.eqb_spec s 200) as [->|Hs].
    + destruct (decide (HeadStatus 200 ∈ HeadStatus 200 :: heads)) as [_|Hn]; [done|].
      destruct Hn. apply list_elem_of_here.
    + apply Hrejected. congruence.
Qed.

(** ** Reasoning about computations *)

Lemma hasOwnProperty_None (r : RepositoryRecord) k :
  attrs r !! k = None → hasOwnProperty r k = false.
Proof.
  intros H. unfold hasOwnProperty. rewrite H. apply bool_decide_eq_false.
  by intros [? ?].
Qed.

Lemma hasOwnProperty_Some (r : RepositoryRecord) k :
  is_Some (attrs r !! k) → hasOwnProperty r k = true.
Proof. intros H. by apply bool_decide_eq_true. Qed.

Section Frames.

Implicit Types (r : RepositoryRecord) (keys : list string).

Lemma frame_refl keys r : frame keys r r.
Proof. by repeat split. Qed.

Lemma frame_trans keys r1 r2 r3 :
  frame keys r1 r2 → frame keys r2 r3 → frame keys r1 r3.
Proof.
  intros (? & ? & ? & H12) (? & ? & ? & H23). repeat split; try congruence.
  intros k Hk. by rewrite H23, H12.
Qed.

Lemma frame_set keys r r' k v :
  k ∈ keys → frame keys r r' → frame keys r (set k v r').
Proof.
  intros Hk (? & ? & ? & Hat). repeat split; try done.
  intros k' Hk'. simpl. rewrite lookup_insert_ne; [by apply Hat|].
  intros ->. done.
Qed.

Lemma frame_mono keys keys' r r' :
  (∀ k, k ∈ keys → k ∈ keys') → frame keys r r' → frame keys' r r'.
Proof.
  intros Hsub (? & ? & ? & Hat). repeat split; try done.
  intros k Hk. apply Hat. intros ?. apply Hk. by apply Hsub.
Qed.

Lemma frame_get keys r r' k :
  k ∉ keys → frame keys r r' → get r' k = get r k.
Proof. intros Hk (_ & _ & _ & Hat). unfold get. by rewrite Hat. Qed.

Lemma frame_identity keys r r' : frame keys r r' → identity r' = identity r.
Proof. intros (Ho & Hr & _). unfold identity. by rewrite Ho, Hr. Qed.

Lemma frames_refl keys (l : list RepositoryRecord) : Forall2 (frame keys) l l.
Proof. induction l; constructor; auto using frame_refl. Qed.

Lemma frames_trans keys (l1 l2 l3 : list RepositoryRecord) :
  Forall2 (frame keys) l1 l2 → Forall2 (frame keys) l2 l3 →
  Forall2 (frame keys) l1 l3.
Proof.
  intros H12. revert l3. induction H12; intros l3 H23; inversion H23; subst;
    constructor; eauto using frame_trans.
Qed.

End Frames.

Lemma only_requests_nil w : only_requests w w [].
Proof. repeat split. by exists []. Qed.

Lemma only_requests_tick w r : only_requests w (tick w) [Requested r].
Proof. repeat split. by exists [r]. Qed.

Lemma only_requests_app w1 w2 w3 evs evs' :
  only_requests w1 w2 evs → only_requests w2 w3 evs' →
  only_requests w1 w3 (evs ++ evs').
Proof.
  intros (? & ? & reqs & ->) (? & ? & reqs' & ->). repeat split; try congruence.
  exists (reqs ++ reqs'). by rewrite fmap_app.
Qed.

Section Quiet.

Context {A B : Type}.

Lemma quiet_ret (a : A) (Q : A → Prop) : Q a → quiet (ret a) Q.
Proof. intros Ha w. simpl. split; [apply only_requests_nil|done]. Qed.

Lemma quiet_throw (e : error) (Q : A → Prop) : quiet (throw e) Q.
Proof. intros w. simpl. split; [apply only_requests_nil|done]. Qed.

Lemma quiet_bind (m : M A) (k : A → M B) (P : A → Prop) (Q : B → Prop) :
  quiet m P → (∀ a, P a → quiet (k a) Q) → quiet (bind m k) Q.
Proof.
  intros Hm Hk w. unfold bind. specialize (Hm w).
  destruct (m w) as [[[a|e|] w1] evs]; destruct Hm as [Hreq Hpost]; try done.
  specialize (Hk a Hpost w1). destruct (k a w1) as [[o w2] evs'].
  destruct Hk as [Hreq' Hpost']. split; [by eapply only_requests_app|done].
Qed.

Lemma quiet_try_catch (m : M A) (h : error → M A) (Q : A → Prop) :
  quiet m Q → (∀ e, quiet (h e) Q) → quiet (try_catch m h) Q.
Proof.
  intros Hm Hh w. unfold try_catch. specialize (Hm w).
  destruct (m w) as [[[a|e|] w1] evs]; destruct Hm as [Hreq Hpost]; try done.
  specialize (Hh e w1). destruct (h e w1) as [[o w2] evs'].
  destruct Hh as [Hreq' Hpost']. split; [by eapply only_requests_app|done].
Qed.


End Quiet.

Section QuietCalls.

Variable net : network.

Lemma quiet_fetch url_ method :
  quiet (fetch net url_ method) (fun _ => True).
Proof. intros w. simpl. split; [apply only_requests_tick|done]. Qed.

Lemma quiet_fetchWithRetryAndLogging url_ method :
  quiet (fetchWithRetryAndLogging net url_ method) (fun _ => True).
Proof.
  unfold fetchWithRetryAndLogging.
  eapply quiet_bind; [apply quiet_fetch|]. intros [response|] _.
  - by apply quiet_ret.
  - eapply quiet_bind; [apply quiet_fetch|]. intros [response|] _.
    + by apply quiet_ret.
    + apply quiet_throw.
Qed.

Lemma quiet_octokit {A} req (answer : nat → api_result A) :
  quiet (octokit req answer) (fun _ => True).
Proof.
  intros w. unfold octokit. destruct (answer (clock w));
    (split; [apply only_requests_tick|done]).
Qed.

Lemma quiet_head_check url_ : quiet (head_check net url_) (fun _ => True).
Proof.
  intros w. unfold head_check.
  pose proof (quiet_fetchWithRetryAndLogging url_ "HEAD" w) as H.
  destruct (fetchWithRetryAndLogging net url_ "HEAD" w) as [[[a|e|] w1] evs];
    destruct H as [Hreq Hpost]; done.
Qed.

Lemma quiet_head_checks urls : quiet (head_checks net urls) (fun _ => True).
Proof.
  induction urls as [|u urls IH]; simpl.
  - by apply quiet_ret.
  - eapply quiet_bind; [apply quiet_head_check|]. intros h _.
    eapply quiet_bind; [apply IH|]. intros hs _. by apply quiet_ret.
Qed.

Lemma quiet_doesAnyFileExist urls :
  quiet (doesAnyFileExist net urls) (fun _ => True).
Proof.
  unfold doesAnyFileExist.
  eapply quiet_bind; [apply quiet_head_checks|]. intros heads _.
  destruct (promise_any_in_order _ _) as [found|errors].
  - by apply quiet_ret.
  - destruct (every is_404 errors); [by apply quiet_ret|apply quiet_throw].
Qed.

End QuietCalls.

(** ** Loops over the records *)

Section Loops.

Implicit Types (body : RepositoryRecord → M RepositoryRecord)
         (l pre post : list RepositoryRecord).

Lemma for_of_length body l w :
  length (for_of body l w).1.1.1 = length l.
Proof.
  revert w. induction l as [|r l IH]; intros w; simpl; [done|].
  destruct (body r w) as [[[r'|e|] w1] evs]; simpl; try done.
  specialize (IH w1). destruct (for_of body l w1) as [[[l' o] w2] evs']. simpl in *.
  by rewrite IH.
Qed.

Lemma for_of_app body l1 l2 w :
  for_of body (l1 ++ l2) w
  = match for_of body l1 w with
    | (l1', Returned _, w1, evs1) =>
        let '(l2', o, w2, evs2) := for_of body l2 w1 in
        (l1' ++ l2', o, w2, evs1 ++ evs2)
    | (l1', o, w1, evs1) => (l1' ++ l2, o, w1, evs1)
    end.
Proof.
  revert w. induction l1 as [|r l1 IH]; intros w; simpl.
  - by destruct (for_of body l2 w) as [[[l2' o] w2] evs2].
  - destruct (body r w) as [[[r'|e|] w1] evs]; try done.
    rewrite IH. destruct (for_of body l1 w1) as [[[l1' [[]|e|]] w2] evs1]; try done.
    destruct (for_of body l2 w2) as [[[l2' o] w3] evs2]. by rewrite app_assoc.
Qed.

(** A record on which the body does nothing can be left out of the list
    without changing anything else. *)
Lemma for_of_skip body pre r post w :
  (∀ w, body r w = (Returned r, w, [])) →
  for_of body (pre ++ r :: post) w
  = let '(out, o, w', evs) := for_of body (pre ++ post) w in
    (take (length pre) out ++ r :: drop (length pre) out, o, w', evs).
Proof.
  intros Hskip. rewrite !for_of_app.
  pose proof (for_of_length body pre w) as Hlen.
  destruct (for_of body pre w) as [[[pre' o1] w1] evs1]. simpl in Hlen.
  destruct o1 as [[]|e|].
  - simpl. rewrite Hskip.
    destruct (for_of body post w1) as [[[post' o2] w2] evs2]. simpl.
    by rewrite <- Hlen, take_app_length, drop_app_length.
  - by rewrite <- Hlen, take_app_length, drop_app_length.
  - by rewrite <- Hlen, take_app_length, drop_app_length.
Qed.


Lemma for_of_quiet body keys l w :
  (∀ r, quiet (body r) (frame keys r)) →
  match for_of body l w with
  | (l', o, w', evs) =>
      Forall2 (frame keys) l l' ∧ only_requests w w' evs ∧ o ≠ Exited
  end.
Proof.
  intros Hbody. revert w. induction l as [|r l IH]; intros w; simpl.
  - repeat split; [constructor|by exists []|done].
  - specialize (Hbody r w).
    destruct (body r w) as [[[r'|e|] w1] evs]; destruct Hbody as [Hreq Hpost];
      try done.
    + specialize (IH w1). destruct (for_of body l w1) as [[[l' o] w2] evs'].
      destruct IH as (Hfr & Hreq' & Ho). split; [by constructor|].
      split; [by eapply only_requests_app|done].
    + split; [apply frames_refl|]. done.
Qed.

End Loops.

Lemma collect_ok keys message body :
  (∀ r, quiet (body r) (frame keys r)) → collector_ok keys (collect message body).
Proof.
  intros Hbody l w. unfold collect.
  pose proof (for_of_quiet body keys l w Hbody) as H.
  destruct (for_of body l w) as [[[l' o] w'] evs].
  destruct H as (Hfr & (Hf & Hr & reqs & ->) & Ho). repeat split; try done.
  constructor; [apply frames_refl|].
  apply Forall_fmap, Forall_forall. by intros.
Qed.

Lemma event_ok_frames keys l l' e :
  Forall2 (frame keys) l l' → event_ok keys l' e → event_ok keys l e.
Proof. destruct e; simpl; eauto using frames_trans. Qed.

Lemma in_sequence_ok keys cs :
  Forall (collector_ok keys) cs → collector_ok keys (in_sequence cs).
Proof.
  induction 1 as [|c cs Hc Hcs IH]; intros l w; simpl.
  - repeat split; [apply frames_refl|done|constructor].
  - specialize (Hc l w). destruct (c l w) as [[[l1 o1] w1] evs1].
    destruct Hc as (Hfr & Hf & Hr & Ho & Hev).
    destruct o1 as [[]|e|]; [|done|done].
    specialize (IH l1 w1). destruct (in_sequence cs l1 w1) as [[[l2 o2] w2] evs2].
    destruct IH as (Hfr' & Hf' & Hr' & Ho' & Hev').
    repeat split; try congruence; [by eapply frames_trans|].
    apply Forall_app. split; [done|].
    eapply Forall_impl; [exact Hev'|]. intros e. by apply event_ok_frames.
Qed.

Lemma collector_ok_mono keys keys' c :
  (∀ k, k ∈ keys → k ∈ keys') → collector_ok keys c → collector_ok keys' c.
Proof.
  intros Hsub Hc l w. specialize (Hc l w). destruct (c l w) as [[[l' o] w'] evs].
  destruct Hc as (Hfr & Hf & Hr & Ho & Hev).
  assert (∀ l1 l2, Forall2 (frame keys) l1 l2 → Forall2 (frame keys') l1 l2) as Hmono.
  { intros l1 l2 H. eapply Forall2_impl; [exact H|]. intros ??. by apply frame_mono. }
  repeat split; auto.
  eapply Forall_impl; [exact Hev|]. intros [| |]; simpl; auto.
Qed.

(** ** What each collector may touch *)

Ltac solve_elem := rewrite !elem_of_cons; tauto.

Ltac quiet_body :=
  repeat
    match goal with
    | |- quiet (ret _) _ => apply quiet_ret
    | |- quiet (throw _) _ => apply quiet_throw
    | |- quiet (bind (fetchWithRetryAndLogging _ _ _) _) _ =>
        eapply quiet_bind; [apply quiet_fetchWithRetryAndLogging|intros ? _]
    | |- quiet (bind (octokit _ _) _) _ =>
        eapply quiet_bind; [apply quiet_octokit|intros ? _]
    | |- quiet (bind (doesAnyFileExist _ _) _) _ =>
        eapply quiet_bind; [apply quiet_doesAnyFileExist|intros ? _]
    | |- quiet (try_catch _ _) _ => apply quiet_try_catch; [|intros ?]
    | |- quiet (if ?b then _ else _) _ => destruct b
    | |- quiet (match ?x with _ => _ end) _ => destruct x
    | |- frame _ _ (set _ _ _) => apply frame_set; [solve_elem|]
    | |- frame _ ?r ?r => apply frame_refl
    end.

Section Bodies.

Variable net : network.

Implicit Types r : RepositoryRecord.

Lemma getContributorCounts_body_quiet r :
  quiet (getContributorCounts_body net r) (frame ["contributor_count"] r).
Proof. unfold getContributorCounts_body. cbv zeta. quiet_body. Qed.

Lemma getReadmeLengths_body_quiet r :
  quiet (getReadmeLengths_body net r) (frame ["readme_size"] r).
Proof. unfold getReadmeLengths_body. quiet_body. Qed.

Lemma getCommunityProfileMetrics_body_quiet r :
  quiet (getCommunityProfileMetrics_body net r)
        (frame ["has_code_of_conduct"; "has_contributing"; "has_issue_template";
                "has_pull_request_template"; "rawReadmeUrl"; "readme_size"] r).
Proof. unfold getCommunityProfileMetrics_body. cbv zeta. quiet_body. Qed.

Lemma getLanguages_body_quiet r :
  quiet (getLanguages_body net r) (frame ["languages"] r).
Proof. unfold getLanguages_body. quiet_body. Qed.

Lemma getDeployments_body_quiet r :
  quiet (getDeployments_body net r) (frame ["has_deployments"] r).
Proof. unfold getDeployments_body. quiet_body. Qed.

Lemma getEnvironments_body_quiet r :
  quiet (getEnvironments_body net r) (frame ["environments"] r).
Proof. unfold getEnvironments_body. quiet_body. Qed.

Lemma getReleases_body_quiet r :
  quiet (getReleases_body net r) (frame ["has_releases"] r).
Proof. unfold getReleases_body. cbv zeta. quiet_body. Qed.

Lemma getWorkflows_body_quiet r :
  quiet (getWorkflows_body net r) (frame ["workflows_count"] r).
Proof. unfold getWorkflows_body. cbv zeta. quiet_body. Qed.

Lemma getIssueLabelsCount_body_quiet r :
  quiet (getIssueLabelsCount_body net r) (frame ["labels_count"] r).
Proof. unfold getIssueLabelsCount_body. cbv zeta. quiet_body. Qed.

Lemma getMilestones_body_quiet r :
  quiet (getMilestones_body net r) (frame ["milestones_count"] r).
Proof. unfold getMilestones_body. cbv zeta. quiet_body. Qed.

Lemma getSecurityFiles_body_quiet r :
  quiet (getSecurityFiles_body net r) (frame ["has_security_file"] r).
Proof. unfold getSecurityFiles_body. cbv zeta. quiet_body. Qed.

Lemma getSupportFiles_body_quiet r :
  quiet (getSupportFiles_body net r) (frame ["has_support_file"] r).
Proof. unfold getSupportFiles_body. cbv zeta. quiet_body. Qed.

Lemma getFundingFiles_body_quiet r :
  quiet (getFundingFiles_body net r) (frame ["has_funding_file"] r).
Proof. unfold getFundingFiles_body. cbv zeta. quiet_body. Qed.

Lemma getCodeowners_body_quiet r :
  quiet (getCodeowners_body net r) (frame ["has_codeowners"] r).
Proof. unfold getCodeowners_body. cbv zeta. quiet_body. Qed.

Lemma getChangelog_body_quiet r :
  quiet (getChangelog_body net r) (frame ["has_changelog"] r).
Proof. unfold getChangelog_body. cbv zeta. quiet_body. Qed.

Lemma getCodespaces_body_quiet r :
  quiet (getCodespaces_body net r) (frame ["has_codespaces"] r).
Proof. unfold getCodespaces_body. cbv zeta. quiet_body. Qed.

Lemma getDiscussions_body_quiet r :
  quiet (getDiscussions_body net r) (frame ["has_discussions"] r).
Proof. unfold getDiscussions_body. cbv zeta. quiet_body. Qed.

Lemma getDependabot_body_quiet r :
  quiet (getDependabot_body net r) (frame ["uses_dependabot"] r).
Proof. unfold getDependabot_body. cbv zeta. quiet_body. Qed.

Lemma getContributorCounts_ok :
  collector_ok ["contributor_count"] (getContributorCounts net).
Proof. apply collect_ok, getContributorCounts_body_quiet. Qed.

Lemma getDetails_ok : collector_ok detail_keys (getDetails net).
Proof.
  apply in_sequence_ok. unfold getDetails_sequence.
  repeat (apply Forall_cons; split); try apply Forall_nil_2;
    (eapply collector_ok_mono;
     [|apply collect_ok; intros r;
       first [ apply getWorkflows_body_quiet
             | apply getCommunityProfileMetrics_body_quiet
             | apply getReadmeLengths_body_quiet
             | apply getLanguages_body_quiet
             | apply getSupportFiles_body_quiet
             | apply getEnvironments_body_quiet
             | apply getFundingFiles_body_quiet
             | apply getDeployments_body_quiet
             | apply getReleases_body_quiet
             | apply getIssueLabelsCount_body_quiet
             | apply getMilestones_body_quiet
             | apply getSecurityFiles_body_quiet
             | apply getCodeowners_body_quiet
             | apply getChangelog_body_quiet
             | apply getCodespaces_body_quiet
             | apply getDiscussions_body_quiet
             | apply getDependabot_body_quiet ]]);
    intros k Hk; repeat (apply elem_of_cons in Hk as [->|Hk]);
    try (by apply elem_of_nil in Hk); by apply (bool_decide_unpack _).
Qed.

End Bodies.

(** ** The phases of a batch *)

Lemma last_app_Some {A} (l1 l2 : list A) x :
  last l2 = Some x → last (l1 ++ l2) = Some x.
Proof.
  intros H. destruct l2 as [|y l2] using rev_ind; [done|].
  rewrite last_snoc in H. rewrite app_assoc, last_snoc. done.
Qed.

Lemma has_count_frames keys (l l' : list RepositoryRecord) :
  "contributor_count" ∉ keys →
  Forall2 (frame keys) l l' → Forall has_count l → Forall has_count l'.
Proof.
  intros Hk Hfr. induction Hfr as [|r r' l l' Hr Hfr IH]; intros Hl; [constructor|].
  apply Forall_cons in Hl as [Hr0 Hl]. constructor; [|by apply IH].
  unfold has_count. by rewrite (frame_get keys r r').
Qed.

Lemma detail_keys_no_count : "contributor_count" ∉ detail_keys.
Proof. apply (bool_decide_unpack _). by vm_compute. Qed.

Lemma json_value_truthy v :
  truthy (default VUndefined (json_value v)) = truthy v.
Proof. by destruct v as [| | |[|]| | |]. Qed.

Lemma json_record_get_truthy r k :
  truthy (get (json_record r) k) = truthy (get r k).
Proof.
  unfold get, json_record. simpl. rewrite lookup_omap.
  destruct (attrs r !! k) as [v|]; simpl; [|done]. apply json_value_truthy.
Qed.

Lemma to_json_has_count (l : list RepositoryRecord) :
  Forall has_count l → Forall has_count (to_json l).
Proof.
  unfold to_json. intros H. apply Forall_fmap. eapply Forall_impl; [exact H|].
  intros r Hr. unfold has_count, compose in *. by rewrite json_record_get_truthy.
Qed.

Lemma arff_data_row_count r row :
  arff_data_row r = Some row →
  ("contributor_count", Cell (get r "contributor_count")) ∈ row.
Proof.
  unfold arff_data_row. destruct (keys_count _); [|done]. intros [= <-].
  repeat apply list_elem_of_further. apply elem_of_app. right.
  repeat first [apply list_elem_of_here | apply list_elem_of_further].
Qed.

Lemma arff_data_has_count (l : list RepositoryRecord) rows :
  Forall has_count l → arff_data l = Some rows → Forall row_has_count rows.
Proof.
  revert rows. induction l as [|r l IH]; intros rows Hl; simpl.
  - intros [= <-]. constructor.
  - apply Forall_cons in Hl as [Hr Hl].
    destruct (arff_data_row r) as [row|] eqn:Hrow; [|done].
    destruct (arff_data l) as [rows'|]; [|done]. intros [= <-].
    constructor; [|by apply IH].
    exists (get r "contributor_count"). split; [by apply arff_data_row_count|done].
Qed.

Lemma filter_has_count (l : list RepositoryRecord) :
  Forall has_count
         (List.filter (fun repo_ => truthy (get repo_ "contributor_count")) l).
Proof.
  apply Forall_forall. intros r Hr. apply list_elem_of_In, filter_In in Hr.
  by destruct Hr.
Qed.

Ltac solve_events :=
  rewrite ?app_nil_r;
  repeat first
    [ assumption
    | apply Forall_nil_2
    | apply Forall_cons_2
    | apply Forall_app_2 ].

Section Phases.

Variable net : network.

Lemma getContributorCounts_run l w :
  match getContributorCounts net l w with
  | (l', o, w', evs) =>
      Forall2 (frame ["contributor_count"]) l l'
      ∧ files w' = files w ∧ repos_var w' = repos_var w
      ∧ o ≠ Exited
      ∧ ∃ reqs, evs = CollectorStarted "Getting contributor counts" l
                        :: (Requested <$> reqs)
  end.
Proof.
  unfold getContributorCounts, collect.
  pose proof (for_of_quiet (getContributorCounts_body net) ["contributor_count"] l w
                (getContributorCounts_body_quiet net)) as H.
  destruct (for_of _ l w) as [[[l' o] w'] evs].
  destruct H as (Hfr & (Hf & Hr & reqs & ->) & Ho). repeat split; eauto.
Qed.

(** How the [try] block of a batch runs when [repos] holds a list: [repos]
    still holds a list afterwards; leaving the process has saved that list;
    and either the run stopped before the filter, or everything after the
    contributor counts saw only records that have a count. *)
Lemma collect_and_emit_run w l0 :
  repos_var w = Some l0 →
  match collect_and_emit net w with
  | (o, w', evs) =>
      ∃ l', repos_var w' = Some l'
      ∧ (o = Exited →
         files w' !! "repos.json" = Some (JsonFile (to_json l'))
         ∧ last evs = Some (Wrote "repos.json" (JsonFile (to_json l'))))
      ∧ ((∀ l, CollectorStarted "Getting workflow counts" l ∉ evs)
         ∨ (Forall has_count l' ∧ Forall batch_event_ok evs))
  end.
Proof.
  intros Hrepos. unfold collect_and_emit, bind, on_repos at 1, with_repos at 1.
  rewrite Hrepos.
  pose proof (getContributorCounts_run l0 w) as H1.
  destruct (getContributorCounts net l0 w) as [[[l1 o1] w1] evs1].
  destruct H1 as (Hfr1 & Hf1 & Hr1 & Ho1 & reqs1 & ->).
  assert (Hnowf : ∀ l, CollectorStarted "Getting workflow counts" l
                        ∉ CollectorStarted "Getting contributor counts" l0
                            :: (Requested <$> reqs1)).
  { intros l [Heq|Hin]%elem_of_cons; [discriminate Heq|].
    apply list_elem_of_fmap in Hin as (? & ? & _). discriminate. }
  assert (Hstart : batch_event_ok (CollectorStarted "Getting contributor counts" l0))
    by (by simpl).
  assert (Hreqs : Forall batch_event_ok (Requested <$> reqs1)).
  { apply Forall_fmap, Forall_forall. by intros. }
  destruct o1 as [[]|e1|]; [|by eexists; split; [done|split; [done|left]]|done].
  (* the filter *)
  unfold drop_invalid, with_repos at 1, set_repos. simpl.
  set (valid := List.filter (fun repo_ => truthy (get repo_ "contributor_count")) l1).
  assert (Hvalid : Forall has_count valid) by apply filter_has_count.
  (* the remaining collectors *)
  unfold on_repos, with_repos at 1. simpl.
  pose proof (getDetails_ok net valid
                (assign_repos (Some valid) (assign_repos (Some l1) w1))) as H2.
  destruct (getDetails net valid _) as [[[l2 o2] w2] evs2].
  destruct H2 as (Hfr2 & Hf2 & Hr2 & Ho2 & Hev2).
  assert (Hl2 : Forall has_count l2).
  { eapply has_count_frames; [apply detail_keys_no_count|exact Hfr2|done]. }
  assert (Hev2' : Forall batch_event_ok evs2).
  { eapply Forall_impl; [exact Hev2|]. intros [r|message l|name content]; simpl; try done.
    intros Hfr _. eapply has_count_frames; [apply detail_keys_no_count|exact Hfr|done]. }
  destruct o2 as [[]|e2|]; [| |done].
  2:{ eexists; split; [done|split; [done|right]]. split; [done|].
      solve_events. }
  (* the dataset *)
  unfold with_repos at 1. simpl. unfold writeToArffFile.
  destruct (arff_data l2) as [rows|] eqn:Hrows.
  2:{ simpl. eexists; split; [done|split; [done|right]]. split; [done|].
      solve_events. }
  simpl. unfold with_repos. simpl.
  assert (Hrows' : batch_event_ok (Wrote "github.arff" (ArffFile rows))).
  { simpl. by eapply arff_data_has_count. }
  assert (Hsaved : batch_event_ok (Wrote "repos.json" (JsonFile (to_json l2)))).
  { simpl. by apply to_json_has_count. }
  destruct (10000 <? Z.of_nat (length l2)).
  - unfold shutdown. simpl. eexists; split; [done|split]; [|right].
    + intros _. split; [by rewrite lookup_insert_eq|].
      rewrite app_comm_cons, app_assoc. by apply last_app_Some.
    + split; [done|]. solve_events.
  - simpl. eexists; split; [done|split; [done|right]]. split; [done|].
    solve_events.
Qed.

(** The same for the whole [try ... finally]: however the [try] block ends,
    the list [repos] holds is in the checkpoint, written last. *)
Lemma protected_run w l0 :
  repos_var w = Some l0 →
  match try_finally (collect_and_emit net) save_checkpoint w with
  | (o, w', evs) =>
      ∃ repos, repos_var w' = Some repos
      ∧ files w' !! "repos.json" = Some (JsonFile (to_json repos))
      ∧ last evs = Some (Wrote "repos.json" (JsonFile (to_json repos)))
      ∧ ((∀ l, CollectorStarted "Getting workflow counts" l ∉ evs)
         ∨ (Forall has_count repos ∧ Forall batch_event_ok evs))
  end.
Proof.
  intros Hrepos. unfold try_finally.
  pose proof (collect_and_emit_run w l0 Hrepos) as H.
  destruct (collect_and_emit net w) as [[o w1] evs1].
  destruct H as (l' & Hl' & Hexit & Hcases).
  assert (Hsave : save_checkpoint w1
                  = (Returned tt, store "repos.json" (JsonFile (to_json l')) w1,
                     [Wrote "repos.json" (JsonFile (to_json l'))])).
  { unfold save_checkpoint. by rewrite Hl'. }
  assert (Hfinal : ∃ repos,
            repos_var (store "repos.json" (JsonFile (to_json l')) w1) = Some repos
            ∧ files (store "repos.json" (JsonFile (to_json l')) w1) !! "repos.json"
              = Some (JsonFile (to_json repos))
            ∧ last (evs1 ++ [Wrote "repos.json" (JsonFile (to_json l'))])
              = Some (Wrote "repos.json" (JsonFile (to_json repos)))
            ∧ ((∀ l, CollectorStarted "Getting workflow counts" l
                      ∉ evs1 ++ [Wrote "repos.json" (JsonFile (to_json l'))])
               ∨ (Forall has_count repos
                  ∧ Forall batch_event_ok
                      (evs1 ++ [Wrote "repos.json" (JsonFile (to_json l'))])))).
  { exists l'. split; [done|]. split; [by simpl; rewrite lookup_insert_eq|].
    split; [apply last_snoc|]. destruct Hcases as [Hnowf|[Hcount Hev]].
    - left. intros l [Hin|Hin]%elem_of_app; [by eapply Hnowf|].
      apply list_elem_of_singleton in Hin. discriminate.
    - right. split; [done|]. apply Forall_app. split; [done|].
      constructor; [|constructor]. simpl. by apply to_json_has_count. }
  destruct o as [[]|e|].
  - rewrite Hsave. exact Hfinal.
  - rewrite Hsave. exact Hfinal.
  - destruct (Hexit eq_refl) as [Hfile Hlast]. by exists l'.
Qed.

(** A whole batch: either the discovery failed, and nothing changed, or the
    list [repos] holds at the end is in the checkpoint, written last. *)
Lemma doBatch_run query sort w :
  match doBatch net query sort w with
  | (o, w', evs) =>
      (∃ e, o = Thrown (ApiError e)
            ∧ given query && given sort = true
            ∧ net_search net (clock w) "stars:>10" "updated" = ApiFail e
            ∧ files w' = files w ∧ repos_var w' = repos_var w
            ∧ evs = [Requested (SearchRepositories "stars:>10" "updated")])
      ∨ (∃ repos, repos_var w' = Some repos
         ∧ files w' !! "repos.json" = Some (JsonFile (to_json repos))
         ∧ last evs = Some (Wrote "repos.json" (JsonFile (to_json repos)))
         ∧ ((∀ l, CollectorStarted "Getting workflow counts" l ∉ evs)
            ∨ (Forall has_count repos ∧ Forall batch_event_ok evs)))
  end.
Proof.
  unfold doBatch, bind at 1.
  assert (∃ savedRepos, load_saved w = (Returned savedRepos, w, [])) as [saved ->].
  { unfold load_saved. destruct (files w !! "repos.json") as [[?|?]|]; by eexists. }
  unfold bind at 1.
  destruct (given query && given sort) eqn:Hlive.
  - unfold getListOfRepos, bind at 1, octokit.
    destruct (net_search net (clock w) "stars:>10" "updated") as [data|e] eqn:Hsearch.
    + simpl. unfold bind, set_repos.
      pose proof (protected_run
                    (assign_repos (Some (removeDuplicateRepos (saved ++ (trim_repo <$> data))))
                                  (tick w)) _ eq_refl) as H.
      destruct (try_finally _ _ _) as [[o w'] evs].
      destruct H as (repos & Hr & Hf & Hlast & Hcases). right. exists repos.
      repeat split; try done.
      * by apply (last_app_Some [_]).
      * destruct Hcases as [Hnowf|[Hc Hev]]; [left|right].
        -- intros l [Heq|Hin]%elem_of_cons; [discriminate|by eapply Hnowf].
        -- split; [done|]. by constructor.
    + simpl. left. exists e. by repeat split.
  - simpl. unfold bind, set_repos.
    pose proof (protected_run
                  (assign_repos (Some (removeDuplicateRepos (saved ++ []))) w)
                  _ eq_refl) as H.
    destruct (try_finally _ _ _) as [[o w'] evs].
    destruct H as (repos & Hr & Hf & Hlast & Hcases). right. by exists repos.
Qed.

End Phases.

(** ** Attributes set, attributes kept *)

Lemma set_has k v (r : RepositoryRecord) : is_Some (attrs (set k v r) !! k).
Proof. simpl. rewrite lookup_insert_eq. by eexists. Qed.

Lemma set_keeps k v (r : RepositoryRecord) k' :
  is_Some (attrs r !! k') → is_Some (attrs (set k v r) !! k').
Proof.
  intros H. simpl. destruct (decide (k = k')) as [->|Hne].
  - rewrite lookup_insert_eq. by eexists.
  - by rewrite lookup_insert_ne.
Qed.

Ltac sets_key :=
  repeat
    match goal with
    | |- quiet (ret _) _ => apply quiet_ret
    | |- quiet (throw _) _ => apply quiet_throw
    | |- quiet (bind (fetchWithRetryAndLogging _ _ _) _) _ =>
        eapply quiet_bind; [apply quiet_fetchWithRetryAndLogging|intros ? _]
    | |- quiet (bind (octokit _ _) _) _ =>
        eapply quiet_bind; [apply quiet_octokit|intros ? _]
    | |- quiet (bind (doesAnyFileExist _ _) _) _ =>
        eapply quiet_bind; [apply quiet_doesAnyFileExist|intros ? _]
    | |- quiet (try_catch _ _) _ => apply quiet_try_catch; [|intros ?]
    | |- quiet (if ?b then _ else _) _ => destruct b eqn:?
    | |- quiet (match ?x with _ => _ end) _ => destruct x
    | |- is_Some (attrs (set ?k _ _) !! ?k) => apply set_has
    | |- is_Some (attrs (set _ _ _) !! _) => apply set_keeps
    | H : hasOwnProperty ?r ?k = true |- is_Some (attrs ?r !! ?k) =>
        by apply bool_decide_eq_true in H
    end.

Lemma for_of_returned body (P : RepositoryRecord → Prop) l w :
  (∀ r, quiet (body r) P) →
  let '(l', o, _, _) := for_of body l w in
  o = Returned tt → Forall P l'.
Proof.
  intros Hbody. revert w. induction l as [|r l IH]; intros w; simpl; [done|].
  pose proof (Hbody r w) as Hr.
  destruct (body r w) as [[[r'|e|] w1] evs1]; try done.
  destruct Hr as [_ HP]. specialize (IH w1).
  destruct (for_of body l w1) as [[[l' o] w2] evs2].
  intros Ho. constructor; [done|by apply IH].
Qed.

Lemma frames_keep keys k (P : option value → Prop) (l l' : list RepositoryRecord) :
  k ∉ keys → Forall2 (frame keys) l l' →
  Forall (fun r => P (attrs r !! k)) l → Forall (fun r => P (attrs r !! k)) l'.
Proof.
  intros Hk Hfr. induction Hfr as [|r r' l l' (_ & _ & _ & Hat) _ IH]; [done|].
  intros [Hr Hl]%Forall_cons. constructor; [|by apply IH]. by rewrite Hat.
Qed.


(** * Part III: the specification's claims *)

(** ** The existence probe *)

(** The probe on given outcomes: whatever the order of completion, a found
    candidate decides; without one, the probe resolves to false exactly
    when every candidate answered 404, and fails otherwise. *)
Lemma doesAnyFileExist_settled_cases (heads : list head_outcome) (order : list nat) :
  order ≡ₚ seq 0 (length heads) →
  doesAnyFileExist_settled heads order
  = if decide (HeadStatus 200 ∈ heads) then ProbeResolved true
    else if every is_404 (reason <$> heads) then ProbeResolved false
    else ProbeFailed (reason <$> heads).
Proof.
  intros Hp. destruct (decide (HeadStatus 200 ∈ heads)) as [Hfound|Hnone].
  - by apply probe_found.
  - by rewrite (probe_none_found _ _ Hp Hnone).
Qed.

Lemma head_outcomes_length net t urls :
  length (head_outcomes net t urls) = length urls.
Proof.
  revert t. induction urls as [|u urls IH]; intros t; [done|].
  simpl. destruct (net_fetch net t "HEAD" u);
    [|destruct (net_fetch net (S t) "HEAD" u)]; simpl; by rewrite IH.
Qed.

(** The HEAD checks the probe makes end as the network answers them. *)
Lemma head_checks_outcomes net urls w :
  ∃ w' reqs,
    head_checks net urls w
    = (Returned (head_outcomes net (clock w) urls), w', Requested <$> reqs)
    ∧ (∀ r, r ∈ reqs ↔ ∃ url_, url_ ∈ urls ∧ r = Fetch "HEAD" url_).
Proof.
  revert w. induction urls as [|u urls IH]; intros w.
  - exists w, []. split; [done|]. intros r. split.
    + by intros ?%elem_of_nil.
    + by intros (? & ?%elem_of_nil & _).
  - assert (∀ h w1 (again : bool),
              (∃ w' reqs,
                 head_checks net urls w1
                 = (Returned (head_outcomes net (clock w1) urls), w', Requested <$> reqs)
                 ∧ (∀ r, r ∈ reqs ↔ ∃ url_, url_ ∈ urls ∧ r = Fetch "HEAD" url_)) →
              ∃ w' reqs,
                (let '(o, w'', evs') :=
                   (let '(o, w'', evs') := head_checks net urls w1 in
                    match o with
                    | Returned hs => (Returned (h :: hs), w'', evs' ++ [])
                    | Thrown e => (Thrown e, w'', evs')
                    | Exited => (Exited, w'', evs')
                    end) in
                 (o, w'',
                  (Requested <$> (Fetch "HEAD" u
                                    :: if again then [Fetch "HEAD" u] else []))
                    ++ evs'))
                = (Returned (h :: head_outcomes net (clock w1) urls), w',
                   Requested <$> reqs)
                ∧ (∀ r, r ∈ reqs ↔ ∃ url_, url_ ∈ u :: urls ∧ r = Fetch "HEAD" url_))
      as Hstep.
    { intros h w1 again (w' & reqs & -> & Hin).
      exists w', ((Fetch "HEAD" u :: if again then [Fetch "HEAD" u] else []) ++ reqs).
      split; [by rewrite fmap_app, app_nil_r|].
      intros r. rewrite elem_of_app, Hin. split.
      - intros [Hr|(u' & Hu' & ->)].
        + exists u. split; [by left|].
          destruct again; repeat (apply elem_of_cons in Hr as [->|Hr]; [done|]);
            by apply elem_of_nil in Hr.
        + exists u'. split; [by right|done].
      - intros (u' & [->|Hu']%elem_of_cons & ->); [left; by left|].
        right. by exists u'. }
    cbn [head_checks head_outcomes]. unfold bind at 1.
    unfold head_check, fetchWithRetryAndLogging, bind at 1, fetch at 1.
    destruct (net_fetch net (clock w) "HEAD" u) as [response|].
    + unfold ret at 1. cbv beta iota. unfold bind at 1, ret.
      exact (Hstep _ (tick w) false (IH (tick w))).
    + unfold bind at 1, fetch. cbv beta iota.
      change (clock (tick w)) with (S (clock w)).
      destruct (net_fetch net (S (clock w)) "HEAD" u) as [response|];
        unfold ret, throw; cbv beta iota; unfold bind at 1;
        exact (Hstep _ (tick (tick w)) true (IH (tick (tick w)))).
Qed.

(** C1. For every list of candidate URLs, in every state: the probe makes a
    HEAD check of each candidate and of nothing else.  With [heads] the
    outcomes of these checks as the network answers them, the probe returns
    true when some candidate answered 200, whatever the others did; it
    returns false exactly when every candidate answered 404; and when no
    candidate answered 200 and some check ended otherwise than with a 404
    (another status, or a failed fetch), it throws the aggregate error.
    This is the result [Promise.any] followed by the [catch] gives in every
    order in which the checks complete. *)
Theorem doesAnyFileExist_first_success_wins
        (net : network) (urls : list string) (w : world) :
  let heads := head_outcomes net (clock w) urls in
  let '(o, _, evs) := doesAnyFileExist net urls w in
  (HeadStatus 200 ∈ heads → o = Returned true)
  ∧ (o = Returned false ↔ Forall (fun h => h = HeadStatus 404) heads)
  ∧ (HeadStatus 200 ∉ heads → (∃ h, h ∈ heads ∧ h ≠ HeadStatus 404) →
     o = Thrown (AggregateError (reason <$> heads)))
  ∧ (∀ order, order ≡ₚ seq 0 (length heads) →
       doesAnyFileExist_settled heads order
       = match o with
         | Returned found => ProbeResolved found
         | Thrown (AggregateError errors) => ProbeFailed errors
         | _ => ProbePending
         end)
  ∧ length heads = length urls
  ∧ (∀ r, Requested r ∈ evs ↔ ∃ url_, url_ ∈ urls ∧ r = Fetch "HEAD" url_).
Proof.
  intros heads.
  destruct (head_checks_outcomes net urls w) as (w' & reqs & Hrun & Hreqs).
  assert (length heads = length urls) as Hlen by apply head_outcomes_length.
  assert (∀ r, Requested r ∈ Requested <$> reqs
               ↔ ∃ url_, url_ ∈ urls ∧ r = Fetch "HEAD" url_) as Hevs.
  { intros r. rewrite <- Hreqs. split.
    - intros (r' & [= ->] & Hin)%list_elem_of_fmap. done.
    - intros Hin. by apply list_elem_of_fmap_2. }
  unfold doesAnyFileExist, bind. rewrite Hrun. fold heads.
  rewrite promise_any_in_order_spec. cbn [rev app].
  pose proof (every_is_404 heads) as H404.
  destruct (decide (HeadStatus 200 ∈ heads)) as [Hfound|Hnone].
  - unfold ret. cbv beta iota. rewrite app_nil_r.
    split; [done|]. split; [|split; [done|split; [|done]]].
    + split; [done|]. intros Hall. rewrite Forall_forall in Hall.
      by specialize (Hall _ Hfound).
    + intros order Hp. rewrite doesAnyFileExist_settled_cases by done.
      by rewrite decide_True.
  - destruct (every is_404 (reason <$> heads)) eqn:Hevery;
      unfold ret, throw; cbv beta iota; rewrite app_nil_r.
    + split; [done|]. split; [split; [intros _; by apply H404|done]|].
      split; [|split; [|done]].
      * intros _ (h & Hh & Hne). destruct H404 as [H404 _].
        specialize (H404 eq_refl). rewrite Forall_forall in H404.
        by specialize (H404 _ Hh).
      * intros order Hp. rewrite doesAnyFileExist_settled_cases by done.
        by rewrite decide_False, Hevery.
    + split; [done|]. split; [split; [done|]|].
      * intros Hall. apply H404 in Hall. congruence.
      * split; [done|]. split; [|done].
        intros order Hp. rewrite doesAnyFileExist_settled_cases by done.
        by rewrite decide_False, Hevery.
Qed.

(** The candidates [A: 404, B: 200, C: 500]: the probe returns true. *)
Lemma doesAnyFileExist_first_success_wins_witness :
  (doesAnyFileExist (status_net abc_statuses) ["A"; "B"; "C"] cold_start).1.1
  = Returned true.
Proof.
  pose proof (doesAnyFileExist_first_success_wins
                (status_net abc_statuses) ["A"; "B"; "C"] cold_start) as H.
  cbv zeta in H.
  destruct (doesAnyFileExist (status_net abc_statuses) ["A"; "B"; "C"] cold_start)
    as [[o w'] evs].
  apply (proj1 H). apply list_elem_of_further, list_elem_of_here.
Defined.

(** C3. Merging the saved records followed by the discovered ones keeps
    exactly one record per identity: no identity occurs twice in the result,
    every identity of the input occurs in it, and the record kept is the first
    one of the input with that identity.  For an identity that a saved record
    has, the record kept is the first saved one, never a discovered one; and
    when the saved records are free of duplicates they all come first in the
    result, as they were. *)
Theorem removeDuplicateRepos_merge (saved discovered : list RepositoryRecord) :
  let merged := removeDuplicateRepos (saved ++ discovered) in
  NoDup (identity <$> merged)
  ∧ (∀ r, r ∈ saved ++ discovered → ∃ r', r' ∈ merged ∧ identity r' = identity r)
  ∧ (∀ r, r ∈ merged → first_with_identity r (saved ++ discovered) = Some r)
  ∧ (∀ s, s ∈ saved →
       is_Some (first_with_identity s saved)
       ∧ first_with_identity s merged = first_with_identity s saved)
  ∧ (NoDup (identity <$> saved) →
       merged = saved ++ keep_first_per_identity (identity <$> saved) discovered).
Proof.
  intros merged. unfold merged. split; [|split; [|split; [|split]]].
  - rewrite removeDuplicateRepos_keep_first. apply keep_first_NoDup.
  - intros r Hr. rewrite removeDuplicateRepos_keep_first.
    apply keep_first_covers; [done|]. apply not_elem_of_nil.
  - intros r Hr. rewrite removeDuplicateRepos_keep_first in Hr.
    by eapply first_with_identity_self.
  - intros s Hs. split; [by apply first_with_identity_is_Some|].
    rewrite removeDuplicateRepos_app. unfold first_with_identity.
    rewrite find_app_first.
    pose proof (first_with_identity_keep_first [] saved s) as Hsaved.
    unfold first_with_identity in Hsaved.
    rewrite <- removeDuplicateRepos_keep_first in Hsaved.
    rewrite Hsaved by apply not_elem_of_nil.
    destruct (first_with_identity_is_Some saved s Hs) as [x Hx].
    unfold first_with_identity in Hx. by rewrite Hx.
  - intros Hnd. rewrite removeDuplicateRepos_app. f_equal.
    rewrite removeDuplicateRepos_keep_first. apply keep_first_id; [done|].
    intros r _. apply not_elem_of_nil.
Qed.

(** ** Skipping what is already collected *)

Lemma collect_skip message body pre r post w :
  (∀ w, body r w = (Returned r, w, [])) →
  let '(out, o, w', evs) := collect message body (pre ++ post) w in
  ∃ evs',
    collect message body (pre ++ r :: post) w
    = (take (length pre) out ++ r :: drop (length pre) out, o, w', evs')
    ∧ requests evs' = requests evs.
Proof.
  intros Hskip. unfold collect. rewrite (for_of_skip body pre r post w Hskip).
  destruct (for_of body (pre ++ post) w) as [[[out o] w'] evs].
  eexists. split; reflexivity.
Qed.

Lemma collect_skip_alone message body r w :
  (∀ w, body r w = (Returned r, w, [])) →
  collect message body [r] w = ([r], Returned tt, w, [CollectorStarted message [r]]).
Proof. intros Hskip. unfold collect. simpl. by rewrite Hskip. Qed.

(** Every collector is the loop of a body that returns at once, having done
    nothing, on a record that has the collector's key. *)
Lemma collectors_guarded net key c :
  (key, c) ∈ collectors net →
  ∃ message body,
    c = collect message body
    ∧ ∀ r, hasOwnProperty r key = true → ∀ w, body r w = (Returned r, w, []).
Proof.
  unfold collectors. intros Hin.
  repeat (apply elem_of_cons in Hin as [Heq|Hin]);
    [ injection Heq as -> -> ..| by apply elem_of_nil in Hin ];
    (eexists _, _; split; [reflexivity|]); intros r Hkey w.
  - unfold getContributorCounts_body. by rewrite Hkey.
  - unfold getReadmeLengths_body. by rewrite Hkey.
  - unfold getCommunityProfileMetrics_body. by rewrite Hkey.
  - unfold getLanguages_body. by rewrite Hkey.
  - unfold getDeployments_body. by rewrite Hkey.
  - unfold getEnvironments_body. by rewrite Hkey.
  - unfold getReleases_body. by rewrite Hkey.
  - unfold getWorkflows_body. by rewrite Hkey.
  - unfold getIssueLabelsCount_body. by rewrite Hkey.
  - unfold getMilestones_body. by rewrite Hkey.
  - unfold getSecurityFiles_body. by rewrite Hkey.
  - unfold getSupportFiles_body. by rewrite Hkey.
  - unfold getFundingFiles_body. by rewrite Hkey.
  - unfold getCodeowners_body. by rewrite Hkey.
  - unfold getChangelog_body. by rewrite Hkey.
  - unfold getCodespaces_body. by rewrite Hkey.
  - unfold getDiscussions_body. by rewrite Hkey.
  - unfold getDependabot_body. by rewrite Hkey.
Qed.

(** Every collector is the loop of a body that skips a record having the
    collector's key and otherwise assigns that key only; the community
    profile collector assigns five more. *)
Lemma collectors_framed net key c :
  (key, c) ∈ collectors net →
  ∃ message body,
    c = collect message body
    ∧ (∀ r, hasOwnProperty r key = true → ∀ w, body r w = (Returned r, w, []))
    ∧ ∀ r, quiet (body r)
                 (frame (key :: if bool_decide (key = "has_code_of_conduct")
                                then [ "has_contributing"; "has_issue_template";
                                       "has_pull_request_template"; "rawReadmeUrl";
                                       "readme_size" ]
                                else []) r).
Proof.
  unfold collectors. intros Hin.
  repeat (apply elem_of_cons in Hin as [Heq|Hin]);
    [ injection Heq as -> -> ..| by apply elem_of_nil in Hin ];
    (eexists _, _; split; [reflexivity|]);
    (split;
     [ intros r Hkey w
     | intros r;
       first [ rewrite bool_decide_eq_false_2 by done
             | rewrite bool_decide_eq_true_2 by done ] ]).
  - unfold getContributorCounts_body. by rewrite Hkey.
  - apply getContributorCounts_body_quiet.
  - unfold getReadmeLengths_body. by rewrite Hkey.
  - apply getReadmeLengths_body_quiet.
  - unfold getCommunityProfileMetrics_body. by rewrite Hkey.
  - apply getCommunityProfileMetrics_body_quiet.
  - unfold getLanguages_body. by rewrite Hkey.
  - apply getLanguages_body_quiet.
  - unfold getDeployments_body. by rewrite Hkey.
  - apply getDeployments_body_quiet.
  - unfold getEnvironments_body. by rewrite Hkey.
  - apply getEnvironments_body_quiet.
  - unfold getReleases_body. by rewrite Hkey.
  - apply getReleases_body_quiet.
  - unfold getWorkflows_body. by rewrite Hkey.
  - apply getWorkflows_body_quiet.
  - unfold getIssueLabelsCount_body. by rewrite Hkey.
  - apply getIssueLabelsCount_body_quiet.
  - unfold getMilestones_body. by rewrite Hkey.
  - apply getMilestones_body_quiet.
  - unfold getSecurityFiles_body. by rewrite Hkey.
  - apply getSecurityFiles_body_quiet.
  - unfold getSupportFiles_body. by rewrite Hkey.
  - apply getSupportFiles_body_quiet.
  - unfold getFundingFiles_body. by rewrite Hkey.
  - apply getFundingFiles_body_quiet.
  - unfold getCodeowners_body. by rewrite Hkey.
  - apply getCodeowners_body_quiet.
  - unfold getChangelog_body. by rewrite Hkey.
  - apply getChangelog_body_quiet.
  - unfold getCodespaces_body. by rewrite Hkey.
  - apply getCodespaces_body_quiet.
  - unfold getDiscussions_body. by rewrite Hkey.
  - apply getDiscussions_body_quiet.
  - unfold getDependabot_body. by rewrite Hkey.
  - apply getDependabot_body_quiet.
Qed.

Lemma for_of_related body (R : RepositoryRecord → RepositoryRecord → Prop) l w :
  (∀ r, R r r) → (∀ r, quiet (body r) (R r)) →
  Forall2 R l (for_of body l w).1.1.1.
Proof.
  intros Hrefl Hbody. revert w. induction l as [|r l IH]; intros w; simpl; [constructor|].
  pose proof (Hbody r w) as Hr.
  assert (Forall2 R l l) as Hsame.
  { clear IH Hr. induction l as [|r0 l IHl]; constructor; auto. }
  destruct (body r w) as [[[r'|e|] w1] evs1]; simpl; [|by constructor..].
  destruct Hr as [_ HR]. specialize (IH w1).
  destruct (for_of body l w1) as [[[l' o] w2] evs2]. by constructor.
Qed.

(** C2. For every collector: a record that already has the key the collector
    tests, whatever value it holds, is left as it is, with no request made
    and no state changed when the collector is run on it alone, and, within
    any list, the run is the run on the list without that record (same
    outcome, same state, same requests) with the record put back unchanged
    at its place.  On any list, every attribute a record has keeps its
    value, unless the collector is the community profile one, which tests
    [has_code_of_conduct] only and may overwrite [has_contributing],
    [has_issue_template], [has_pull_request_template], [rawReadmeUrl] and
    [readme_size]. *)
Theorem collectors_skip_collected
        (net : network) (key : string) (c : collector) :
  (key, c) ∈ collectors net →
  (∀ (pre : list RepositoryRecord) (r : RepositoryRecord)
     (post : list RepositoryRecord) (w : world),
     is_Some (attrs r !! key) →
     (∃ message, c [r] w = ([r], Returned tt, w, [CollectorStarted message [r]]))
     ∧ (let '(out, o, w', evs) := c (pre ++ post) w in
        ∃ evs',
          c (pre ++ r :: post) w
          = (take (length pre) out ++ r :: drop (length pre) out, o, w', evs')
          ∧ requests evs' = requests evs))
  ∧ (∀ (l : list RepositoryRecord) (w : world),
       Forall2
         (fun r r' =>
            ∀ k v,
              attrs r !! k = Some v →
              (key = "has_code_of_conduct" →
               k ∉ [ "has_contributing"; "has_issue_template";
                     "has_pull_request_template"; "rawReadmeUrl"; "readme_size" ]) →
              attrs r' !! k = Some v)
         l (c l w).1.1.1).
Proof.
  intros Hc. split.
  - intros pre r post w Hkey.
    destruct (collectors_guarded net key c Hc) as (message & body & -> & Hskip).
    assert (hasOwnProperty r key = true) as Hhas by (by apply bool_decide_eq_true).
    split.
    + exists message. apply collect_skip_alone. by apply Hskip.
    + apply collect_skip. by apply Hskip.
  - intros l w.
    destruct (collectors_framed net key c Hc) as (message & body & -> & Hskip & Hframe).
    assert ((collect message body l w).1.1.1 = (for_of body l w).1.1.1) as ->.
    { unfold collect. by destruct (for_of body l w) as [[[? ?] ?] ?]. }
    apply for_of_related; [by intros r k v|].
    intros r w0. specialize (Hframe r w0).
    destruct (attrs r !! key) as [v0|] eqn:Hkey.
    + rewrite Hskip by (apply hasOwnProperty_Some; by rewrite Hkey).
      split; [apply only_requests_nil|done].
    + destruct (body r w0) as [[[r'|e|] w1] evs1]; [|done..].
      destruct Hframe as [Hreq (_ & _ & _ & Hat)]. split; [done|].
      intros k v Hk Hprofile. rewrite Hat; [done|].
      rewrite not_elem_of_cons. split; [congruence|].
      case_bool_decide as Hcoc; [by apply Hprofile|apply not_elem_of_nil].
Qed.

Lemma collectors_skip_collected_witness :
  ∃ message,
    getDeployments (example_net 200)
                   [example_repo {[ "has_deployments" := VBool false ]}] cold_start
    = ([example_repo {[ "has_deployments" := VBool false ]}], Returned tt, cold_start,
       [CollectorStarted message
          [example_repo {[ "has_deployments" := VBool false ]}]]).
Proof.
  apply (proj1 (proj1 (collectors_skip_collected
                         (example_net 200) "has_deployments"
                         (getDeployments (example_net 200))
                         ltac:(unfold collectors; repeat constructor))
                  [] (example_repo {[ "has_deployments" := VBool false ]}) []
                  cold_start
                  ltac:(by exists (VBool false)))).
Defined.

(** The community profile collector, on a record that has a README length
    but not yet [has_code_of_conduct] and whose profile shows no README,
    overwrites the length with 0. *)
Lemma collectors_skip_collected_counterexample :
  ∃ r',
    (getCommunityProfileMetrics
       readmeless_net [example_repo {[ "readme_size" := VNumber (Num 1234) ]}]
       cold_start).1.1.1 = [r']
    ∧ attrs (example_repo {[ "readme_size" := VNumber (Num 1234) ]}) !! "readme_size"
      = Some (VNumber (Num 1234))
    ∧ attrs r' !! "readme_size" = Some (VNumber (Num 0)).
Proof. eexists. split; [reflexivity|]. split; by vm_compute. Qed.

(** ** The batch *)

(** C4. However a batch ends once its collection phase has begun (it
    returns, a collector or the dataset emitter throws, or the process is
    left because enough records were gathered), the list the variable [repos]
    holds at the end is the content of [repos.json], and writing it is the
    last thing the batch does.  The only batch that writes nothing is one
    whose discovery request fails: it throws that error before the collection
    phase, with the files and [repos] as they were. *)
Theorem doBatch_always_saves
        (net : network) (query sort : option string) (w : world) :
  let ran := doBatch net query sort w in
  let o := ran.1.1 in let w' := ran.1.2 in let evs := ran.2 in
  (∃ e, o = Thrown (ApiError e)
        ∧ given query && given sort = true
        ∧ net_search net (clock w) "stars:>10" "updated" = ApiFail e
        ∧ files w' = files w ∧ repos_var w' = repos_var w)
  ∨ (∃ repos, repos_var w' = Some repos
     ∧ files w' !! "repos.json" = Some (JsonFile (to_json repos))
     ∧ last evs = Some (Wrote "repos.json" (JsonFile (to_json repos)))).
Proof.
  pose proof (doBatch_run net query sort w) as H. simpl.
  destruct (doBatch net query sort w) as [[o w'] evs]. simpl.
  destruct H as [(e & ? & ? & ? & ? & ? & _)|(repos & ? & ? & ? & _)].
  - left. by exists e.
  - right. by exists repos.
Qed.

(** A batch whose discovery request fails ends with the error and has
    written nothing: from a cold start, and likewise when [repos] holds a
    record that no checkpoint file contains. *)
Lemma doBatch_always_saves_counterexample :
  doBatch offline_net (Some "stars:>10") (Some "updated") cold_start
  = (Thrown (ApiError (mkApiError (Some 503))), tick cold_start,
     [Requested (SearchRepositories "stars:>10" "updated")])
  ∧ doBatch offline_net (Some "stars:>10") (Some "updated") unsaved
    = (Thrown (ApiError (mkApiError (Some 503))), tick unsaved,
       [Requested (SearchRepositories "stars:>10" "updated")])
  ∧ repos_var (tick unsaved) = Some [example_repo ∅]
  ∧ files (tick unsaved) !! "repos.json" = None.
Proof. repeat split; by vm_compute. Qed.

(** C7. In a batch that got past the contributor counts and the filter
    (the first of the remaining collectors started), only records with a
    contributor count that passes the filter are in the list handed to each
    remaining collector, in the rows of the dataset written, in every
    checkpoint written, in the checkpoint file at the end, and in [repos]. *)
Theorem invalid_records_excluded
        (net : network) (query sort : option string) (w : world) :
  let ran := doBatch net query sort w in
  let w' := ran.1.2 in let evs := ran.2 in
  started "Getting workflow counts" evs = true →
  (∀ message l, CollectorStarted message l ∈ evs →
                message ≠ "Getting contributor counts" → Forall has_count l)
  ∧ (∀ name rows, Wrote name (ArffFile rows) ∈ evs → Forall row_has_count rows)
  ∧ (∀ name records, Wrote name (JsonFile records) ∈ evs → Forall has_count records)
  ∧ (∃ records, files w' !! "repos.json" = Some (JsonFile records)
                ∧ Forall has_count records)
  ∧ (∃ repos, repos_var w' = Some repos ∧ Forall has_count repos).
Proof.
  pose proof (doBatch_run net query sort w) as H. simpl.
  destruct (doBatch net query sort w) as [[o w'] evs]. simpl. intros Hstarted.
  assert (∃ l, CollectorStarted "Getting workflow counts" l ∈ evs) as [l0 Hl0].
  { unfold started in Hstarted. apply existsb_exists in Hstarted as (e & Hin & He).
    destruct e as [|message l|]; try done. apply bool_decide_eq_true in He as ->.
    exists l. by apply list_elem_of_In. }
  destruct H as [(e & _ & _ & _ & _ & _ & ->)|(repos & Hr & Hf & _ & Hcases)].
  { apply list_elem_of_singleton in Hl0. discriminate. }
  destruct Hcases as [Hnowf|[Hcount Hev]]; [by destruct (Hnowf l0)|].
  rewrite Forall_forall in Hev. repeat split.
  - intros message l Hin. exact (Hev _ Hin).
  - intros name rows Hin. exact (Hev _ Hin).
  - intros name records Hin. exact (Hev _ Hin).
  - exists (to_json repos). split; [done|]. by apply to_json_has_count.
  - by exists repos.
Qed.

Lemma invalid_records_excluded_witness :
  ∃ repos,
    repos_var (doBatch (example_net 200) (Some "stars:>10") (Some "updated")
                       cold_start).1.2 = Some repos
    ∧ Forall has_count repos.
Proof.
  apply (invalid_records_excluded
           (example_net 200) (Some "stars:>10") (Some "updated") cold_start).
  by vm_compute.
Defined.

(** ** Contributor counts and the filter *)

Lemma getContributorCounts_body_page net r w response :
  hasOwnProperty r "contributor_count" = false →
  net_fetch net (clock w) "GET" (landing_page r) = Some response →
  status response = 200 →
  getContributorCounts_body net r w
  = (Returned
       (set "contributor_count"
            (VNumber match html (body response (contributors_count r)) with
                     | Some span => ToNumber (trim span)
                     | None => Num 1
                     end) r),
     tick w, [Requested (Fetch "GET" (landing_page r))]).
Proof.
  intros Hhas Hfetch Hstatus.
  unfold getContributorCounts_body, fetchWithRetryAndLogging, bind, fetch.
  rewrite Hhas. cbv zeta. rewrite Hfetch. simpl. rewrite Hstatus. simpl.
  by destruct (html _).
Qed.

(** C10. The filter keeps a record exactly when its contributor count is
    truthy: a record whose count is 0 or NaN is removed like one that has no
    count.  A record given to the contributor collector without a count gets,
    from a landing page answered with status 200, the number read from the
    sidebar element, and exactly 1 when the page has no such element. *)
Theorem filter_keeps_truthy_counts :
  (∀ w repos,
     repos_var w = Some repos →
     ∃ kept,
       drop_invalid w = (Returned tt, assign_repos (Some kept) w, [])
       ∧ ∀ r, r ∈ kept ↔ r ∈ repos ∧ truthy (get r "contributor_count") = true)
  ∧ (∀ r,
       get r "contributor_count" = VNumber (Num 0)
       ∨ get r "contributor_count" = VNumber NaN
       ∨ attrs r !! "contributor_count" = None →
       truthy (get r "contributor_count") = false)
  ∧ (∀ net r w response,
       attrs r !! "contributor_count" = None →
       net_fetch net (clock w) "GET" (landing_page r) = Some response →
       status response = 200 →
       (∀ span,
          html (body response (contributors_count r)) = Some span →
          getContributorCounts net [r] w
          = ([set "contributor_count" (VNumber (ToNumber (trim span))) r],
             Returned tt, tick w,
             [CollectorStarted "Getting contributor counts" [r];
              Requested (Fetch "GET" (landing_page r))]))
       ∧ (body response (contributors_count r) = [] →
          getContributorCounts net [r] w
          = ([set "contributor_count" (VNumber (Num 1)) r],
             Returned tt, tick w,
             [CollectorStarted "Getting contributor counts" [r];
              Requested (Fetch "GET" (landing_page r))]))).
Proof.
  split; [|split].
  - intros w repos Hrepos. eexists. split.
    + unfold drop_invalid, with_repos, set_repos. by rewrite Hrepos.
    + intros r. rewrite list_elem_of_In, filter_In, <- list_elem_of_In. done.
  - intros r [->|[->|Hnone]]; [done|done|]. unfold get. by rewrite Hnone.
  - intros net r w response Hnone Hfetch Hstatus.
    assert (hasOwnProperty r "contributor_count" = false) as Hhas
      by (by apply hasOwnProperty_None).
    pose proof (getContributorCounts_body_page net r w response Hhas Hfetch Hstatus)
      as Hbody.
    split.
    + intros span Hspan. unfold getContributorCounts, collect. simpl.
      rewrite Hbody, Hspan. done.
    + intros Hempty. unfold getContributorCounts, collect. simpl.
      rewrite Hbody, Hempty. done.
Qed.

Lemma filter_keeps_truthy_counts_witness :
  getContributorCounts bare_net [example_repo ∅] cold_start
  = ([set "contributor_count" (VNumber (Num 1)) (example_repo ∅)],
     Returned tt, tick cold_start,
     [CollectorStarted "Getting contributor counts" [example_repo ∅];
      Requested (Fetch "GET" (landing_page (example_repo ∅)))]).
Proof.
  apply (proj2 (proj2 (proj2 filter_keeps_truthy_counts)
                  bare_net (example_repo ∅) cold_start
                  (mkResponse 200 (landing_page (example_repo ∅)) None (page None))
                  ltac:(by vm_compute) ltac:(by vm_compute) ltac:(by vm_compute))).
  by vm_compute.
Defined.

(** ** Environments and deployments *)

Lemma getDeployments_body_total net r w :
  ∃ r' w' evs, getDeployments_body net r w = (Returned r', w', evs).
Proof.
  unfold getDeployments_body, try_catch, bind, octokit, ret.
  repeat case_match; simplify_eq; by eexists _, _, _.
Qed.

Lemma getEnvironments_body_total net r w :
  ∃ r' w' evs, getEnvironments_body net r w = (Returned r', w', evs).
Proof.
  unfold getEnvironments_body, try_catch, bind, octokit, ret.
  repeat case_match; simplify_eq; by eexists _, _, _.
Qed.

Lemma getDeployments_body_no_environments net r w :
  get r "environments" = VArray [] →
  attrs r !! "has_deployments" = None →
  getDeployments_body net r w
  = (Returned (set "has_deployments" (VBool false) r), w, []).
Proof.
  intros Henv Hnone. unfold getDeployments_body.
  rewrite (hasOwnProperty_None _ _ Hnone), Henv. done.
Qed.


(** ** The order of the collectors *)















(** C9. For a record without the environments attribute on which the
    listing of the environments fails, with whatever error: the environments
    collector sets the attribute to the empty list, after the one request;
    run again on that record it makes no request; and the deployments
    collector, given the record as it then is or with other attributes added,
    sets [has_deployments] to false, unless the record has it already,
    without a request.  Both values are what the checkpoint holds. *)
Theorem environments_error_means_no_deployments
        (net : network) (r : RepositoryRecord) (w : world) (e : api_error) :
  attrs r !! "environments" = None →
  net_environments net (clock w) (owner r) (repo r) = ApiFail e →
  let r1 := set "environments" (VArray []) r in
  getEnvironments net [r] w
  = ([r1], Returned tt, tick w,
     [CollectorStarted "Getting environments" [r];
      Requested (GetAllEnvironments (owner r) (repo r))])
  ∧ (∀ w1, getEnvironments net [r1] w1
           = ([r1], Returned tt, w1, [CollectorStarted "Getting environments" [r1]]))
  ∧ (∀ r2 w2,
       get r2 "environments" = get r1 "environments" →
       attrs r2 !! "has_deployments" = None →
       getDeployments net [r2] w2
       = ([set "has_deployments" (VBool false) r2], Returned tt, w2,
          [CollectorStarted "Getting deployments" [r2]])
       ∧ get (json_record (set "has_deployments" (VBool false) r2)) "has_deployments"
         = VBool false
       ∧ get (json_record (set "has_deployments" (VBool false) r2)) "environments"
         = VArray []).
Proof.
  intros Hnone Hfail r1. split; [|split].
  - unfold getEnvironments, collect. simpl.
    unfold getEnvironments_body, try_catch, bind, octokit.
    rewrite (hasOwnProperty_None _ _ Hnone), Hfail. done.
  - intros w1. unfold getEnvironments, collect. simpl.
    unfold getEnvironments_body. rewrite hasOwnProperty_Some; [done|].
    unfold r1. simpl. by rewrite lookup_insert_eq.
  - intros r2 w2 Henv Hdep.
    assert (get r2 "environments" = VArray []) as Henv2.
    { rewrite Henv. unfold get, r1. simpl. by rewrite lookup_insert_eq. }
    split; [|split].
    + unfold getDeployments, collect. simpl.
      by rewrite getDeployments_body_no_environments.
    + unfold get, json_record. simpl. rewrite lookup_omap, lookup_insert_eq. done.
    + unfold get, json_record. simpl. rewrite lookup_omap.
      rewrite lookup_insert_ne by done.
      unfold get in Henv2. destruct (attrs r2 !! "environments") as [v|]; [|done].
      simpl in *. by subst.
Qed.

Lemma environments_error_means_no_deployments_witness :
  getEnvironments (example_net 200) [example_repo ∅] cold_start
  = ([set "environments" (VArray []) (example_repo ∅)], Returned tt, tick cold_start,
     [CollectorStarted "Getting environments" [example_repo ∅];
      Requested (GetAllEnvironments (Some "o") (Some "a"))]).
Proof.
  exact (proj1 (environments_error_means_no_deployments
                  (example_net 200) (example_repo ∅) cold_start
                  (mkApiError (Some 500)) ltac:(by vm_compute) ltac:(by vm_compute))).
Defined.

(** ** Throttling *)

(** The wait before a retry after a rate limit: the pause the hook makes
    itself when the server indicates less than 10 seconds, then the indicated
    wait. *)
Lemma onRateLimit_wants_retry retryAfter retryCount :
  Throttle.wantRetry (Throttle.onRateLimit retryAfter retryCount)
  = (retryCount <=? 2).
Proof. unfold Throttle.onRateLimit. by destruct (retryCount <=? 2). Qed.

Lemma onRateLimit_slept retryAfter retryCount :
  Throttle.slept_ms (Throttle.onRateLimit retryAfter retryCount)
  = if retryAfter <? 10 then 1000 else 0.
Proof. unfold Throttle.onRateLimit. by destruct (retryCount <=? 2). Qed.

(** C6. A request that is rate limited at every attempt is sent four times:
    the hook asks for a retry at the retry counts 0, 1 and 2, so three
    retries are made, each after the indicated wait (plus one second when
    that wait is under 10 seconds), before the error surfaces. *)
Theorem rate_limit_retried_three_times {A} (retryAfter : Z) (spare : nat) :
  let wait := (if retryAfter <? 10 then 1000 else 0) + 1000 * retryAfter in
  Throttle.request (4 + spare) (fun _ => Throttle.RateLimit (A := A) retryAfter)
  = Some (Throttle.mkRun None 4%nat [wait; wait; wait]
            [ Throttle.WarnQuotaExhausted; Throttle.LogRetrying;
              Throttle.WarnQuotaExhausted; Throttle.LogRetrying;
              Throttle.WarnQuotaExhausted; Throttle.LogRetrying;
              Throttle.WarnQuotaExhausted ]).
Proof.
  unfold Throttle.request. simpl. unfold Throttle.onRateLimit. simpl.
  by destruct (retryAfter <? 10).
Qed.

(** * Part IV: further properties of the code *)

(** ** Throttling hooks *)

Lemma send_abuse_stops {A} (server : nat → Throttle.signal A) fuel k j retryAfter r :
  server j = Throttle.AbuseLimit retryAfter →
  (k ≤ j)%nat →
  Throttle.send fuel server k = Some r →
  (Throttle.attempts r ≤ S (j - k))%nat.
Proof.
  intros Habuse. revert k r. induction fuel as [|fuel IH]; intros k r Hk; [done|].
  simpl. destruct (decide (k = j)) as [->|Hne].
  - rewrite Habuse. simpl. intros [= <-]. simpl. lia.
  - destruct (server k) as [a|ra|ra]; simpl.
    + intros [= <-]. simpl. lia.
    + destruct (Throttle.wantRetry _).
      * destruct (Throttle.send fuel server (S k)) as [r'|] eqn:Hsend; [|done].
        intros [= <-]. simpl. apply IH in Hsend; lia.
      * intros [= <-]. simpl. lia.
    + intros [= <-]. simpl. lia.
Qed.

(** X1. Whatever the server answers, four units of fuel are enough for a
    request to end, more change nothing, at most four attempts are made, one
    wait precedes each retry, and no attempt follows an abuse signal. *)
Theorem throttled_request_bounded {A} (server : nat → Throttle.signal A) (spare : nat) :
  ∃ r, Throttle.request 4 server = Some r
       ∧ Throttle.request (4 + spare) server = Some r
       ∧ (1 ≤ Throttle.attempts r ≤ 4)%nat
       ∧ S (length (Throttle.delays_ms r)) = Throttle.attempts r
       ∧ ∀ j retryAfter, server j = Throttle.AbuseLimit retryAfter →
                         (Throttle.attempts r ≤ S j)%nat.
Proof.
  assert (∃ r, Throttle.request 4 server = Some r
               ∧ Throttle.request (4 + spare) server = Some r
               ∧ (1 ≤ Throttle.attempts r ≤ 4)%nat
               ∧ S (length (Throttle.delays_ms r)) = Throttle.attempts r)
    as (r & H4 & Hspare & Hatt & Hdel).
  { unfold Throttle.request. simpl.
    destruct (server 0%nat) as [?|?|?]; simpl; [by eexists; repeat split; simpl; lia| |by eexists; repeat split; simpl; lia].
    destruct (server 1%nat) as [?|?|?]; simpl; [by eexists; repeat split; simpl; lia| |by eexists; repeat split; simpl; lia].
    destruct (server 2%nat) as [?|?|?]; simpl; [by eexists; repeat split; simpl; lia| |by eexists; repeat split; simpl; lia].
    destruct (server 3%nat) as [?|?|?]; simpl; by eexists; repeat split; simpl; lia. }
  exists r. repeat split; try done; try lia.
  intros j retryAfter Habuse.
  pose proof (send_abuse_stops server 4 0 j retryAfter r Habuse) as H.
  rewrite Nat.sub_0_r in H. apply H; [lia|exact H4].
Qed.

(** X2. A request rate limited twice and answered at the third attempt gives
    that answer, after exactly two waits, each the indicated wait plus the
    hook's own pause of one second when the indicated wait is under ten
    seconds. *)
Theorem rate_limit_recovery {A} (server : nat → Throttle.signal A)
        (first second : Z) (a : A) (spare : nat) :
  server 0%nat = Throttle.RateLimit first →
  server 1%nat = Throttle.RateLimit second →
  server 2%nat = Throttle.Answer a →
  ∃ log,
    Throttle.request (3 + spare) server
    = Some (Throttle.mkRun (Some a) 3%nat
              [ (if first <? 10 then 1000 else 0) + 1000 * first;
                (if second <? 10 then 1000 else 0) + 1000 * second ] log).
Proof.
  intros H0 H1 H2. unfold Throttle.request. simpl. rewrite H0. simpl.
  rewrite H1. simpl. rewrite H2. simpl. by eexists.
Qed.

Lemma rate_limit_recovery_witness :
  ∃ log,
    Throttle.request 3
      (fun k => if (k <? 2)%nat then Throttle.RateLimit 0 else Throttle.Answer 7)
    = Some (Throttle.mkRun (Some 7) 3%nat [1000; 1000] log).
Proof.
  exact (rate_limit_recovery
           (fun k => if (k <? 2)%nat then Throttle.RateLimit 0 else Throttle.Answer 7)
           0 0 7 0 eq_refl eq_refl eq_refl).
Defined.

(** ** Record store and checkpoint *)

Lemma keep_first_sublist seen (l : list RepositoryRecord) :
  keep_first_per_identity seen l `sublist_of` l.
Proof.
  revert seen. induction l as [|r l IH]; intros seen; simpl; [done|].
  case_bool_decide; [by apply sublist_cons|by apply sublist_skip].
Qed.

(** X3. Removing duplicates keeps the records in their order, does nothing more
    when applied again, and leaves a list unchanged exactly when no identity
    occurs twice in it. *)
Theorem removeDuplicateRepos_stable (l : list RepositoryRecord) :
  removeDuplicateRepos l `sublist_of` l
  ∧ removeDuplicateRepos (removeDuplicateRepos l) = removeDuplicateRepos l
  ∧ (NoDup (identity <$> l) ↔ removeDuplicateRepos l = l).
Proof.
  split; [|split].
  - rewrite removeDuplicateRepos_keep_first. apply keep_first_sublist.
  - rewrite (removeDuplicateRepos_keep_first (removeDuplicateRepos l)).
    apply keep_first_id; [|intros; apply not_elem_of_nil].
    rewrite removeDuplicateRepos_keep_first. apply keep_first_NoDup.
  - split.
    + intros Hnd. rewrite removeDuplicateRepos_keep_first.
      apply keep_first_id; [done|intros; apply not_elem_of_nil].
    + intros <-. rewrite removeDuplicateRepos_keep_first. apply keep_first_NoDup.
Qed.

Lemma json_value_idempotent v v' :
  json_value v = Some v' → json_value v' = Some v'.
Proof. destruct v as [| | |[|]| | |]; intros [= <-]; done. Qed.

Lemma json_record_idempotent r : json_record (json_record r) = json_record r.
Proof.
  unfold json_record. simpl. f_equal. apply map_eq. intros k.
  rewrite !lookup_omap. destruct (attrs r !! k) as [v|]; simpl; [|done].
  destruct (json_value v) as [v'|] eqn:Hv; simpl; [|done].
  by apply json_value_idempotent in Hv.
Qed.

(** X4. What the checkpoint keeps of the records: their identity and order; every
    attribute except those whose value is undefined, which are left out; the
    values as they are except NaN, which becomes null.  Saving what was loaded
    changes nothing, and loading after a save gives what was saved. *)
Theorem checkpoint_round_trip (l : list RepositoryRecord) (w : world) :
  to_json (to_json l) = to_json l
  ∧ identity <$> to_json l = identity <$> l
  ∧ (∀ r k, attrs (json_record r) !! k
            = match attrs r !! k with
              | Some VUndefined | None => None
              | Some (VNumber NaN) => Some VNull
              | Some v => Some v
              end)
  ∧ (let '(_, saved, _) := writeRawDataToJsonFile l "repos.json" w in
     load_saved saved = (Returned (to_json l), saved, [])).
Proof.
  split; [|split; [|split]].
  - unfold to_json. rewrite <- list_fmap_compose. apply list_fmap_ext.
    intros _ r _. apply json_record_idempotent.
  - unfold to_json. rewrite <- list_fmap_compose. by apply list_fmap_ext.
  - intros r k. unfold json_record. simpl. rewrite lookup_omap.
    by destruct (attrs r !! k) as [[| | |[|]| | |]|].
  - unfold writeRawDataToJsonFile, write_file, load_saved. simpl.
    by rewrite lookup_insert_eq.
Qed.

Lemma trim_repo_lookup_None hit k :
  k ≠ "license" → k ∉ trimmed_fields.*1 →
  attrs (trim_repo hit) !! k = None.
Proof.
  intros Hlicense Hk. unfold trim_repo. cbn [attrs].
  rewrite lookup_insert_ne by done.
  apply not_elem_of_list_to_map_1. rewrite <- list_fmap_compose.
  erewrite list_fmap_ext; [exact Hk|]. by intros i [k1 k2] _.
Qed.

(** X5. A record made from a search hit has none of the attributes the
    collectors test, so every collector works on it; and its license is
    "None" without a license, "Non-standard" for NOASSERTION, the SPDX
    identifier otherwise. *)
Theorem discovered_records_are_fresh
        (net : network) (key : string) (c : collector) (hit : api_repo) :
  (key, c) ∈ collectors net →
  attrs (trim_repo hit) !! key = None
  ∧ identity (trim_repo hit) = (api_owner_login hit, api_name hit)
  ∧ get (trim_repo hit) "license"
    = match api_license hit with
      | None => VString "None"
      | Some spdx_id =>
          if bool_decide (spdx_id = VString "NOASSERTION")
          then VString "Non-standard" else spdx_id
      end.
Proof.
  intros Hin. split; [|split; [done|]].
  - unfold collectors in Hin.
    repeat (apply elem_of_cons in Hin as [Heq|Hin]);
      [ injection Heq as -> _ ..| by apply elem_of_nil in Hin ];
      (apply trim_repo_lookup_None; [done|apply (bool_decide_unpack _); by vm_compute]).
  - unfold get, trim_repo. cbn [attrs]. by rewrite lookup_insert_eq.
Qed.

Lemma discovered_records_are_fresh_witness :
  attrs (trim_repo (mkApiRepo (Some "o") (Some "a") (Some "main")
                              (Some (VString "NOASSERTION")) ∅))
    !! "languages" = None.
Proof.
  apply (discovered_records_are_fresh
           bare_net "languages" (getLanguages bare_net)
           (mkApiRepo (Some "o") (Some "a") (Some "main")
                      (Some (VString "NOASSERTION")) ∅)
           ltac:(unfold collectors; repeat constructor)).
Defined.

(** ** The existence probe at work *)

Lemma head_check_run net url_ w :
  ∃ h w' again,
    head_check net url_ w
    = (Returned h, w',
       Requested <$> (Fetch "HEAD" url_ :: if again : bool then [Fetch "HEAD" url_] else []))
    ∧ files w' = files w ∧ repos_var w' = repos_var w.
Proof.
  unfold head_check, fetchWithRetryAndLogging, bind, fetch, ret, throw.
  destruct (net_fetch net (clock w) "HEAD" url_) as [response|].
  - by eexists _, _, false.
  - simpl. destruct (net_fetch net (S (clock w)) "HEAD" url_) as [response|];
      by eexists _, _, true.
Qed.

Lemma head_checks_run net urls w :
  ∃ heads w' reqs,
    head_checks net urls w = (Returned heads, w', Requested <$> reqs)
    ∧ length heads = length urls
    ∧ files w' = files w ∧ repos_var w' = repos_var w
    ∧ (∀ r, r ∈ reqs ↔ ∃ u, u ∈ urls ∧ r = Fetch "HEAD" u)
    ∧ (length urls ≤ length reqs ≤ 2 * length urls)%nat.
Proof.
  revert w. induction urls as [|u urls IH]; intros w.
  - exists [], w, []. repeat split; try done.
    + by intros ?%elem_of_nil.
    + by intros (? & ?%elem_of_nil & _).
  - simpl. unfold bind at 1.
    destruct (head_check_run net u w) as (h & w1 & again & -> & Hf1 & Hr1).
    unfold bind at 1.
    destruct (IH w1) as (heads & w2 & reqs & -> & Hlen & Hf2 & Hr2 & Hin & Hcount).
    exists (h :: heads), w2,
      ((Fetch "HEAD" u :: if again then [Fetch "HEAD" u] else []) ++ reqs).
    split; [by unfold ret; cbv beta iota; rewrite fmap_app, app_nil_r|].
    split; [by simpl; rewrite Hlen|].
    split; [congruence|]. split; [congruence|]. split.
    + intros r. rewrite elem_of_app, Hin. split.
      * intros [Hr|(u' & Hu' & ->)].
        -- exists u. split; [by left|].
           destruct again; repeat (apply elem_of_cons in Hr as [->|Hr]; [done|]);
             by apply elem_of_nil in Hr.
        -- exists u'. split; [by right|done].
      * intros (u' & [->|Hu']%elem_of_cons & ->); [left; by left|].
        right. by exists u'.
    + rewrite length_app. destruct again; simpl; lia.
Qed.

(** X6. The probe checks every candidate, with HEAD requests only, once each and
    a second time when the connection failed; it does so also when an early
    candidate exists.  Its result is the one [Promise.any] followed by the
    [catch] gives on the outcomes of these checks, in whatever order they
    complete. *)
Theorem doesAnyFileExist_checks_every_candidate
        (net : network) (urls : list string) (w : world) :
  ∃ heads reqs,
    let '(o, w', evs) := doesAnyFileExist net urls w in
    head_checks net urls w = (Returned heads, w', evs)
    ∧ length heads = length urls
    ∧ (∀ order, order ≡ₚ seq 0 (length heads) →
         doesAnyFileExist_settled heads order
         = match o with
           | Returned found => ProbeResolved found
           | Thrown (AggregateError errors) => ProbeFailed errors
           | _ => ProbePending
           end)
    ∧ evs = Requested <$> reqs
    ∧ (∀ r, r ∈ reqs ↔ ∃ u, u ∈ urls ∧ r = Fetch "HEAD" u)
    ∧ (length urls ≤ length reqs ≤ 2 * length urls)%nat
    ∧ files w' = files w ∧ repos_var w' = repos_var w.
Proof.
  destruct (head_checks_run net urls w)
    as (heads & w' & reqs & Hrun & Hlen & Hf & Hr & Hin & Hcount).
  exists heads, reqs. unfold doesAnyFileExist, bind. rewrite Hrun.
  rewrite promise_any_in_order_spec. simpl.
  destruct (decide (HeadStatus 200 ∈ heads)) as [Hfound|Hnone].
  - simpl. rewrite app_nil_r. repeat split; try done; try lia; try apply Hin.
    intros order Hp. by apply probe_found.
  - destruct (every is_404 (reason <$> heads)) eqn:Hevery; simpl;
      rewrite app_nil_r; repeat split; try done; try lia; try apply Hin;
      intros order Hp; rewrite probe_none_found by done;
      unfold on_aggregate_error; by rewrite Hevery.
Qed.

(** ** Collectors that never stop a batch *)

Lemma for_of_total body (P : RepositoryRecord → Prop) l w :
  (∀ r w, ∃ r' w' evs, body r w = (Returned r', w', evs) ∧ P r') →
  ∃ l' w' evs, for_of body l w = (l', Returned tt, w', evs) ∧ Forall P l'.
Proof.
  intros Hbody. revert w. induction l as [|r l IH]; intros w; simpl.
  - by eexists _, _, _.
  - destruct (Hbody r w) as (r' & w1 & evs1 & -> & HP).
    destruct (IH w1) as (l' & w2 & evs2 & -> & HPs).
    eexists _, _, _. split; [done|]. by constructor.
Qed.

Lemma getReadmeLengths_body_sets net r w :
  ∃ r' w' evs, getReadmeLengths_body net r w = (Returned r', w', evs)
               ∧ is_Some (attrs r' !! "readme_size").
Proof.
  unfold getReadmeLengths_body.
  destruct (hasOwnProperty r "readme_size") eqn:Hhas.
  { eexists _, _, _. split; [done|]. by apply bool_decide_eq_true in Hhas. }
  unfold try_catch, bind, fetchWithRetryAndLogging, bind, fetch, ret, throw.
  repeat case_match; simplify_eq; eexists _, _, _; (split; [done|apply set_has]).
Qed.

Lemma getEnvironments_body_sets net r w :
  ∃ r' w' evs, getEnvironments_body net r w = (Returned r', w', evs)
               ∧ is_Some (attrs r' !! "environments").
Proof.
  unfold getEnvironments_body.
  destruct (hasOwnProperty r "environments") eqn:Hhas.
  { eexists _, _, _. split; [done|]. by apply bool_decide_eq_true in Hhas. }
  unfold try_catch, bind, octokit, ret.
  repeat case_match; simplify_eq; eexists _, _, _; (split; [done|apply set_has]).
Qed.

Lemma tolerant_deployments net l w :
  ∃ l' w' evs, getDeployments net l w = (l', Returned tt, w', evs).
Proof.
  destruct (for_of_total (getDeployments_body net) (fun _ => True) l w)
    as (l' & w' & evs & Hrun & _).
  { intros r w0. destruct (getDeployments_body_total net r w0) as (r' & w' & evs & ->).
    by eexists _, _, _. }
  unfold getDeployments, collect. rewrite Hrun. by eexists _, _, _.
Qed.

(** X7. Whatever the network answers, the README, environments and deployments
    collectors go through the whole list and return: no error of theirs ends
    a batch.  After the first two, every record has the attribute. *)
Theorem tolerant_collectors_return
        (net : network) (l : list RepositoryRecord) (w : world) :
  (∃ l' w' evs, getReadmeLengths net l w = (l', Returned tt, w', evs)
                ∧ Forall (fun r => is_Some (attrs r !! "readme_size")) l')
  ∧ (∃ l' w' evs, getEnvironments net l w = (l', Returned tt, w', evs)
                  ∧ Forall (fun r => is_Some (attrs r !! "environments")) l')
  ∧ (∃ l' w' evs, getDeployments net l w = (l', Returned tt, w', evs)).
Proof.
  split; [|split].
  - destruct (for_of_total (getReadmeLengths_body net) _ l w
                (getReadmeLengths_body_sets net))
      as (l' & w' & evs & Hrun & HP).
    unfold getReadmeLengths, collect. rewrite Hrun. by eexists _, _, _.
  - destruct (for_of_total (getEnvironments_body net) _ l w
                (getEnvironments_body_sets net))
      as (l' & w' & evs & Hrun & HP).
    unfold getEnvironments, collect. rewrite Hrun. by eexists _, _, _.
  - apply tolerant_deployments.
Qed.

(** X8. When listing the deployments of a record fails, the error is swallowed:
    with status 502 the record is marked as having deployments; with any
    other error it is left without the attribute, so that a later run of the
    collector asks again. *)
Theorem getDeployments_error_policy
        (net : network) (r : RepositoryRecord) (w : world) (e : api_error) :
  attrs r !! "has_deployments" = None →
  (get r "environments" = VUndefined
   ∨ ∃ name names, get r "environments" = VArray (name :: names)) →
  net_deployments net (clock w) (owner r) (repo r) = ApiFail e →
  let r' := if bool_decide (err_status e = Some 502)
            then set "has_deployments" (VBool true) r else r in
  getDeployments net [r] w
  = ([r'], Returned tt, tick w,
     [CollectorStarted "Getting deployments" [r];
      Requested (ListDeployments (owner r) (repo r))])
  ∧ (err_status e ≠ Some 502 →
     ∀ w2, ∃ r2,
       getDeployments net [r'] w2
       = ([r2], Returned tt, tick w2,
          [CollectorStarted "Getting deployments" [r'];
           Requested (ListDeployments (owner r) (repo r))])).
Proof.
  intros Hnone Henv Hfail r'.
  assert (hasOwnProperty r "has_deployments" = false) as Hhas
    by (by apply hasOwnProperty_None).
  assert (truthy (get r "environments")
          && bool_decide (length_of (get r "environments") = VNumber (Num 0)) = false)
    as Hcond.
  { by destruct Henv as [->|(name & names & ->)]. }
  split.
  - unfold getDeployments, collect. simpl. unfold getDeployments_body.
    rewrite Hhas, Hcond. unfold try_catch, bind, octokit. rewrite Hfail.
    unfold r'. destruct e as [[z|]]; simpl.
    + destruct (decide (z = 502)) as [->|Hz]; [done|].
      rewrite bool_decide_eq_false_2 by congruence.
      assert (∀ (A : Type) (a b : A), match z with 502 => a | _ => b end = b) as ->; [|done].
      intros A a b. repeat case_match; simplify_eq; done.
    + done.
  - intros Hother w2. unfold r'. rewrite bool_decide_eq_false_2 by done.
    unfold getDeployments, collect. simpl. unfold getDeployments_body.
    rewrite Hhas, Hcond. unfold try_catch, bind, octokit, ret.
    destruct (net_deployments net (clock w2) (owner r) (repo r)) as [n|e2].
    + by eexists.
    + repeat case_match; simplify_eq; by eexists.
Qed.

Lemma getDeployments_error_policy_witness :
  getDeployments bare_net [example_repo ∅] cold_start
  = ([example_repo ∅], Returned tt, tick cold_start,
     [CollectorStarted "Getting deployments" [example_repo ∅];
      Requested (ListDeployments (Some "o") (Some "a"))]).
Proof.
  exact (proj1 (getDeployments_error_policy
                  bare_net (example_repo ∅) cold_start (mkApiError None)
                  ltac:(by vm_compute) ltac:(by left; vm_compute)
                  ltac:(by vm_compute))).
Defined.

(** ** Running a collector again *)

(** Every collector but the deployments one is the loop of a body that skips
    a record having the collector's key and, when it returns, has set it. *)
Lemma collectors_complete net key c :
  (key, c) ∈ collectors net →
  key ≠ "has_deployments" →
  ∃ message body,
    c = collect message body
    ∧ (∀ r, hasOwnProperty r key = true → ∀ w, body r w = (Returned r, w, []))
    ∧ (∀ r, quiet (body r) (fun r' => is_Some (attrs r' !! key))).
Proof.
  unfold collectors. intros Hin Hkey.
  repeat (apply elem_of_cons in Hin as [Heq|Hin]);
    [ injection Heq as -> -> ..| by apply elem_of_nil in Hin ];
    try done;
    (eexists _, _; split; [reflexivity|]); (split; [intros r Hhas w|intros r]).
  - unfold getContributorCounts_body. by rewrite Hhas.
  - unfold getContributorCounts_body. cbv zeta. sets_key.
  - unfold getReadmeLengths_body. by rewrite Hhas.
  - unfold getReadmeLengths_body. sets_key.
  - unfold getCommunityProfileMetrics_body. by rewrite Hhas.
  - unfold getCommunityProfileMetrics_body. cbv zeta. sets_key.
  - unfold getLanguages_body. by rewrite Hhas.
  - unfold getLanguages_body. sets_key.
  - unfold getEnvironments_body. by rewrite Hhas.
  - unfold getEnvironments_body. sets_key.
  - unfold getReleases_body. by rewrite Hhas.
  - unfold getReleases_body. cbv zeta. sets_key.
  - unfold getWorkflows_body. by rewrite Hhas.
  - unfold getWorkflows_body. cbv zeta. sets_key.
  - unfold getIssueLabelsCount_body. by rewrite Hhas.
  - unfold getIssueLabelsCount_body. cbv zeta. sets_key.
  - unfold getMilestones_body. by rewrite Hhas.
  - unfold getMilestones_body. cbv zeta. sets_key.
  - unfold getSecurityFiles_body. by rewrite Hhas.
  - unfold getSecurityFiles_body. cbv zeta. sets_key.
  - unfold getSupportFiles_body. by rewrite Hhas.
  - unfold getSupportFiles_body. cbv zeta. sets_key.
  - unfold getFundingFiles_body. by rewrite Hhas.
  - unfold getFundingFiles_body. cbv zeta. sets_key.
  - unfold getCodeowners_body. by rewrite Hhas.
  - unfold getCodeowners_body. cbv zeta. sets_key.
  - unfold getChangelog_body. by rewrite Hhas.
  - unfold getChangelog_body. cbv zeta. sets_key.
  - unfold getCodespaces_body. by rewrite Hhas.
  - unfold getCodespaces_body. cbv zeta. sets_key.
  - unfold getDiscussions_body. by rewrite Hhas.
  - unfold getDiscussions_body. cbv zeta. sets_key.
  - unfold getDependabot_body. by rewrite Hhas.
  - unfold getDependabot_body. cbv zeta. sets_key.
Qed.

Lemma for_of_nothing_to_do body l w :
  Forall (fun r => ∀ w, body r w = (Returned r, w, [])) l →
  for_of body l w = (l, Returned tt, w, []).
Proof.
  induction 1 as [|r l Hr Hl IH]; simpl; [done|]. by rewrite Hr, IH.
Qed.

(** X9. A collector other than the deployments one that went through a list and
    returned has set its attribute on every record; run again on the result,
    in whatever state, it makes no request and changes nothing.  (The
    deployments collector may leave a record without its attribute, see
    above.) *)
Theorem collectors_finish_their_work
        (net : network) (key : string) (c : collector)
        (l : list RepositoryRecord) (w : world) :
  (key, c) ∈ collectors net →
  key ≠ "has_deployments" →
  let '(l', o, _, _) := c l w in
  o = Returned tt →
  Forall (fun r => is_Some (attrs r !! key)) l'
  ∧ ∀ w2, ∃ message, c l' w2 = (l', Returned tt, w2, [CollectorStarted message l']).
Proof.
  intros Hc Hkey.
  destruct (collectors_complete net key c Hc Hkey)
    as (message & body & -> & Hskip & Hsets).
  unfold collect at 1.
  pose proof (for_of_returned body _ l w Hsets) as Hall.
  destruct (for_of body l w) as [[[l' o] w'] evs]. intros Ho.
  specialize (Hall Ho). split; [done|].
  intros w2. exists message. unfold collect.
  rewrite for_of_nothing_to_do; [done|].
  eapply Forall_impl; [exact Hall|]. intros r Hr. apply Hskip.
  by apply bool_decide_eq_true.
Qed.

Lemma collectors_finish_their_work_witness :
  Forall (fun r => is_Some (attrs r !! "languages"))
         [set "languages" (VObject {[ "JavaScript" := 10 ]}) (example_repo ∅)].
Proof.
  exact (proj1 (collectors_finish_their_work
                  (example_net 200) "languages" (getLanguages (example_net 200))
                  [example_repo ∅] cold_start
                  ltac:(unfold collectors; repeat constructor)
                  ltac:(done) eq_refl)).
Defined.

(** ** From the community profile to the README length *)

(** X10. For a record on which the community profile is still to be read and
    is read successfully: without a README the profile collector itself sets
    the README length to 0, whatever the record held, and the README
    collector then has nothing to do; with a README it stores the raw URL
    derived from the README's page, and the README collector, for a record
    without a length, sends its HEAD request to that URL, once more if the
    connection fails, and sets the length to the content length the answer
    announces when its status is 200, and to 0 when the status is another
    one or no answer came. *)
Theorem profile_then_readme
        (net : network) (r : RepositoryRecord) (w : world) (profile : community_files) :
  attrs r !! "has_code_of_conduct" = None →
  net_community net (clock w) (owner r) (repo r) = ApiOk profile →
  ∃ r1,
    getCommunityProfileMetrics_body net r w
    = (Returned r1, tick w,
       [Requested (GetCommunityProfileMetrics (owner r) (repo r))])
    ∧ match readme profile with
      | None =>
          get r1 "readme_size" = VNumber (Num 0)
          ∧ ∀ w1, getReadmeLengths_body net r1 w1 = (Returned r1, w1, [])
      | Some html_url =>
          let rawReadmeUrl :=
            "https://raw.githubusercontent.com/" +:+ tmpl (owner r) +:+ "/"
              +:+ tmpl (repo r) +:+ tmpl (split "blob" html_url !! 1%nat) in
          let size_from response :=
            if status response =? 200
            then ToNumber_nullable (content_length response) else Num 0 in
          get r1 "rawReadmeUrl" = VString rawReadmeUrl
          ∧ (attrs r !! "readme_size" = None →
             ∀ w1,
               getReadmeLengths_body net r1 w1
               = match net_fetch net (clock w1) "HEAD" rawReadmeUrl with
                 | Some response =>
                     (Returned (set "readme_size" (VNumber (size_from response)) r1),
                      tick w1, [Requested (Fetch "HEAD" rawReadmeUrl)])
                 | None =>
                     match net_fetch net (S (clock w1)) "HEAD" rawReadmeUrl with
                     | Some response =>
                         (Returned
                            (set "readme_size" (VNumber (size_from response)) r1),
                          tick (tick w1),
                          [Requested (Fetch "HEAD" rawReadmeUrl);
                           Requested (Fetch "HEAD" rawReadmeUrl)])
                     | None =>
                         (Returned (set "readme_size" (VNumber (Num 0)) r1),
                          tick (tick w1),
                          [Requested (Fetch "HEAD" rawReadmeUrl);
                           Requested (Fetch "HEAD" rawReadmeUrl)])
                     end
                 end)
      end.
Proof.
  intros Hnone Hprofile.
  unfold getCommunityProfileMetrics_body, bind, octokit.
  rewrite (hasOwnProperty_None _ _ Hnone), Hprofile.
  destruct (readme profile) as [html_url|]; cbv zeta; unfold ret;
    (eexists; split; [reflexivity|]).
  - match goal with
    | |- get ?r1 _ = ?u ∧ _ =>
        assert (get r1 "rawReadmeUrl" = u) as Hraw
          by (by unfold get; simpl; rewrite lookup_insert_eq);
        assert (attrs r !! "readme_size" = None →
                hasOwnProperty r1 "readme_size" = false) as Hfresh
          by (intros ?; apply hasOwnProperty_None; simpl;
              by rewrite !lookup_insert_ne by done);
        revert Hraw Hfresh; generalize r1
    end.
    intros r1 Hraw Hfresh.
    split; [done|]. intros Hsize w1. unfold getReadmeLengths_body.
    rewrite Hfresh, Hraw by done.
    unfold try_catch, bind, fetchWithRetryAndLogging, bind, fetch, ret, throw.
    destruct (net_fetch net (clock w1) "HEAD" _) as [response|]; cbv beta iota.
    + by destruct (status response =? 200).
    + change (clock (tick w1)) with (S (clock w1)).
      destruct (net_fetch net (S (clock w1)) "HEAD" _) as [response|];
        cbv beta iota; [|done]. by destruct (status response =? 200).
  - split; [by unfold get; simpl; rewrite lookup_insert_eq|].
    intros w1. unfold getReadmeLengths_body.
    rewrite hasOwnProperty_Some; [done|]. simpl. by rewrite lookup_insert_eq.
Qed.

Lemma profile_then_readme_witness :
  ∃ r1,
    getCommunityProfileMetrics_body (example_net 200) (example_repo ∅) cold_start
    = (Returned r1, tick cold_start,
       [Requested (GetCommunityProfileMetrics (Some "o") (Some "a"))])
    ∧ get r1 "rawReadmeUrl"
      = VString "https://raw.githubusercontent.com/o/a/main/README.md"
    ∧ getReadmeLengths_body (example_net 200) r1 (tick cold_start)
      = (Returned (set "readme_size" (VNumber (Num 0)) r1), tick (tick cold_start),
         [Requested (Fetch "HEAD"
                       "https://raw.githubusercontent.com/o/a/main/README.md")]).
Proof.
  destruct (profile_then_readme
              (example_net 200) (example_repo ∅) cold_start
              (mkFiles false false true false false
                       (Some "https://github.com/o/a/blob/main/README.md"))
              ltac:(by vm_compute) ltac:(by vm_compute)) as (r1 & Hrun & Hraw & Hsize).
  exists r1. split; [exact Hrun|]. split; [exact Hraw|].
  exact (Hsize eq_refl (tick cold_start)).
Defined.

(** ** What the collectors leave alone *)

(** X11. The collectors never add, drop or reorder records and never touch a
    record's identity, default branch or any attribute outside their own:
    the contributor collector writes [contributor_count] only, and
    [getDetails] writes none of the discovery attributes nor the contributor
    count.  Neither writes a file, changes what [repos] refers to, or leaves
    the process. *)
Theorem collectors_keep_records
        (net : network) (c : collector) (keys : list string)
        (l : list RepositoryRecord) (w : world) :
  (c = getContributorCounts net ∧ keys = ["contributor_count"])
  ∨ (c = getDetails net ∧ keys = detail_keys) →
  let '(l', o, w', evs) := c l w in
  length l' = length l
  ∧ identity <$> l' = identity <$> l
  ∧ default_branch <$> l' = default_branch <$> l
  ∧ (∀ k, k ∉ keys → (fun r => attrs r !! k) <$> l' = (fun r => attrs r !! k) <$> l)
  ∧ files w' = files w ∧ repos_var w' = repos_var w
  ∧ o ≠ Exited
  ∧ (∀ name content, Wrote name content ∉ evs).
Proof.
  intros Hc.
  assert (collector_ok keys c) as Hok.
  { destruct Hc as [[-> ->]|[-> ->]];
      [apply getContributorCounts_ok|apply getDetails_ok]. }
  specialize (Hok l w). destruct (c l w) as [[[l' o] w'] evs].
  destruct Hok as (Hfr & Hf & Hr & Ho & Hev).
  split; [symmetry; by eapply Forall2_length|].
  assert (∀ {B} (f : RepositoryRecord → B),
            (∀ r r', frame keys r r' → f r' = f r) → f <$> l' = f <$> l) as Hmap.
  { intros B f Hf'. clear Hev. induction Hfr as [|r r' l l' Hrr Hfr IH]; [done|].
    rewrite !fmap_cons. f_equal; [by apply Hf'|exact IH]. }
  repeat split; try done.
  - apply Hmap. intros r r'. apply frame_identity.
  - apply Hmap. by intros r r' (_ & _ & ? & _).
  - intros k Hk. apply Hmap. intros r r' (_ & _ & _ & Hat). by apply Hat.
  - intros name content Hin. rewrite Forall_forall in Hev. exact (Hev _ Hin).
Qed.

Lemma collectors_keep_records_witness :
  identity <$> (getDetails bare_net [example_repo ∅] cold_start).1.1.1
  = identity <$> [example_repo ∅].
Proof.
  pose proof (collectors_keep_records
                bare_net (getDetails bare_net) detail_keys [example_repo ∅] cold_start
                (or_intror (conj eq_refl eq_refl))) as H.
  destruct (getDetails bare_net [example_repo ∅] cold_start) as [[[l' o] w'] evs].
  exact (proj1 (proj2 H)).
Defined.

(** ** The dataset *)

Lemma arff_data_row_None r :
  arff_data_row r = None
  ↔ get r "languages" = VUndefined ∨ get r "languages" = VNull.
Proof.
  unfold arff_data_row.
  destruct (get r "languages"); simpl; (split; [|by intros [?|?]]); intros ?;
    first [done | by left | by right].
Qed.

Lemma arff_data_row_shape r row :
  arff_data_row r = Some row →
  last row = Some ("contributor_count", Cell (get r "contributor_count"))
  ∧ (length row = 38 ∨ length row = 39)%nat
  ∧ (∀ fields name,
       get r "languages" = VObject fields →
       property_key (get r "primary_language") = Some name →
       length row = 39%nat
       ↔ (∃ bytes, fields !! name = Some bytes ∧ bytes ≠ 0)
         ∨ (fields !! name = None ∧ name ∈ object_prototype)).
Proof.
  unfold arff_data_row. destruct (keys_count _) as [n|]; [|done]. intros [= <-].
  destruct (language_bytes _ _) as [bytes| |] eqn:Hread;
    [destruct (Z.eqb_spec bytes 0) as [->|Hne]| |];
    (split; [done|]);
    (split; [first [by left|by right]|]);
    intros fields name Hfields Hname; unfold language_bytes in Hread;
    rewrite Hfields, Hname in Hread;
    (destruct (fields !! name) as [bytes'|];
     [|destruct (bool_decide (name ∈ object_prototype)) eqn:Hproto]);
    simplify_eq.
  - split; [done|]. intros [(? & [= <-] & ?)|[[=] _]]. done.
  - split; [intros _|done]. left. by exists bytes.
  - apply bool_decide_eq_true in Hproto. split; [intros _|done]. by right.
  - apply bool_decide_eq_false in Hproto. split; [done|].
    intros [(? & [=] & _)|[_ ?]]. done.
Qed.

Lemma arff_data_rows (l : list RepositoryRecord) :
  match arff_data l with
  | Some rows => Forall2 (fun r row => arff_data_row r = Some row) l rows
  | None => ∃ r, r ∈ l ∧ arff_data_row r = None
  end.
Proof.
  induction l as [|r l IH]; simpl; [constructor|].
  destruct (arff_data_row r) as [row|] eqn:Hrow.
  - destruct (arff_data l) as [rows|].
    + by constructor.
    + destruct IH as (r' & Hin & Hnone). exists r'. split; [by right|done].
  - exists r. split; [by left|done].
Qed.

(** X12. Building the dataset either gives one row per record, in the order
    of the records, and writes them to the file; or, when the languages of
    some record are undefined or null, throws before anything is written.
    Each row has 38 or 39 columns, the contributor count being the last.
    For a record whose languages are an object, read with the primary
    language as key, the row has the 39th column ([primary_language_ratio])
    exactly when that read is truthy: the object has a non-zero entry under
    the key, or it has none and the key names a member every object
    inherits from [Object.prototype]. *)
Theorem writeToArffFile_rows
        (l : list RepositoryRecord) (filename : string) (w : world) :
  match writeToArffFile l filename w with
  | (Returned _, w', evs) =>
      ∃ rows,
        w' = store filename (ArffFile rows) w
        ∧ evs = [Wrote filename (ArffFile rows)]
        ∧ Forall2 (fun r row =>
                     last row = Some ("contributor_count",
                                      Cell (get r "contributor_count"))
                     ∧ (length row = 38 ∨ length row = 39)%nat
                     ∧ (∀ fields name,
                          get r "languages" = VObject fields →
                          property_key (get r "primary_language") = Some name →
                          length row = 39%nat
                          ↔ (∃ bytes, fields !! name = Some bytes ∧ bytes ≠ 0)
                            ∨ (fields !! name = None ∧ name ∈ object_prototype)))
                  l rows
  | (Thrown e, w', evs) =>
      e = TypeError ∧ w' = w ∧ evs = []
      ∧ ∃ r, r ∈ l ∧ (get r "languages" = VUndefined ∨ get r "languages" = VNull)
  | (Exited, _, _) => False
  end.
Proof.
  unfold writeToArffFile. pose proof (arff_data_rows l) as H.
  destruct (arff_data l) as [rows|]; simpl.
  - exists rows. repeat split; try done.
    eapply Forall2_impl; [exact H|]. intros r row. apply arff_data_row_shape.
  - destruct H as (r & Hin & Hnone). repeat split; try done.
    exists r. split; [done|]. by apply arff_data_row_None.
Qed.

(** ** Discovery requests of a batch *)

Lemma count_app p evs evs' :
  count p (evs ++ evs') = (count p evs + count p evs')%nat.
Proof. unfold count. by rewrite List.filter_app, length_app. Qed.

Lemma count_zero p evs e : count p evs = 0%nat → e ∈ evs → p e = false.
Proof.
  unfold count. intros Hcount Hin. destruct (p e) eqn:He; [|done].
  assert (In e (List.filter p evs)) as Hf.
  { apply filter_In. split; [by apply list_elem_of_In|done]. }
  destruct (List.filter p evs); [done|discriminate].
Qed.

Lemma count_last p evs e :
  last evs = Some e → p e = true → (1 ≤ count p evs)%nat.
Proof.
  intros Hlast He. destruct evs as [|e0 evs] using rev_ind; [done|].
  rewrite last_snoc in Hlast. injection Hlast as ->.
  rewrite count_app. unfold count at 2. simpl. rewrite He. simpl. lia.
Qed.

Section Searchless.

Variable net : network.

Lemma searchless_ret {A} (a : A) : searchless (ret a).
Proof. by intros w. Qed.

Lemma searchless_throw {A} (e : error) : searchless (throw (A := A) e).
Proof. by intros w. Qed.

Lemma searchless_bind {A B} (m : M A) (k : A → M B) :
  searchless m → (∀ a, searchless (k a)) → searchless (bind m k).
Proof.
  intros Hm Hk w. unfold bind. specialize (Hm w).
  destruct (m w) as [[[a|e|] w1] evs]; cbn [snd] in *; try done.
  specialize (Hk a w1). destruct (k a w1) as [[o w2] evs']. cbn [snd] in *.
  rewrite count_app. lia.
Qed.

Lemma searchless_try_catch {A} (m : M A) (h : error → M A) :
  searchless m → (∀ e, searchless (h e)) → searchless (try_catch m h).
Proof.
  intros Hm Hh w. unfold try_catch. specialize (Hm w).
  destruct (m w) as [[[a|e|] w1] evs]; cbn [snd] in *; try done.
  specialize (Hh e w1). destruct (h e w1) as [[o w2] evs']. cbn [snd] in *.
  rewrite count_app. lia.
Qed.

Lemma searchless_try_finally {A} (m : M A) (fin : M unit) :
  searchless m → searchless fin → searchless (try_finally m fin).
Proof.
  intros Hm Hfin w. unfold try_finally. specialize (Hm w).
  destruct (m w) as [[[a|e|] w1] evs]; cbn [snd] in *; try done;
    specialize (Hfin w1); destruct (fin w1) as [[[[]|e'|] w2] evs'];
    cbn [snd] in *; rewrite count_app; lia.
Qed.

Lemma searchless_fetchWithRetryAndLogging url_ method :
  searchless (fetchWithRetryAndLogging net url_ method).
Proof.
  intros w. unfold fetchWithRetryAndLogging, bind, fetch, ret, throw.
  destruct (net_fetch net (clock w) method url_); [done|]. simpl.
  by destruct (net_fetch net (S (clock w)) method url_).
Qed.

Lemma searchless_octokit {A} req (answer : nat → api_result A) :
  is_search (Requested req) = false → searchless (octokit req answer).
Proof.
  intros Hreq w. unfold octokit.
  destruct (answer (clock w)); cbn [snd]; unfold count; cbn [List.filter];
    by rewrite Hreq.
Qed.

Lemma searchless_head_checks urls : searchless (head_checks net urls).
Proof.
  intros w. destruct (head_checks_run net urls w)
    as (heads & w' & reqs & -> & _ & _ & _ & Hin & _). cbn [snd].
  assert (∀ r, r ∈ reqs → is_search (Requested r) = false) as Hreqs.
  { intros r (u & _ & ->)%Hin. done. }
  clear Hin. induction reqs as [|r reqs IH]; [done|].
  rewrite fmap_cons. unfold count. cbn [List.filter].
  rewrite Hreqs by (by left). apply IH. intros r' Hr'. apply Hreqs. by right.
Qed.

Lemma searchless_doesAnyFileExist urls : searchless (doesAnyFileExist net urls).
Proof.
  unfold doesAnyFileExist. apply searchless_bind; [apply searchless_head_checks|].
  intros heads. destruct (promise_any_in_order _ _); [apply searchless_ret|].
  destruct (every _ _); [apply searchless_ret|apply searchless_throw].
Qed.

Lemma for_of_searchless body l w :
  (∀ r, searchless (body r)) → count is_search (for_of body l w).2 = 0%nat.
Proof.
  intros Hbody. revert w. induction l as [|r l IH]; intros w; simpl; [done|].
  pose proof (Hbody r w) as Hr.
  destruct (body r w) as [[[r'|e|] w1] evs]; cbn [snd] in *; try done.
  specialize (IH w1). destruct (for_of body l w1) as [[[l' o] w2] evs'].
  cbn [snd] in *. rewrite count_app. lia.
Qed.

Lemma collect_searchless message body l w :
  (∀ r, searchless (body r)) → count is_search (collect message body l w).2 = 0%nat.
Proof.
  intros Hbody. unfold collect. pose proof (for_of_searchless body l w Hbody) as H.
  by destruct (for_of body l w) as [[[l' o] w'] evs].
Qed.

Lemma in_sequence_searchless cs l w :
  Forall (fun c : collector => ∀ l w, count is_search (c l w).2 = 0%nat) cs →
  count is_search (in_sequence cs l w).2 = 0%nat.
Proof.
  intros Hcs. revert l w. induction Hcs as [|c cs Hc Hcs IH]; intros l w; simpl; [done|].
  specialize (Hc l w). destruct (c l w) as [[[l1 [[]|e|]] w1] evs1]; cbn [snd] in *;
    try done.
  specialize (IH l1 w1). destruct (in_sequence cs l1 w1) as [[[l2 o2] w2] evs2].
  cbn [snd] in *. rewrite count_app. lia.
Qed.

End Searchless.

Ltac searchless_body :=
  repeat
    match goal with
    | |- searchless (ret _) => apply searchless_ret
    | |- searchless (throw _) => apply searchless_throw
    | |- searchless (fetchWithRetryAndLogging _ _ _) =>
        apply searchless_fetchWithRetryAndLogging
    | |- searchless (octokit _ _) => by apply searchless_octokit
    | |- searchless (doesAnyFileExist _ _) => apply searchless_doesAnyFileExist
    | |- searchless (bind _ _) => apply searchless_bind; [|intros ?]
    | |- searchless (try_catch _ _) => apply searchless_try_catch; [|intros ?]
    | |- searchless (if ?b then _ else _) => destruct b
    | |- searchless (match ?x with _ => _ end) => destruct x
    end.

Section Batches.

Variable net : network.

Lemma getContributorCounts_searchless l w :
  count is_search (getContributorCounts net l w).2 = 0%nat.
Proof.
  apply collect_searchless. intros r.
  unfold getContributorCounts_body. cbv zeta. searchless_body.
Qed.

Lemma getDetails_searchless l w :
  count is_search (getDetails net l w).2 = 0%nat.
Proof.
  apply in_sequence_searchless. unfold getDetails_sequence.
  repeat (apply Forall_cons; split); try apply Forall_nil_2;
    intros l0 w0; apply collect_searchless; intros r.
  - unfold getWorkflows_body. cbv zeta. searchless_body.
  - unfold getCommunityProfileMetrics_body. cbv zeta. searchless_body.
  - unfold getReadmeLengths_body. searchless_body.
  - unfold getLanguages_body. searchless_body.
  - unfold getSupportFiles_body. cbv zeta. searchless_body.
  - unfold getEnvironments_body. searchless_body.
  - unfold getFundingFiles_body. cbv zeta. searchless_body.
  - unfold getDeployments_body. searchless_body.
  - unfold getReleases_body. cbv zeta. searchless_body.
  - unfold getIssueLabelsCount_body. cbv zeta. searchless_body.
  - unfold getMilestones_body. cbv zeta. searchless_body.
  - unfold getSecurityFiles_body. cbv zeta. searchless_body.
  - unfold getCodeowners_body. cbv zeta. searchless_body.
  - unfold getChangelog_body. cbv zeta. searchless_body.
  - unfold getCodespaces_body. cbv zeta. searchless_body.
  - unfold getDiscussions_body. cbv zeta. searchless_body.
  - unfold getDependabot_body. cbv zeta. searchless_body.
Qed.

Lemma searchless_with_repos {A} (k : list RepositoryRecord → M A) :
  (∀ l, searchless (k l)) → searchless (with_repos k).
Proof.
  intros Hk w. unfold with_repos. destruct (repos_var w) as [l|]; [apply Hk|done].
Qed.

Lemma searchless_on_repos (c : collector) :
  (∀ l w, count is_search (c l w).2 = 0%nat) → searchless (on_repos c).
Proof.
  intros Hc. unfold on_repos. apply searchless_with_repos. intros l w.
  specialize (Hc l w). by destruct (c l w) as [[[l' o] w'] evs].
Qed.

Lemma collect_and_emit_searchless : searchless (collect_and_emit net).
Proof.
  unfold collect_and_emit.
  apply searchless_bind;
    [apply searchless_on_repos, getContributorCounts_searchless|intros _].
  apply searchless_bind; [by apply searchless_with_repos|intros _].
  apply searchless_bind; [apply searchless_on_repos, getDetails_searchless|intros _].
  apply searchless_bind.
  - apply searchless_with_repos. intros l w. unfold writeToArffFile.
    by destruct (arff_data l).
  - intros _. apply searchless_with_repos. intros l.
    destruct (10000 <? Z.of_nat (length l)); [|apply searchless_ret].
    intros w. unfold shutdown. by destruct (repos_var w).
Qed.

Lemma protected_searchless merged :
  searchless (bind (set_repos merged)
                   (fun _ => try_finally (collect_and_emit net) save_checkpoint)).
Proof.
  apply searchless_bind; [done|intros _].
  apply searchless_try_finally; [apply collect_and_emit_searchless|].
  intros w. unfold save_checkpoint. by destruct (repos_var w).
Qed.

Lemma load_saved_run w : ∃ saved, load_saved w = (Returned saved, w, []).
Proof. unfold load_saved. destruct (files w !! "repos.json") as [[?|?]|]; by eexists. Qed.

Lemma collect_and_emit_first w l0 :
  repos_var w = Some l0 →
  head (try_finally (collect_and_emit net) save_checkpoint w).2
  = Some (CollectorStarted "Getting contributor counts" l0).
Proof.
  intros Hrepos.
  assert (∃ evs', (collect_and_emit net w).2
                  = CollectorStarted "Getting contributor counts" l0 :: evs')
    as [evs' Hevs].
  { unfold collect_and_emit, bind at 1, on_repos at 1, with_repos at 1.
    rewrite Hrepos. pose proof (getContributorCounts_run net l0 w) as H1.
    destruct (getContributorCounts net l0 w) as [[[l1 o1] w1] evs1].
    destruct H1 as (_ & _ & _ & _ & reqs1 & ->).
    destruct o1 as [[]|e1|]; [|by eexists|by eexists].
    destruct (bind drop_invalid _ _) as [[o2 w2] evs2]. by eexists. }
  unfold try_finally. destruct (collect_and_emit net w) as [[o w1] evs].
  cbn [snd] in Hevs. subst evs.
  destruct o as [[]|e|]; [| |done];
    by destruct (save_checkpoint w1) as [[[[]|e'|] w2] evs2].
Qed.

Lemma doBatch_events query sort w :
  ∃ saved rest,
    load_saved w = (Returned saved, w, [])
    ∧ count is_search rest = 0%nat
    ∧ if given query && given sort
      then (doBatch net query sort w).2
           = Requested (SearchRepositories "stars:>10" "updated") :: rest
           ∧ ∀ data,
               net_search net (clock w) "stars:>10" "updated" = ApiOk data →
               head rest
               = Some (CollectorStarted "Getting contributor counts"
                         (removeDuplicateRepos (saved ++ (trim_repo <$> data))))
      else (doBatch net query sort w).2 = rest
           ∧ head rest
             = Some (CollectorStarted "Getting contributor counts"
                       (removeDuplicateRepos saved)).
Proof.
  destruct (load_saved_run w) as [saved Hsaved]. exists saved.
  destruct (given query && given sort) eqn:Hlive.
  - unfold doBatch, bind at 1. rewrite Hsaved, Hlive. unfold bind at 1.
    unfold getListOfRepos, bind at 1, octokit.
    destruct (net_search net (clock w) "stars:>10" "updated") as [data|e].
    + unfold ret at 1. cbv beta iota.
      pose proof (protected_searchless
                    (removeDuplicateRepos (saved ++ (trim_repo <$> data))) (tick w))
        as Hless.
      pose proof (collect_and_emit_first
                    (assign_repos (Some (removeDuplicateRepos
                                           (saved ++ (trim_repo <$> data)))) (tick w))
                    _ eq_refl) as Hfirst.
      unfold bind at 1 in Hless. unfold set_repos at 1 in Hless.
      unfold bind at 1. unfold set_repos at 1.
      destruct (try_finally _ _ _) as [[o w'] evs]. cbn [snd] in *.
      rewrite app_nil_l in Hless.
      eexists. split; [done|]. split; [exact Hless|]. split; [done|].
      intros data' [= <-]. exact Hfirst.
    + exists []. split; [done|]. split; [done|]. split; [done|]. by intros data' [=].
  - unfold doBatch, bind at 1. rewrite Hsaved, Hlive. unfold bind at 1.
    unfold ret at 1. cbv beta iota.
    pose proof (protected_searchless (removeDuplicateRepos (saved ++ [])) w) as Hless.
    pose proof (collect_and_emit_first
                  (assign_repos (Some (removeDuplicateRepos (saved ++ []))) w)
                  _ eq_refl) as Hfirst.
    unfold bind at 1 in Hless. unfold set_repos at 1 in Hless.
    unfold bind at 1. unfold set_repos at 1.
    destruct (try_finally _ _ _) as [[o w'] evs]. cbn [snd] in *.
    rewrite app_nil_l in Hless. rewrite app_nil_r in Hfirst.
    eexists. split; [done|]. split; [exact Hless|]. done.
Qed.

End Batches.

(** X13. A batch called without arguments, or with an empty one, makes no
    discovery request: it starts at once with the contributor counts of the
    saved records, merged.  A batch called with both arguments makes exactly
    one, before anything else, always for [stars:>10] sorted by [updated]
    whatever the arguments say; when it succeeds the contributor counts start
    on the saved records followed by the discovered ones, merged. *)
Theorem doBatch_discovers_once
        (net : network) (query sort : option string) (w : world) :
  let evs := (doBatch net query sort w).2 in
  ∃ saved,
    load_saved w = (Returned saved, w, [])
    ∧ (∀ q s, Requested (SearchRepositories q s) ∈ evs →
              given query && given sort = true ∧ q = "stars:>10" ∧ s = "updated")
    ∧ if given query && given sort
      then head evs = Some (Requested (SearchRepositories "stars:>10" "updated"))
           ∧ count is_search evs = 1%nat
           ∧ ∀ data,
               net_search net (clock w) "stars:>10" "updated" = ApiOk data →
               evs !! 1%nat
               = Some (CollectorStarted "Getting contributor counts"
                         (removeDuplicateRepos (saved ++ (trim_repo <$> data))))
      else head evs
           = Some (CollectorStarted "Getting contributor counts"
                     (removeDuplicateRepos saved))
           ∧ count is_search evs = 0%nat.
Proof.
  intros evs. unfold evs.
  destruct (doBatch_events net query sort w) as (saved & rest & Hsaved & Hless & H).
  exists saved. split; [done|].
  destruct (given query && given sort).
  - destruct H as [-> Hfirst]. split; [|split; [done|split]].
    + intros q s [[= -> ->]|Hin]%elem_of_cons; [done|].
      by pose proof (count_zero _ _ _ Hless Hin).
    + unfold count. simpl. unfold count in Hless. by rewrite Hless.
    + intros data Hdata. specialize (Hfirst data Hdata).
      destruct rest; [done|]. by injection Hfirst as ->.
  - destruct H as [-> Hfirst]. split; [|done].
    intros q s Hin. by pose proof (count_zero _ _ _ Hless Hin).
Qed.

(** ** The records a batch ends with *)

Lemma frames_identity keys (l l' : list RepositoryRecord) :
  Forall2 (frame keys) l l' → identity <$> l' = identity <$> l.
Proof.
  induction 1 as [|r r' l l' Hr _ IH]; [done|]. rewrite !fmap_cons.
  f_equal; [by eapply frame_identity|done].
Qed.

Lemma List_filter_sublist {A} (p : A → bool) (l : list A) :
  List.filter p l `sublist_of` l.
Proof. induction l as [|a l IH]; simpl; [constructor|]. destruct (p a); by constructor. Qed.

Section Identities.

Variable net : network.

Lemma collect_and_emit_identities w l0 :
  repos_var w = Some l0 →
  match collect_and_emit net w with
  | (o, w', evs) =>
      ∃ l', repos_var w' = Some l'
            ∧ identity <$> l' `sublist_of` identity <$> l0
  end.
Proof.
  intros Hrepos. unfold collect_and_emit, bind, on_repos at 1, with_repos at 1.
  rewrite Hrepos.
  pose proof (getContributorCounts_run net l0 w) as H1.
  destruct (getContributorCounts net l0 w) as [[[l1 o1] w1] evs1].
  destruct H1 as (Hfr1 & _ & _ & Ho1 & _).
  apply frames_identity in Hfr1.
  destruct o1 as [[]|e1|]; [|by eexists; split; [done|rewrite Hfr1]|done].
  unfold drop_invalid, with_repos at 1, set_repos. simpl.
  set (valid := List.filter (fun repo_ => truthy (get repo_ "contributor_count")) l1).
  assert (identity <$> valid `sublist_of` identity <$> l0) as Hvalid.
  { rewrite <- Hfr1. apply fmap_sublist, List_filter_sublist. }
  unfold on_repos, with_repos at 1. simpl.
  pose proof (getDetails_ok net valid
                (assign_repos (Some valid) (assign_repos (Some l1) w1))) as H2.
  destruct (getDetails net valid _) as [[[l2 o2] w2] evs2].
  destruct H2 as (Hfr2 & _ & _ & Ho2 & _).
  apply frames_identity in Hfr2.
  destruct o2 as [[]|e2|]; [|by eexists; split; [done|rewrite Hfr2]|done].
  unfold with_repos at 1. simpl. unfold writeToArffFile.
  destruct (arff_data l2) as [rows|];
    [|by simpl; eexists; split; [done|rewrite Hfr2]].
  simpl. unfold with_repos. simpl.
  destruct (10000 <? Z.of_nat (length l2)).
  - unfold shutdown. simpl. eexists; split; [done|by rewrite Hfr2].
  - simpl. eexists; split; [done|by rewrite Hfr2].
Qed.

Lemma protected_identities w l0 :
  repos_var w = Some l0 →
  match try_finally (collect_and_emit net) save_checkpoint w with
  | (o, w', evs) =>
      ∃ repos, repos_var w' = Some repos
               ∧ identity <$> repos `sublist_of` identity <$> l0
  end.
Proof.
  intros Hrepos. unfold try_finally.
  pose proof (collect_and_emit_identities w l0 Hrepos) as H.
  destruct (collect_and_emit net w) as [[o w1] evs1].
  destruct H as (l' & Hl' & Hsub).
  assert (save_checkpoint w1
          = (Returned tt, store "repos.json" (JsonFile (to_json l')) w1,
             [Wrote "repos.json" (JsonFile (to_json l'))])) as ->.
  { unfold save_checkpoint. by rewrite Hl'. }
  destruct o as [[]|e|]; by exists l'.
Qed.

End Identities.

(** X14. Unless its discovery request fails, a batch ends with [repos] holding,
    and the checkpoint file containing, records whose identities are all
    different and are, in the same order, among those of the merged list it
    started from: records are dropped, never invented, duplicated or
    reordered. *)
Theorem doBatch_never_duplicates
        (net : network) (query sort : option string) (w : world) :
  ∃ saved,
    load_saved w = (Returned saved, w, [])
    ∧ ∀ newRepos,
        (if given query && given sort
         then ∃ data, net_search net (clock w) "stars:>10" "updated" = ApiOk data
                      ∧ newRepos = trim_repo <$> data
         else newRepos = []) →
        ∃ repos,
          repos_var (doBatch net query sort w).1.2 = Some repos
          ∧ files (doBatch net query sort w).1.2 !! "repos.json"
            = Some (JsonFile (to_json repos))
          ∧ NoDup (identity <$> to_json repos)
          ∧ identity <$> to_json repos
            `sublist_of` identity <$> removeDuplicateRepos (saved ++ newRepos).
Proof.
  destruct (load_saved_run w) as [saved Hsaved]. exists saved. split; [done|].
  intros newRepos Hnew.
  assert (∃ repos,
            repos_var (doBatch net query sort w).1.2 = Some repos
            ∧ identity <$> repos
              `sublist_of` identity <$> removeDuplicateRepos (saved ++ newRepos))
    as (repos & Hrepos & Hsub).
  { unfold doBatch, bind at 1. rewrite Hsaved. unfold bind at 1.
    destruct (given query && given sort).
    - destruct Hnew as (data & Hdata & ->).
      unfold getListOfRepos, bind at 1, octokit. rewrite Hdata.
      unfold ret at 1. cbv beta iota. unfold bind at 1. unfold set_repos at 1.
      pose proof (protected_identities net
                    (assign_repos (Some (removeDuplicateRepos
                                           (saved ++ (trim_repo <$> data)))) (tick w))
                    _ eq_refl) as H.
      destruct (try_finally _ _ _) as [[o w'] evs]. exact H.
    - subst newRepos. unfold ret at 1. cbv beta iota.
      unfold bind at 1. unfold set_repos at 1.
      pose proof (protected_identities net
                    (assign_repos (Some (removeDuplicateRepos (saved ++ []))) w)
                    _ eq_refl) as H.
      destruct (try_finally _ _ _) as [[o w'] evs]. exact H. }
  assert (identity <$> to_json repos = identity <$> repos) as Hjson.
  { unfold to_json. rewrite <- list_fmap_compose. by apply list_fmap_ext. }
  exists repos. rewrite Hjson. split; [done|]. split; [|split; [|done]].
  - pose proof (doBatch_run net query sort w) as Hrun.
    destruct (doBatch net query sort w) as [[o w'] evs]. cbn [fst snd] in *.
    destruct Hrun as [(e & _ & Hlive & Hfail & _)|(repos' & Hr' & Hf' & _)].
    + rewrite Hlive in Hnew. destruct Hnew as (data & Hdata & _). congruence.
    + congruence.
  - eapply sublist_NoDup; [|exact Hsub].
    rewrite removeDuplicateRepos_keep_first. apply keep_first_NoDup.
Qed.

Lemma doBatch_never_duplicates_witness :
  ∃ repos,
    repos_var (doBatch (example_net 200) (Some "stars:>10") (Some "updated")
                       cold_start).1.2 = Some repos
    ∧ NoDup (identity <$> to_json repos).
Proof.
  destruct (doBatch_never_duplicates
              (example_net 200) (Some "stars:>10") (Some "updated") cold_start)
    as (saved & _ & H).
  destruct (H (trim_repo <$> [ mkApiRepo (Some "o") (Some "a") (Some "main") None ∅;
                               mkApiRepo (Some "o") (Some "b") (Some "main") None ∅ ])
              ltac:(by eexists))
    as (repos & Hrepos & _ & Hnd & _).
  exists repos. split; [exact Hrepos|exact Hnd].
Defined.

(** ** The main loop *)

Section MainLoop.

Variable net : network.

Lemma searchless_within (m : M unit) : searchless m → searches_within 0 m.
Proof.
  intros Hm w. specialize (Hm w). destruct (m w) as [[[[]|e|] w'] evs];
    cbn [snd] in Hm; lia.
Qed.

Lemma cleanUpBatch_searchless : searchless (cleanUpBatch net).
Proof.
  intros w. unfold cleanUpBatch.
  destruct (doBatch_events net None None w) as (saved & rest & _ & Hless & Hevs).
  simpl in Hevs. destruct Hevs as [-> _]. exact Hless.
Qed.

Lemma retries_searchless n (p : M unit) :
  searchless p → searchless (Nat.iter n (or_cleanUpBatch net) p).
Proof.
  intros Hp. induction n as [|n IH]; [done|]. simpl. unfold or_cleanUpBatch at 1.
  apply searchless_try_catch; [exact IH|intros _; apply cleanUpBatch_searchless].
Qed.

Lemma round_searches : searches_within 1 (round net).
Proof.
  intros w. unfold round, try_catch.
  destruct (doBatch_events net (Some "stars:>10") (Some "updated") w)
    as (saved & rest & _ & Hless & Hevs).
  simpl in Hevs. destruct Hevs as [Hevs _].
  destruct (doBatch net (Some "stars:>10") (Some "updated") w) as [[o w1] evs].
  cbn [snd] in Hevs. subst evs.
  assert (count is_search (Requested (SearchRepositories "stars:>10" "updated") :: rest)
          = 1%nat) as Hone.
  { unfold count in *. simpl. by rewrite Hless. }
  destruct o as [[]|e|]; [lia| |lia].
  pose proof (retries_searchless 9 (cleanUpBatch net) cleanUpBatch_searchless w1) as Hh.
  destruct (Nat.iter 9 (or_cleanUpBatch net) (cleanUpBatch net) w1)
    as [[[[]|e'|] w2] evs']; cbn [snd] in Hh; rewrite count_app; lia.
Qed.

Lemma searches_within_bind a b (m k : M unit) :
  searches_within a m → searches_within b k →
  searches_within (a + b) (bind m (fun _ => k)).
Proof.
  intros Hm Hk w. unfold bind. specialize (Hm w).
  destruct (m w) as [[[[]|e|] w1] evs]; [|lia|lia].
  specialize (Hk w1). destruct (k w1) as [[[[]|e|] w2] evs'];
    rewrite count_app; lia.
Qed.

Lemma rounds_searches n : searches_within n (rounds net n).
Proof.
  induction n as [|n IH]; [by intros w|].
  apply (searches_within_bind 1 n); [apply round_searches|exact IH].
Qed.

Lemma count_checkpoint_last evs records :
  last evs = Some (Wrote "repos.json" (JsonFile records)) →
  (1 ≤ count is_checkpoint evs)%nat.
Proof. intros Hlast. by eapply count_last. Qed.

Lemma saves_mono a b a' b' (m : M unit) :
  (a' ≤ a)%nat → (b' ≤ b)%nat → saves a b m → saves a' b' m.
Proof.
  intros Ha Hb Hm w. specialize (Hm w).
  destruct (m w) as [[[[]|e|] w'] evs]; lia.
Qed.

Lemma cleanUpBatch_saves : saves 1 1 (cleanUpBatch net).
Proof.
  intros w. unfold cleanUpBatch. pose proof (doBatch_run net None None w) as H.
  destruct (doBatch net None None w) as [[o w'] evs].
  destruct H as [(e & _ & Hlive & _)|(repos & _ & _ & Hlast & _)]; [done|].
  apply count_checkpoint_last in Hlast. by destruct o as [[]|e|].
Qed.

Lemma live_batch_saves :
  saves 1 0 (doBatch net (Some "stars:>10") (Some "updated")).
Proof.
  intros w.
  pose proof (doBatch_run net (Some "stars:>10") (Some "updated") w) as H.
  destruct (doBatch net (Some "stars:>10") (Some "updated") w) as [[o w'] evs].
  destruct H as [(e & -> & _)|(repos & _ & _ & Hlast & _)]; [lia|].
  apply count_checkpoint_last in Hlast. destruct o as [[]|e|]; lia.
Qed.

Lemma saves_try_catch a b b' (m h : M unit) :
  saves a b m → saves a b' h → saves a (b + b') (try_catch m (fun _ => h)).
Proof.
  intros Hm Hh w. unfold try_catch. specialize (Hm w).
  destruct (m w) as [[[[]|e|] w1] evs]; [done| |done].
  specialize (Hh w1). destruct (h w1) as [[[[]|e'|] w2] evs'];
    rewrite count_app; lia.
Qed.

Lemma saves_bind a b a' b' (m k : M unit) :
  saves a b m → saves a' b' k →
  saves (a + a') (Nat.min b (a + b')) (bind m (fun _ => k)).
Proof.
  intros Hm Hk w. unfold bind. specialize (Hm w).
  destruct (m w) as [[[[]|e|] w1] evs]; [|lia|done].
  specialize (Hk w1). destruct (k w1) as [[[[]|e|] w2] evs'];
    rewrite count_app; lia.
Qed.

Lemma retries_save n b (p : M unit) :
  saves 1 b p → saves 1 (b + n) (Nat.iter n (or_cleanUpBatch net) p).
Proof.
  intros Hp. induction n as [|n IH]; simpl.
  - by rewrite Nat.add_0_r.
  - unfold or_cleanUpBatch at 1. replace (b + S n)%nat with ((b + n) + 1)%nat by lia.
    apply saves_try_catch; [exact IH|apply cleanUpBatch_saves].
Qed.

Lemma round_saves : saves 1 10 (round net).
Proof.
  unfold round. apply (saves_try_catch 1 0 10); [apply live_batch_saves|].
  apply (retries_save 9 1), cleanUpBatch_saves.
Qed.

Lemma rounds_save n : saves n 10 (rounds net n).
Proof.
  induction n as [|n IH]; [intros w; cbn; lia|].
  simpl. eapply saves_mono; [| |apply (saves_bind 1 10 n 10); [apply round_saves|exact IH]];
    lia.
Qed.

End MainLoop.

(** X15. The whole run makes at most 100 discovery requests, and exactly 100
    when it returns: one per round of the loop, none while recovering.  It
    writes the checkpoint at least 101 times when it returns; it gives up
    with an error only after ten batches in a row have failed, each of the
    clean-up batches among them having written the checkpoint; and it leaves
    the process only with the checkpoint written. *)
Theorem main_discovery_and_progress (net : network) (w : world) :
  match main net w with
  | (Returned _, _, evs) =>
      count is_search evs = 100%nat ∧ (101 ≤ count is_checkpoint evs)%nat
  | (Thrown _, _, evs) =>
      (count is_search evs ≤ 100)%nat ∧ (10 ≤ count is_checkpoint evs)%nat
  | (Exited, _, evs) =>
      (count is_search evs ≤ 100)%nat ∧ (1 ≤ count is_checkpoint evs)%nat
  end.
Proof.
  assert (searches_within 100 (main net)) as Hsearch.
  { apply (searches_within_bind 0 100); [|apply rounds_searches].
    apply searchless_within, retries_searchless, cleanUpBatch_searchless. }
  assert (saves 101 10 (main net)) as Hsaves.
  { eapply saves_mono;
      [| |apply (saves_bind 1 10 100 10);
          [apply (retries_save net 9 1), cleanUpBatch_saves|apply rounds_save]]; lia. }
  specialize (Hsearch w). specialize (Hsaves w).
  by destruct (main net w) as [[[[]|e|] w'] evs].
Qed.

(** ** A collector that stops *)

Lemma for_of_thrown body (P : RepositoryRecord → Prop) l w l' e w' evs :
  (∀ r, quiet (body r) P) →
  for_of body l w = (l', Thrown e, w', evs) →
  ∃ pre pre' r rest w0 evs0,
    l = pre ++ r :: rest ∧ l' = pre' ++ r :: rest
    ∧ length pre' = length pre ∧ Forall P pre'
    ∧ body r w0 = (Thrown e, w', evs0).
Proof.
  intros Hbody. revert w l' evs. induction l as [|r l IH]; intros w l' evs; simpl; [done|].
  pose proof (Hbody r w) as Hr.
  destruct (body r w) as [[[r'|e0|] w1] evs1] eqn:Hrun.
  - destruct Hr as [_ HP].
    destruct (for_of body l w1) as [[[rest' o] w2] evs2] eqn:Hrest.
    intros [= <- -> <- <-].
    destruct (IH _ _ _ Hrest) as (pre & pre' & r0 & rest & w0 & evs0 & -> & -> & Hlen & Hpre & Hthrow).
    exists (r :: pre), (r' :: pre'), r0, rest, w0, evs0.
    repeat split; try done; [by simpl; rewrite Hlen|by constructor].
  - intros [= <- <- <- <-]. exists [], [], r, l, w, evs1. by repeat split.
  - done.
Qed.

(** X16. When a collector stops with an error, the record it was working on and
    all the records after it are as they were, and that record is still
    without the collector's attribute, so that the next run starts again
    with it; the records before it all have the attribute. *)
Theorem collectors_stop_at_first_error
        (net : network) (key : string) (c : collector)
        (l : list RepositoryRecord) (w : world) :
  (key, c) ∈ collectors net →
  let '(l', o, _, _) := c l w in
  ∀ e, o = Thrown e →
  ∃ pre pre' r rest,
    l = pre ++ r :: rest ∧ l' = pre' ++ r :: rest
    ∧ length pre' = length pre
    ∧ Forall (fun r' => is_Some (attrs r' !! key)) pre'
    ∧ attrs r !! key = None.
Proof.
  intros Hc. destruct (decide (key = "has_deployments")) as [->|Hkey].
  - assert (c = getDeployments net) as ->.
    { unfold collectors in Hc.
      repeat (apply elem_of_cons in Hc as [Heq|Hc]); try (by apply elem_of_nil in Hc);
        by simplify_eq. }
    destruct (tolerant_deployments net l w) as (l' & w' & evs & ->). by intros e.
  - destruct (collectors_complete net key c Hc Hkey)
      as (message & body & -> & Hskip & Hsets).
    unfold collect. destruct (for_of body l w) as [[[l' o] w'] evs] eqn:Hrun.
    intros e ->.
    destruct (for_of_thrown body _ l w l' e w' evs Hsets Hrun)
      as (pre & pre' & r & rest & w0 & evs0 & -> & -> & Hlen & Hpre & Hthrow).
    exists pre, pre', r, rest. repeat split; try done.
    destruct (attrs r !! key) as [v|] eqn:Hv; [|done].
    rewrite Hskip in Hthrow; [done|]. apply hasOwnProperty_Some. by rewrite Hv.
Qed.

Lemma collectors_stop_at_first_error_witness :
  ∃ pre pre' r rest,
    [example_repo ∅] = pre ++ r :: rest
    ∧ (getIssueLabelsCount (example_net 500) [example_repo ∅] cold_start).1.1.1
      = pre' ++ r :: rest
    ∧ length pre' = length pre
    ∧ Forall (fun r' => is_Some (attrs r' !! "labels_count")) pre'
    ∧ attrs r !! "labels_count" = None.
Proof.
  exact (collectors_stop_at_first_error
           (example_net 500) "labels_count" (getIssueLabelsCount (example_net 500))
           [example_repo ∅] cold_start
           ltac:(unfold collectors; repeat constructor)
           (UnexpectedStatus 500 "GET" "https://github.com/o/a/labels") eq_refl).
Defined.

(** ** From the languages to the dataset *)

Lemma for_of_returned_from body (Q P : RepositoryRecord → Prop) l w :
  (∀ r, Q r → quiet (body r) P) →
  Forall Q l →
  let '(l', o, _, _) := for_of body l w in
  o = Returned tt → Forall P l'.
Proof.
  intros Hbody Hl. revert w. induction Hl as [|r l Hr Hl IH]; intros w; simpl; [done|].
  pose proof (Hbody r Hr w) as Hrun.
  destruct (body r w) as [[[r'|e|] w1] evs1]; try done.
  destruct Hrun as [_ HP]. specialize (IH w1).
  destruct (for_of body l w1) as [[[l' o] w2] evs2].
  intros Ho. constructor; [done|by apply IH].
Qed.

Section Languages.

Variable net : network.

Lemma getLanguages_collects l w :
  Forall languages_collectable l →
  let '(l', o, _, _) := getLanguages net l w in
  o = Returned tt → Forall languages_collected l'.
Proof.
  intros Hl. unfold getLanguages, collect.
  pose proof (for_of_returned_from (getLanguages_body net)
                languages_collectable languages_collected l w) as H.
  destruct (for_of _ l w) as [[[l' o] w'] evs]. apply H; [|done].
  intros r Hr. unfold getLanguages_body.
  destruct (hasOwnProperty r "languages") eqn:Hhas.
  - apply quiet_ret. destruct Hr as [Hnone|Hobj]; [|done].
    by rewrite (hasOwnProperty_None _ _ Hnone) in Hhas.
  - eapply quiet_bind; [apply quiet_octokit|]. intros data _. apply quiet_ret.
    exists data. simpl. by rewrite lookup_insert_eq.
Qed.

Lemma details_leave_languages :
  Forall (fun c => c = getLanguages net
                   ∨ ∃ keys, ("languages" ∉ keys) ∧ collector_ok keys c)
         (getDetails_sequence net).
Proof.
  unfold getDetails_sequence.
  repeat (apply Forall_cons; split); try apply Forall_nil_2;
    first
      [ by left
      | right; eexists; split;
        [|apply collect_ok; intros r;
          first [ apply getWorkflows_body_quiet
                | apply getCommunityProfileMetrics_body_quiet
                | apply getReadmeLengths_body_quiet
                | apply getSupportFiles_body_quiet
                | apply getEnvironments_body_quiet
                | apply getFundingFiles_body_quiet
                | apply getDeployments_body_quiet
                | apply getReleases_body_quiet
                | apply getIssueLabelsCount_body_quiet
                | apply getMilestones_body_quiet
                | apply getSecurityFiles_body_quiet
                | apply getCodeowners_body_quiet
                | apply getChangelog_body_quiet
                | apply getCodespaces_body_quiet
                | apply getDiscussions_body_quiet
                | apply getDependabot_body_quiet ]];
        apply (bool_decide_unpack _); by vm_compute ].
Qed.

Lemma in_sequence_languages cs l w :
  Forall (fun c => c = getLanguages net
                   ∨ ∃ keys, ("languages" ∉ keys) ∧ collector_ok keys c) cs →
  let '(l', o, _, _) := in_sequence cs l w in
  o = Returned tt →
  (Forall languages_collectable l →
   Forall languages_collectable l')
  ∧ (Forall languages_collected l →
     Forall languages_collected l')
  ∧ (getLanguages net ∈ cs →
     Forall languages_collectable l →
     Forall languages_collected l').
Proof.
  intros Hcs. revert l w. induction Hcs as [|c cs Hc Hcs IH]; intros l w; simpl.
  - intros _. split; [done|]. split; [done|]. by intros ?%elem_of_nil.
  - assert (let '(l1, o1, _, _) := c l w in
            o1 = Returned tt →
            (Forall languages_collectable l →
             Forall languages_collectable l1)
            ∧ (Forall languages_collected l →
               Forall languages_collected l1)
            ∧ (c = getLanguages net →
               Forall languages_collectable l →
               Forall languages_collected l1)) as Hstep.
    { destruct Hc as [->|(keys & Hk & Hok)].
      - pose proof (getLanguages_collects l w) as H.
        destruct (getLanguages net l w) as [[[l1 o1] w1] evs1]. intros Ho.
        assert (∀ l0 : list RepositoryRecord,
                  Forall languages_collected l0 →
                  Forall languages_collectable l0) as Hweak.
        { intros l0 H0. eapply Forall_impl; [exact H0|]. intros r Hr. by right. }
        split; [|split]; intros; auto.
      - specialize (Hok l w).
        assert (c = getLanguages net →
                let '(l1, o1, _, _) := c l w in
                o1 = Returned tt →
                Forall languages_collectable l → Forall languages_collected l1) as H3.
        { intros ->. pose proof (getLanguages_collects l w) as H.
          destruct (getLanguages net l w) as [[[l1 o1] w1] evs1]. auto. }
        destruct (c l w) as [[[l1 o1] w1] evs1].
        destruct Hok as (Hfr & _). intros Ho. split; [|split].
        + by apply (frames_keep keys "languages"
                      (fun v => v = None ∨ ∃ fields, v = Some (VObject fields))).
        + by apply (frames_keep keys "languages"
                      (fun v => ∃ fields, v = Some (VObject fields))).
        + auto. }
    destruct (c l w) as [[[l1 [[]|e|]] w1] evs1]; try done.
    specialize (IH l1 w1). destruct (in_sequence cs l1 w1) as [[[l2 o2] w2] evs2].
    intros Ho. specialize (IH Ho). specialize (Hstep eq_refl).
    destruct IH as (IH1 & IH2 & IH3). destruct Hstep as (H1 & H2 & H3).
    split; [auto|]. split; [auto|].
    intros [Heq|Hin]%elem_of_cons Hl; [by apply IH2, H3|by apply IH3, H1].
Qed.

End Languages.

(** X17. Given records whose languages are an object or are still to be
    collected (as those of a record just discovered are), [getDetails], when
    it returns, leaves every record with an object as its languages, and
    the dataset writer then writes one row per record: it does not throw. *)
Theorem getDetails_then_dataset
        (net : network) (l : list RepositoryRecord) (w : world) :
  Forall languages_collectable l →
  let '(l', o, w', _) := getDetails net l w in
  o = Returned tt →
  Forall (fun r => ∃ fields, get r "languages" = VObject fields) l'
  ∧ ∃ rows,
      writeToArffFile l' "github.arff" w'
      = (Returned tt, store "github.arff" (ArffFile rows) w',
         [Wrote "github.arff" (ArffFile rows)])
      ∧ length rows = length l'.
Proof.
  intros Hl.
  pose proof (in_sequence_languages net (getDetails_sequence net) l w
                (details_leave_languages net)) as H.
  unfold getDetails. destruct (in_sequence _ l w) as [[[l' o] w'] evs].
  intros Ho. destruct (H Ho) as (_ & _ & H3).
  assert (Forall (fun r => ∃ fields, get r "languages" = VObject fields) l') as Hobj.
  { eapply Forall_impl; [apply H3; [|exact Hl]|].
    - unfold getDetails_sequence. do 3 apply list_elem_of_further. apply list_elem_of_here.
    - intros r [fields Hr]. exists fields. unfold get. by rewrite Hr. }
  split; [done|]. unfold writeToArffFile. pose proof (arff_data_rows l') as Hrows.
  destruct (arff_data l') as [rows|].
  - exists rows. split; [done|]. symmetry. by eapply Forall2_length.
  - destruct Hrows as (r & Hin & Hnone). rewrite Forall_forall in Hobj.
    destruct (Hobj r Hin) as [fields Hfields].
    apply arff_data_row_None in Hnone. rewrite Hfields in Hnone. by destruct Hnone.
Qed.

(** A record just discovered, still without languages: [getDetails] returns
    and has collected them. *)
Lemma getDetails_then_dataset_witness :
  attrs (example_repo ∅) !! "languages" = None
  ∧ (getDetails (example_net 200) [example_repo ∅] cold_start).1.1.2 = Returned tt
  ∧ Forall (fun r => ∃ fields, get r "languages" = VObject fields)
           (getDetails (example_net 200) [example_repo ∅] cold_start).1.1.1.
Proof.
  pose proof (getDetails_then_dataset (example_net 200) [example_repo ∅] cold_start
                ltac:(apply Forall_cons_2; [by left|apply Forall_nil_2])) as H.
  split; [done|].
  destruct (getDetails (example_net 200) [example_repo ∅] cold_start)
    as [[[l' o] w'] evs] eqn:Hrun.
  assert (o = Returned tt) as Ho.
  { change o with (l', o, w', evs).1.1.2. rewrite <- Hrun. by vm_compute. }
  split; [exact Ho|exact (proj1 (H Ho))].
Defined.

(** ** The files a batch touches *)

Section Files.

Variable net : network.

Lemma collect_and_emit_files w l0 :
  repos_var w = Some l0 →
  match collect_and_emit net w with
  | (o, w', evs) =>
      (∀ name, name ≠ "github.arff" → name ≠ "repos.json" →
               files w' !! name = files w !! name)
      ∧ Forall (fun e => match e with
                         | Wrote name (ArffFile _) => name = "github.arff"
                         | Wrote name (JsonFile _) => name = "repos.json"
                         | _ => True
                         end) evs
  end.
Proof.
  intros Hrepos. unfold collect_and_emit, bind, on_repos at 1, with_repos at 1.
  rewrite Hrepos.
  pose proof (getContributorCounts_run net l0 w) as H1.
  destruct (getContributorCounts net l0 w) as [[[l1 o1] w1] evs1].
  destruct H1 as (_ & Hf1 & _ & Ho1 & reqs1 & ->).
  assert (Forall (fun e => match e with
                           | Wrote name (ArffFile _) => name = "github.arff"
                           | Wrote name (JsonFile _) => name = "repos.json"
                           | _ => True
                           end) (Requested <$> reqs1)) as Hev1.
  { apply Forall_fmap, Forall_forall. by intros. }
  destruct o1 as [[]|e1|]; [|split; [intros; simpl; congruence|by constructor]|done].
  unfold drop_invalid, with_repos at 1, set_repos. simpl.
  set (valid := List.filter (fun repo_ => truthy (get repo_ "contributor_count")) l1).
  unfold on_repos, with_repos at 1. simpl.
  pose proof (getDetails_ok net valid
                (assign_repos (Some valid) (assign_repos (Some l1) w1))) as H2.
  destruct (getDetails net valid _) as [[[l2 o2] w2] evs2].
  destruct H2 as (_ & Hf2 & _ & Ho2 & Hev2). simpl in Hf2.
  assert (Forall (fun e => match e with
                           | Wrote name (ArffFile _) => name = "github.arff"
                           | Wrote name (JsonFile _) => name = "repos.json"
                           | _ => True
                           end) evs2) as Hev2'.
  { eapply Forall_impl; [exact Hev2|]. by intros [r|message l|name content]. }
  destruct o2 as [[]|e2|]; [| |done].
  2:{ split; [intros; simpl; congruence|]. solve_events; done. }
  unfold with_repos at 1. simpl. unfold writeToArffFile.
  destruct (arff_data l2) as [rows|].
  2:{ simpl. split; [intros; simpl; congruence|]. solve_events; done. }
  simpl. unfold with_repos. simpl.
  destruct (10000 <? Z.of_nat (length l2)).
  - unfold shutdown. simpl. split.
    + intros name Harff Hjson. rewrite !lookup_insert_ne by done. congruence.
    + solve_events; done.
  - simpl. split.
    + intros name Harff Hjson. rewrite !lookup_insert_ne by done. congruence.
    + solve_events; done.
Qed.

End Files.

(** X18. A batch writes no file other than the dataset [github.arff], as
    rows, and the checkpoint [repos.json], as records: every other file is
    at the end as it was at the start. *)
Theorem doBatch_writes_only_its_files
        (net : network) (query sort : option string) (w : world) :
  let '(_, w', evs) := doBatch net query sort w in
  (∀ name, name ≠ "github.arff" → name ≠ "repos.json" →
           files w' !! name = files w !! name)
  ∧ (∀ name content,
       Wrote name content ∈ evs →
       match content with
       | ArffFile _ => name = "github.arff"
       | JsonFile _ => name = "repos.json"
       end).
Proof.
  assert (∀ w0 l0,
            repos_var w0 = Some l0 →
            match try_finally (collect_and_emit net) save_checkpoint w0 with
            | (o, w', evs) =>
                (∀ name, name ≠ "github.arff" → name ≠ "repos.json" →
                         files w' !! name = files w0 !! name)
                ∧ Forall (fun e => match e with
                                   | Wrote name (ArffFile _) => name = "github.arff"
                                   | Wrote name (JsonFile _) => name = "repos.json"
                                   | _ => True
                                   end) evs
            end) as Hprotected.
  { intros w0 l0 Hrepos. unfold try_finally.
    pose proof (collect_and_emit_files net w0 l0 Hrepos) as H.
    destruct (collect_and_emit net w0) as [[o w1] evs1]. destruct H as [Hf Hev].
    unfold save_checkpoint, writeRawDataToJsonFile, write_file.
    destruct o as [[]|e|]; [| |done];
      destruct (repos_var w1) as [repos|];
      (split;
       [ intros name Harff Hjson; simpl; rewrite ?lookup_insert_ne by done; by apply Hf
       | rewrite ?app_nil_r; solve_events; done ]). }
  assert (∀ evs : list event,
            Forall (fun e => match e with
                             | Wrote name (ArffFile _) => name = "github.arff"
                             | Wrote name (JsonFile _) => name = "repos.json"
                             | _ => True
                             end) evs →
            ∀ name content,
              Wrote name content ∈ evs →
              match content with
              | ArffFile _ => name = "github.arff"
              | JsonFile _ => name = "repos.json"
              end) as Hevents.
  { intros evs Hevs name content Hin. rewrite Forall_forall in Hevs.
    specialize (Hevs _ Hin). by destruct content. }
  destruct (load_saved_run w) as [saved Hsaved].
  unfold doBatch, bind at 1. rewrite Hsaved. unfold bind at 1.
  destruct (given query && given sort).
  - unfold getListOfRepos, bind at 1, octokit.
    destruct (net_search net (clock w) "stars:>10" "updated") as [data|e].
    + unfold ret at 1. cbv beta iota. unfold bind at 1. unfold set_repos at 1.
      pose proof (Hprotected
                    (assign_repos (Some (removeDuplicateRepos
                                           (saved ++ (trim_repo <$> data)))) (tick w))
                    _ eq_refl) as H.
      destruct (try_finally _ _ _) as [[o w'] evs]. destruct H as [Hf Hev].
      split; [exact Hf|]. apply Hevents. simpl. by constructor.
    + simpl. split; [done|]. intros name content Hin.
      apply list_elem_of_singleton in Hin. discriminate.
  - unfold ret at 1. cbv beta iota. unfold bind at 1. unfold set_repos at 1.
    pose proof (Hprotected
                  (assign_repos (Some (removeDuplicateRepos (saved ++ []))) w)
                  _ eq_refl) as H.
    destruct (try_finally _ _ _) as [[o w'] evs]. destruct H as [Hf Hev].
    split; [exact Hf|]. by apply Hevents.
Qed.
